(** * Optuna [study.py]: the trial scheduling and execution engine

    A shallow embedding of [optuna/study.py] (class [Study], its
    sequential and parallel schedulers, the trial runner and the tabular
    export) together with the properties of its specification.

    Layout: Python data ([Py]), the storage collaborator ([Storages]),
    the engine itself ([StudyM], [Parallel], [Tabular]), then the
    theorems. *)

From Stdlib Require Import ZArith List Bool Lia Sorting.Sorted Sorting.Permutation.
From Stdlib Require Import Floats.SpecFloat Structures.OrdersEx.
From stdpp Require Import base option list strings gmap sorting.

Local Open Scope string_scope.
Local Open Scope list_scope.
Local Open Scope Z_scope.

(* ===================================================================== *)
(** * Python data: exceptions, values, [float()]                          *)
(* ===================================================================== *)

Module Py.

(** Exception classes.  The built-in hierarchy is the part of CPython's
    that the engine can meet; [TrialPruned] is [structs.TrialPruned], a
    subclass of [Exception]; [UserError] is any class an objective
    defines, with its base class. *)
Inductive exc_class : Type :=
| BaseException
| Exception
| KeyboardInterrupt
| SystemExit
| ArithmeticError
| OverflowError
| ZeroDivisionError
| ValueError
| TypeError
| RuntimeError
| LookupError
| KeyError
| TrialPruned
| UserError (name : string) (base : exc_class).

#[global] Instance exc_class_eq_dec : EqDecision exc_class.
Proof. solve_decision. Defined.

(** The method resolution order of a class: itself, then its ancestors. *)
Fixpoint mro (c : exc_class) : list exc_class :=
  c :: match c with
       | BaseException => []
       | Exception | KeyboardInterrupt | SystemExit => [BaseException]
       | ArithmeticError | ValueError | TypeError | RuntimeError
       | LookupError | TrialPruned => [Exception; BaseException]
       | OverflowError | ZeroDivisionError =>
           [ArithmeticError; Exception; BaseException]
       | KeyError => [LookupError; Exception; BaseException]
       | UserError _ b => mro b
       end.

Definition issubclass (c d : exc_class) : bool :=
  existsb (fun a => bool_decide (a = d)) (mro c).

(** A raised exception: its class and the text of [str(e)]. *)
Record exc : Type := mk_exc { exc_cls : exc_class; exc_str : string }.

Definition isinstance (e : exc) (c : exc_class) : bool :=
  issubclass (exc_cls e) c.

(** [except catch as e] with [catch] a tuple of classes. *)
Definition matches (e : exc) (catch : list exc_class) : bool :=
  existsb (isinstance e) catch.

(** A computation that returns or raises. *)
Inductive res (A : Type) : Type :=
| Ret (a : A)
| Raise (e : exc).
Arguments Ret {A} a.
Arguments Raise {A} e.

(** Python floats are IEEE 754 binary64. *)
Definition float : Type := spec_float.
Definition prec : Z := 53.
Definition emax : Z := 1024.

Definition nan : float := S754_nan.
Definition inf : float := S754_infinity false.

Definition isnan (f : float) : bool :=
  match f with S754_nan => true | _ => false end.

Definition isfinite (f : float) : bool :=
  match f with S754_zero _ | S754_finite _ _ _ => true | _ => false end.

Definition float_of_Z (z : Z) : float := binary_normalize prec emax z 0 false.

(** The values an objective can hand back. *)
Inductive value : Type :=
| VNone
| VBool (b : bool)
| VInt (z : Z)
| VFloat (f : float)
| VStr (s : string)
| VOther (type_name : string).

(** What the engine takes from the Python runtime and the host without
    looking inside: the parser behind [float(str)], [repr], the host's
    processing-unit count and the readings of [datetime.datetime.now()]
    (in microseconds, numbered in the order the scheduler takes them). *)
Class Runtime : Type := {
  float_of_str : string -> option float;
  repr_value : value -> string;
  repr_exc : exc -> string;
  cpu_count : Z;
  clock : nat -> Z
}.

(** [float(v)]: an [int] too large for binary64 raises [OverflowError];
    a string that does not parse raises [ValueError]; [None] and
    objects of a type without a float conversion ([VOther]: lists,
    dicts, ...) raise [TypeError]. *)
Definition py_float `{Runtime} (v : value) : res float :=
  match v with
  | VFloat f => Ret f
  | VBool b => Ret (float_of_Z (if b then 1 else 0))
  | VInt z =>
      match float_of_Z z with
      | S754_infinity _ =>
          Raise (mk_exc OverflowError "int too large to convert to float")
      | f => Ret f
      end
  | VStr s =>
      match float_of_str s with
      | Some f => Ret f
      | None => Raise (mk_exc ValueError ("could not convert string to float: " +:+ repr_value v))
      end
  | VNone | VOther _ =>
      Raise (mk_exc TypeError "float() argument must be a string or a number")
  end.

(** [timedelta.total_seconds()] of a difference of [dt] microseconds. *)
Definition total_seconds (dt : Z) : float :=
  SFdiv prec emax (float_of_Z dt) (float_of_Z 1000000).

(** [a >= b] and [a > b] on floats. *)
Definition float_ge (a b : float) : bool := SFleb b a.
Definition float_gt (a b : float) : bool := SFltb b a.

End Py.

Import Py.

(* ===================================================================== *)
(** * The storage collaborator                                            *)
(* ===================================================================== *)

Module Storages.

Inductive TrialState : Type := RUNNING | COMPLETE | PRUNED | FAIL.

#[global] Instance TrialState_eq_dec : EqDecision TrialState.
Proof. solve_decision. Defined.

Inductive StudyTask : Type := NOT_SET | MINIMIZE | MAXIMIZE.

#[global] Instance StudyTask_eq_dec : EqDecision StudyTask.
Proof. solve_decision. Defined.

(** [str(structs.TrialState.X)]. *)
Definition TrialState_str (st : TrialState) : string :=
  match st with
  | RUNNING => "TrialState.RUNNING"
  | COMPLETE => "TrialState.COMPLETE"
  | PRUNED => "TrialState.PRUNED"
  | FAIL => "TrialState.FAIL"
  end.

(** Modelled from the spec: [structs.FrozenTrial] is not among the
    sources.  The persisted record of a trial: "identifier, state, value,
    parameter dict, per-step intermediate values, user/system attribute
    dicts, ..."; the fields the engine reads or writes, and the study the
    trial belongs to.  The intermediate values are kept in the order they
    were reported. *)
Record FrozenTrial : Type := mk_trial {
  trial_id : nat;
  trial_study : nat;
  state : TrialState;
  value : option float;
  params : gmap string Py.value;
  system_attrs : gmap string string;
  intermediate_values : list float
}.

Record StudyRecord : Type := mk_study_record {
  study_name_of : string;
  study_task : StudyTask;
  study_user_attrs : gmap string Py.value;
  study_system_attrs : gmap string Py.value
}.

(** The writes a storage receives, in the order it receives them. *)
Inductive Call : Type :=
| CreateNewTrialId (study_id trial_id : nat)
| SetTrialState (trial_id : nat) (st : TrialState)
| SetTrialValue (trial_id : nat) (v : float)
| SetTrialIntermediateValue (trial_id : nat) (v : float)
| SetTrialSystemAttr (trial_id : nat) (key val : string)
| SetStudyTask (study_id : nat) (task : StudyTask)
| SetStudyUserAttr (study_id : nat) (key : string) (val : Py.value)
| SetStudySystemAttr (study_id : nat) (key : string) (val : Py.value)
| RemoveSession.

(** Modelled from the spec: the package [optuna.storages] is not among
    the sources.  An in-memory storage with the contract the engine
    consumes: "atomic trial-id allocation scoped to a study id; set/get
    trial state; set trial system attribute; get best trial (by minimum
    recorded value) for a study id; get all trials for a study id;
    get/set study-level user and system attributes; resolve a study id
    from a name".  A study identifier is an index into [studies], a trial
    identifier an index into [trials]; [calls] is the history of
    writes. *)
Record Storage : Type := mk_storage {
  studies : list StudyRecord;
  trials : list FrozenTrial;
  calls : list Call
}.

Definition empty_storage : Storage := mk_storage [] [] [].

Definition log (c : Call) (s : Storage) : Storage :=
  mk_storage (studies s) (trials s) (calls s ++ [c]).

Definition with_trials (ts : list FrozenTrial) (s : Storage) : Storage :=
  mk_storage (studies s) ts (calls s).

Definition with_studies (ss : list StudyRecord) (s : Storage) : Storage :=
  mk_storage ss (trials s) (calls s).

Definition upd_trial (f : FrozenTrial -> FrozenTrial) (tid : nat) (s : Storage) : Storage :=
  with_trials (alter f tid (trials s)) s.

Definition upd_study (f : StudyRecord -> StudyRecord) (sid : nat) (s : Storage) : Storage :=
  with_studies (alter f sid (studies s)) s.

(** Modelled from the spec: "resolve a study id from a name"; a name no
    study bears is an error. *)
Fixpoint find_study (name : string) (i : nat) (l : list StudyRecord) : option nat :=
  match l with
  | [] => None
  | r :: l' => if bool_decide (study_name_of r = name) then Some i
               else find_study name (S i) l'
  end.

Definition get_study_id_from_name (name : string) (s : Storage) : res nat :=
  match find_study name 0 (studies s) with
  | Some sid => Ret sid
  | None => Raise (mk_exc ValueError ("No such study " +:+ name +:+ "."))
  end.

Definition set_study_task (sid : nat) (task : StudyTask) (s : Storage) : Storage :=
  log (SetStudyTask sid task)
      (upd_study (fun r => mk_study_record (study_name_of r) task
                             (study_user_attrs r) (study_system_attrs r)) sid s).

Definition get_study_task (sid : nat) (s : Storage) : StudyTask :=
  match studies s !! sid with Some r => study_task r | None => NOT_SET end.

Definition set_study_user_attr (sid : nat) (k : string) (v : Py.value) (s : Storage) : Storage :=
  log (SetStudyUserAttr sid k v)
      (upd_study (fun r => mk_study_record (study_name_of r) (study_task r)
                             (<[k:=v]> (study_user_attrs r)) (study_system_attrs r)) sid s).

Definition set_study_system_attr (sid : nat) (k : string) (v : Py.value) (s : Storage) : Storage :=
  log (SetStudySystemAttr sid k v)
      (upd_study (fun r => mk_study_record (study_name_of r) (study_task r)
                             (study_user_attrs r) (<[k:=v]> (study_system_attrs r))) sid s).

Definition get_study_user_attrs (sid : nat) (s : Storage) : gmap string Py.value :=
  match studies s !! sid with Some r => study_user_attrs r | None => ∅ end.

Definition get_study_system_attrs (sid : nat) (s : Storage) : gmap string Py.value :=
  match studies s !! sid with Some r => study_system_attrs r | None => ∅ end.

(** Atomic allocation: the new identifier is the next free index, and
    the trial starts in its running state. *)
Definition create_new_trial_id (sid : nat) (s : Storage) : nat * Storage :=
  let tid := List.length (trials s) in
  (tid, log (CreateNewTrialId sid tid)
            (with_trials (trials s ++ [mk_trial tid sid RUNNING None ∅ ∅ []]) s)).

Definition set_trial_state (tid : nat) (st : TrialState) (s : Storage) : Storage :=
  log (SetTrialState tid st)
      (upd_trial (fun t => mk_trial (trial_id t) (trial_study t) st (value t)
                             (params t) (system_attrs t) (intermediate_values t)) tid s).

Definition set_trial_value (tid : nat) (v : float) (s : Storage) : Storage :=
  log (SetTrialValue tid v)
      (upd_trial (fun t => mk_trial (trial_id t) (trial_study t) (state t) (Some v)
                             (params t) (system_attrs t) (intermediate_values t)) tid s).

Definition set_trial_intermediate_value (tid : nat) (v : float) (s : Storage) : Storage :=
  log (SetTrialIntermediateValue tid v)
      (upd_trial (fun t => mk_trial (trial_id t) (trial_study t) (state t) (value t)
                             (params t) (system_attrs t) (intermediate_values t ++ [v]))
                 tid s).

Definition set_trial_system_attr (tid : nat) (k v : string) (s : Storage) : Storage :=
  log (SetTrialSystemAttr tid k v)
      (upd_trial (fun t => mk_trial (trial_id t) (trial_study t) (state t) (value t)
                             (params t) (<[k:=v]> (system_attrs t))
                             (intermediate_values t)) tid s).

Definition remove_session (s : Storage) : Storage := log RemoveSession s.

Definition get_all_trials (sid : nat) (s : Storage) : list FrozenTrial :=
  filter (fun t => trial_study t = sid) (trials s).

Definition is_complete (t : FrozenTrial) : Prop := state t = COMPLETE.

#[global] Instance is_complete_dec t : Decision (is_complete t).
Proof. unfold is_complete. apply _. Defined.

(** [key(a) < key(b)] for [min(..., key=lambda t: t.value)]. *)
Definition value_lt (a b : FrozenTrial) : bool :=
  match value a, value b with
  | Some x, Some y => SFltb x y
  | _, _ => false
  end.

(** Modelled from the spec: "get best trial (by minimum recorded value)
    for a study id", and "raise a 'no completed trials' error if none
    exists".  The first of the minimal completed trials, as Python's
    [min] returns it. *)
Definition get_best_trial (sid : nat) (s : Storage) : res FrozenTrial :=
  match filter is_complete (get_all_trials sid s) with
  | [] => Raise (mk_exc ValueError "No trials are completed yet.")
  | t :: ts => Ret (fold_left (fun best t' => if value_lt t' best then t' else best) ts t)
  end.

End Storages.

Import Storages.

(* ===================================================================== *)
(** * [class Study]: construction, accessors, the trial runner and the
      sequential scheduler                                                *)
(* ===================================================================== *)

Module StudyM.

#[global] Instance res_bind : MBind res :=
  fun A B (f : A -> res B) (m : res A) =>
    match m with Ret a => f a | Raise e => Raise e end.

#[global] Instance res_ret : MRet res := fun A a => Ret a.

(** A [Study] object: its name and the identifier the storage resolved
    for it (sampler, pruner and logger play no part in scheduling). *)
Record Study : Type := mk_Study { study_name : string; study_id : nat }.

(** The runtime handle [trial_module.Trial(study, trial_id)]. *)
Record Trial : Type := mk_Trial { trial_of_study : nat; handle_id : nat }.

(** One invocation of the objective: it returns a value or raises.  The
    objective sees its handle and the storage as it stands; what it
    writes itself through the handle (suggested parameters, intermediate
    reports, attributes) is left out, so the writes between the
    allocation of a trial and the end of [_run_trial] are the runner's
    own. *)
Inductive outcome : Type :=
| Returns (v : Py.value)
| Raises (e : exc).

Definition ObjectiveFuncType : Type := Trial -> Storage -> outcome.

(** [Study.__init__], lines 51-83, on a storage already resolved. *)
Definition __init__ (study_name : string) (direction : string) (s : Storage)
  : Storage * res Study :=
  match get_study_id_from_name study_name s with
  | Raise e => (s, Raise e)
  | Ret study_id =>
      match
        (if bool_decide (direction = "minimize") then Ret MINIMIZE
         else if bool_decide (direction = "maximize") then Ret MAXIMIZE
         else Raise (mk_exc ValueError
                "Please set either 'minimize' or 'maximize' to direction."))
      with
      | Raise e => (s, Raise e)
      | Ret _direction =>
          if bool_decide (_direction = MAXIMIZE) then
            (s, Raise (mk_exc ValueError
                   ("Optimization direction of study " +:+ study_name +:+
                    " is set to `MAXIMIZE`. " +:+
                    "Currently, Optuna supports `MINIMIZE` only.")))
          else
            (set_study_task study_id _direction s, Ret (mk_Study study_name study_id))
      end
  end.

(** The properties [best_trial], [best_params], [best_value],
    [direction], [trials], [user_attrs], [system_attrs]. *)
Definition best_trial (self : Study) (s : Storage) : res FrozenTrial :=
  get_best_trial (study_id self) s.

Definition best_params (self : Study) (s : Storage) : res (gmap string Py.value) :=
  t ← best_trial self s; Ret (params t).

Definition best_value (self : Study) (s : Storage) : res float :=
  t ← best_trial self s;
  match value t with
  | None => Raise (mk_exc ValueError "No trials are completed yet.")
  | Some best_value => Ret best_value
  end.

Definition direction (self : Study) (s : Storage) : StudyTask :=
  get_study_task (study_id self) s.

Definition trials_of (self : Study) (s : Storage) : list FrozenTrial :=
  get_all_trials (study_id self) s.

Definition user_attrs (self : Study) (s : Storage) : gmap string Py.value :=
  get_study_user_attrs (study_id self) s.

Definition system_attrs_of (self : Study) (s : Storage) : gmap string Py.value :=
  get_study_system_attrs (study_id self) s.

Definition set_user_attr (self : Study) (k : string) (v : Py.value) (s : Storage) : Storage :=
  set_study_user_attr (study_id self) k v s.

Definition set_system_attr (self : Study) (k : string) (v : Py.value) (s : Storage) : Storage :=
  set_study_system_attr (study_id self) k v s.

(** Modelled from the spec: [optuna.trial] is not among the sources.
    [Trial.report(value)]: "report the final value on the handle (so it is
    stored as both the trial's terminal value and its last intermediate
    report)". *)
Definition report (trial : Trial) (v : float) (s : Storage) : Storage :=
  set_trial_intermediate_value (handle_id trial) v
    (set_trial_value (handle_id trial) v s).

(** [_log_completed_trial], lines 348-354: the log line itself is not
    kept, but formatting it evaluates [best_value] and [best_params],
    which can raise. *)
Definition _log_completed_trial (self : Study) (v : float) (s : Storage) : res unit :=
  _ ← best_value self s;
  _ ← best_params self s;
  Ret tt.

Section Runner.
Context `{Runtime}.

(** The three failure messages of [_run_trial]. *)
Definition message_pruned (e : exc) : string :=
  "Setting trial status as " +:+ TrialState_str PRUNED +:+ ". " +:+ exc_str e.

Definition message_error (e : exc) : string :=
  "Setting trial status as " +:+ TrialState_str FAIL +:+
  " because of the following error: " +:+ repr_exc e.

Definition message_cast (result : Py.value) : string :=
  "Setting trial status as " +:+ TrialState_str FAIL +:+
  " because the returned value from the " +:+
  "objective function cannot be casted to float. Returned value is: " +:+
  repr_value result.

Definition message_nan : string :=
  "Setting trial status as " +:+ TrialState_str FAIL +:+
  " because the objective function returned " +:+ "nan" +:+ ".".

(** Lines 319-321, 330-332 and 338-340: the same three statements. *)
Definition record_fail (trial : Trial) (message : string) (s : Storage)
  : Storage * res Trial :=
  let s := set_trial_state (handle_id trial) FAIL s in
  let s := set_trial_system_attr (handle_id trial) "fail_reason" message s in
  (s, Ret trial).

(** [_run_trial] from line 305 on, the trial identifier being allocated. *)
Definition run_allocated (self : Study) (func : ObjectiveFuncType)
    (catch : list exc_class) (trial_id : nat) (s : Storage) : Storage * res Trial :=
  let trial := mk_Trial (study_id self) trial_id in
  match func trial s with
  | Raises e =>
      if isinstance e TrialPruned then
        (set_trial_state trial_id PRUNED s, Ret trial)
      else if matches e catch then
        record_fail trial (message_error e) s
      else (s, Raise e)
  | Returns result =>
      match py_float result with
      | Raise e =>
          if matches e [ValueError; TypeError] then
            record_fail trial (message_cast result) s
          else (s, Raise e)
      | Ret result =>
          if isnan result then record_fail trial message_nan s
          else
            let s := report trial result s in
            let s := set_trial_state trial_id COMPLETE s in
            match _log_completed_trial self result s with
            | Raise e => (s, Raise e)
            | Ret _ => (s, Ret trial)
            end
      end
  end.

(** [_run_trial], lines 301-346. *)
Definition _run_trial (self : Study) (func : ObjectiveFuncType)
    (catch : list exc_class) (s : Storage) : Storage * res Trial :=
  let '(trial_id, s) := create_new_trial_id (study_id self) s in
  run_allocated self func catch trial_id s.

(** How a scheduling loop ends: it returns, an exception propagates out
    of it, or it is still running when the fuel is spent.  [reads] counts
    the readings of the clock taken so far. *)
Inductive loop_result : Type :=
| Finished (reads : nat) (s : Storage)
| Propagated (e : exc) (reads : nat) (s : Storage)
| StillRunning.

(** The [while True] of [_optimize_sequential], lines 226-237. *)
Fixpoint sequential_loop (fuel : nat) (self : Study) (func : ObjectiveFuncType)
    (n_trials : option Z) (timeout : option float) (catch : list exc_class)
    (time_start : Z) (i_trial : Z) (reads : nat) (s : Storage) : loop_result :=
  match fuel with
  | O => StillRunning
  | S fuel =>
      let limit_reached :=
        match n_trials with
        | Some n_trials => i_trial >=? n_trials
        | None => false
        end in
      if limit_reached then Finished reads s
      else
        let i_trial := match n_trials with Some _ => i_trial + 1 | None => i_trial end in
        let '(timed_out, reads) :=
          match timeout with
          | Some timeout =>
              let elapsed_seconds := total_seconds (clock reads - time_start) in
              (float_ge elapsed_seconds timeout, S reads)
          | None => (false, reads)
          end in
        if timed_out then Finished reads s
        else
          match _run_trial self func catch s with
          | (s, Raise e) => Propagated e reads s
          | (s, Ret _) =>
              sequential_loop fuel self func n_trials timeout catch
                              time_start i_trial reads s
          end
  end.

(** [_optimize_sequential], lines 221-237. *)
Definition _optimize_sequential (fuel : nat) (self : Study) (func : ObjectiveFuncType)
    (n_trials : option Z) (timeout : option float) (catch : list exc_class)
    (reads : nat) (s : Storage) : loop_result :=
  let i_trial := 0 in
  let time_start := clock reads in
  sequential_loop fuel self func n_trials timeout catch time_start i_trial (S reads) s.

End Runner.

End StudyM.

Import StudyM.

(* ===================================================================== *)
(** * [_optimize_parallel]: the coordinator, the workers and the queue    *)
(* ===================================================================== *)

Module Parallel.

(** One invocation of [func_child_thread], lines 265-268. *)
Inductive worker : Type :=
| Waiting                    (* at [que.get()], or not started yet *)
| Fetched                    (* got [True], about to call [_run_trial] *)
| InTrial (trial_id : nat)   (* in [_run_trial], identifier allocated *)
| Exited                     (* got [False] and removed its session *)
| Died (e : exc).            (* an exception left [_run_trial] *)

(** The thread that called [optimize], from line 276 on. *)
Inductive coordinator : Type :=
| Admitting                  (* the [while True] of lines 276-291 *)
| Stopping (k : nat)         (* lines 293-294, [k] puts of [False] left *)
| Joining                    (* line 296, consuming [imap_ite] *)
| Returned                   (* [_optimize_parallel] has returned *)
| Failed (e : exc).          (* an exception left [_optimize_parallel] *)

Record pstate : Type := mk_pstate {
  pool_size : nat;            (* [n_jobs] once resolved *)
  start_datetime : Z;
  que : list bool;
  n_enqueued_trials : Z;
  coord : coordinator;
  workers : list worker;
  reads : nat;
  store : Storage
}.

Definition set_que (q : list bool) (st : pstate) : pstate :=
  mk_pstate (pool_size st) (start_datetime st) q (n_enqueued_trials st)
            (coord st) (workers st) (reads st) (store st).

Definition set_n_enqueued_trials (n : Z) (st : pstate) : pstate :=
  mk_pstate (pool_size st) (start_datetime st) (que st) n
            (coord st) (workers st) (reads st) (store st).

Definition set_coord (c : coordinator) (st : pstate) : pstate :=
  mk_pstate (pool_size st) (start_datetime st) (que st) (n_enqueued_trials st)
            c (workers st) (reads st) (store st).

Definition set_worker (i : nat) (w : worker) (st : pstate) : pstate :=
  mk_pstate (pool_size st) (start_datetime st) (que st) (n_enqueued_trials st)
            (coord st) (<[i:=w]> (workers st)) (reads st) (store st).

Definition set_reads (r : nat) (st : pstate) : pstate :=
  mk_pstate (pool_size st) (start_datetime st) (que st) (n_enqueued_trials st)
            (coord st) (workers st) r (store st).

Definition set_store (s : Storage) (st : pstate) : pstate :=
  mk_pstate (pool_size st) (start_datetime st) (que st) (n_enqueued_trials st)
            (coord st) (workers st) (reads st) s.

(** [que.put_nowait(tok)] on a queue of [maxsize] slots: [None] is
    [queue.Full]; a blocking [put] waits in that case. *)
Definition put_nowait (maxsize : nat) (tok : bool) (q : list bool) : option (list bool) :=
  if decide (List.length q < maxsize)%nat then Some (q ++ [tok]) else None.

(** Draining [imap_ite]: the results come in the order of the tasks.  The
    pool runs a task under [except Exception]: such an exception is
    handed over and raised again when the task's turn comes; any other
    one ([KeyboardInterrupt], [SystemExit]) ends the worker thread
    without a result, and the drain waits for it for ever. *)
Fixpoint join (ws : list worker) : option (res unit) :=
  match ws with
  | [] => Some (Ret tt)
  | Exited :: ws' => join ws'
  | Died e :: _ => if isinstance e Exception then Some (Raise e) else None
  | _ => None
  end.

Inductive actor : Type := Coordinator | Worker (i : nat).

Section Scheduler.
Context `{Runtime}.
Variable self : Study.
Variable func : ObjectiveFuncType.
Variable n_trials : option Z.
Variable timeout : option float.
Variable catch : list exc_class.

(** Lines 251-256: the worker count. *)
Definition resolve_n_jobs (n_jobs : Z) : Z :=
  let n_jobs := if n_jobs =? -1 then cpu_count else n_jobs in
  match n_trials with
  | Some n_trials => Z.min n_jobs n_trials
  | None => n_jobs
  end.

(** Lines 249-274: everything before the coordinating loop.  With a limit
    of zero the method returns at line 259; [ThreadPool(n_jobs)] raises
    [ValueError] when [n_jobs < 1]; otherwise the queue holds one [True]
    for each worker when the workers start. *)
Definition start (n_jobs : Z) (reads : nat) (s : Storage) : pstate :=
  let start_datetime := clock reads in
  let reads := S reads in
  let n_jobs := resolve_n_jobs n_jobs in
  if bool_decide (n_trials = Some 0) then
    mk_pstate 0 start_datetime [] 0 Returned [] reads s
  else if n_jobs <? 1 then
    mk_pstate 0 start_datetime [] 0
      (Failed (mk_exc ValueError "Number of processes must be at least 1"))
      [] reads s
  else
    let n := Z.to_nat n_jobs in
    mk_pstate n start_datetime (repeat true n) n_jobs Admitting
              (repeat Waiting n) reads s.

(** One turn of the coordinator: an iteration of lines 276-291, one
    [que.put(False)], or the end of the drain. *)
Definition coordinator_step (st : pstate) : option pstate :=
  match coord st with
  | Admitting =>
      let '(timed_out, st) :=
        match timeout with
        | Some timeout =>
            let elapsed_seconds :=
              total_seconds (clock (reads st) - start_datetime st) in
            (float_gt elapsed_seconds timeout, set_reads (S (reads st)) st)
        | None => (false, st)
        end in
      if timed_out then Some (set_coord (Stopping (pool_size st)) st)
      else
        let limit_reached :=
          match n_trials with
          | Some n_trials => n_enqueued_trials st >=? n_trials
          | None => false
          end in
        if limit_reached then Some (set_coord (Stopping (pool_size st)) st)
        else
          match put_nowait (pool_size st) true (que st) with
          | Some q =>
              Some (set_n_enqueued_trials (n_enqueued_trials st + 1) (set_que q st))
          | None => Some st   (* [time.sleep(1)] *)
          end
  | Stopping (S k) =>
      q ← put_nowait (pool_size st) false (que st);
      Some (set_coord (Stopping k) (set_que q st))
  | Stopping O => Some (set_coord Joining st)
  | Joining =>
      r ← join (workers st);
      match r with
      | Ret _ => Some (set_coord Returned st)
      | Raise e => Some (set_coord (Failed e) st)
      end
  | Returned | Failed _ => None
  end.

(** [func_child_thread], lines 265-268, one turn of task [i] at a time:
    a [que.get()], the allocation of a trial identifier, or the rest of
    [_run_trial]. *)
Definition func_child_thread (i : nat) (st : pstate) : option pstate :=
  w ← workers st !! i;
  match w with
  | Waiting =>
      match que st with
      | [] => None
      | true :: q => Some (set_worker i Fetched (set_que q st))
      | false :: q =>
          Some (set_worker i Exited
                  (set_store (remove_session (store st)) (set_que q st)))
      end
  | Fetched =>
      let '(trial_id, s) := create_new_trial_id (study_id self) (store st) in
      Some (set_worker i (InTrial trial_id) (set_store s st))
  | InTrial trial_id =>
      match run_allocated self func catch trial_id (store st) with
      | (s, Ret _) => Some (set_worker i Waiting (set_store s st))
      | (s, Raise e) => Some (set_worker i (Died e) (set_store s st))
      end
  | Exited | Died _ => None
  end.

Definition step (a : actor) (st : pstate) : option pstate :=
  match a with
  | Coordinator => coordinator_step st
  | Worker i => func_child_thread i st
  end.

(** Some thread takes a turn. *)
Definition steps_to (st st' : pstate) : Prop := exists a, step a st = Some st'.

(** The states a schedule can lead to. *)
Definition reachable : pstate -> pstate -> Prop := rtc steps_to.

(** [_optimize_parallel], lines 239-299, returns and leaves the state
    [st]: some schedule leads there from the start. *)
Definition _optimize_parallel (n_jobs : Z) (reads : nat) (s : Storage) (st : pstate) : Prop :=
  reachable (start n_jobs reads s) st /\ coord st = Returned.

(** A schedule played from a state; a thread that cannot move is skipped. *)
Fixpoint play (sched : list actor) (st : pstate) : pstate :=
  match sched with
  | [] => st
  | a :: sched' =>
      match step a st with
      | Some st' => play sched' st'
      | None => play sched' st
      end
  end.

End Scheduler.

End Parallel.

Import Parallel.

(* ===================================================================== *)
(** * [trials_dataframe]: the tabular export                              *)
(* ===================================================================== *)

Module Tabular.

(** A key of a nested dictionary: a name ([params], [user_attrs],
    [system_attrs]) or a step number ([intermediate_values]). *)
Inductive key : Type :=
| KStr (s : string)
| KInt (z : Z).

#[global] Instance key_eq_dec : EqDecision key.
Proof. solve_decision. Defined.

#[global] Instance key_countable : Countable key.
Proof.
  refine (inj_countable' (fun k => match k with KStr s => inl s | KInt z => inr z end)
                         (fun x => match x with inl s => KStr s | inr z => KInt z end) _).
  by intros [].
Defined.

#[global] Instance KStr_inj : Inj (=) (=) KStr.
Proof. by intros ?? [=]. Qed.

(** The value of one field of a trial record: a dictionary or not. *)
Inductive field_value : Type :=
| Scalar (v : Py.value)
| Nested (d : gmap key Py.value).

(** A column of the table: [(field, in_field)]. *)
Definition column : Type := string * key.

Definition non_nested_field : key := KStr "".

(** The order of [sorted] on columns: tuples compare component by
    component, strings by their characters, integers by value.  Between a
    string and an integer Python 3 has no order ([sorted] raises
    [TypeError]); [key_le] puts the integer first only to be total, and
    [sorted] below never relies on it. *)
Definition str_lt (a b : string) : Prop := OrdersEx.String_as_OT.compare a b = Lt.

Definition key_le (a b : key) : Prop :=
  match a, b with
  | KInt x, KInt y => x <= y
  | KStr x, KStr y => x = y \/ str_lt x y
  | KInt _, KStr _ => True
  | KStr _, KInt _ => False
  end.

Definition col_le (a b : column) : Prop :=
  str_lt a.1 b.1 \/ (a.1 = b.1 /\ key_le a.2 b.2).

#[global] Instance str_lt_dec a b : Decision (str_lt a b).
Proof. unfold str_lt. apply _. Defined.

#[global] Instance key_le_dec a b : Decision (key_le a b).
Proof. destruct a, b; simpl; apply _. Defined.

#[global] Instance col_le_dec a b : Decision (col_le a b).
Proof. unfold col_le. apply _. Defined.

Definition is_KStr (k : key) : bool := match k with KStr _ => true | KInt _ => false end.
Definition is_KInt (k : key) : bool := match k with KInt _ => true | KStr _ => false end.

(** Keys that [sorted] can compare with one another. *)
Definition comparable (l : list column) : bool :=
  forallb (fun c => is_KStr c.2) l || forallb (fun c => is_KInt c.2) l.

(** A Python [set] of columns: its members, each once, in the order in
    which they were first added.  CPython iterates a set in an order of
    its own, which this history and the hashes decide. *)
Definition pyset : Type := list column.

Definition pyset_add (c : column) (s : pyset) : pyset :=
  if bool_decide (c ∈ s) then s else s ++ [c].

(** The table handed to [pd.DataFrame]: its columns, and for each record
    the cell under each column ([None] where the record has no such
    key). *)
Record DataFrame : Type := mk_DataFrame {
  df_columns : list column;
  df_rows : list (list (option Py.value))
}.

Definition make_DataFrame (records : list (gmap column Py.value)) (columns : list column)
  : DataFrame :=
  mk_DataFrame columns (map (fun record => map (fun c => record !! c) columns) records).

(** [pd.MultiIndex.from_tuples(columns)], of pandas: it cannot tell the
    number of levels of an empty list, and raises. *)
Definition from_tuples (columns : list column) : res (list column) :=
  match columns with
  | [] => Raise (mk_exc TypeError "Cannot infer number of levels from empty list")
  | _ :: _ => Ret columns
  end.

(** [column_agg[field]] and [column_agg[field].add(c)] for a
    [defaultdict(set)]. *)
Definition agg_get (field : string) (column_agg : gmap string pyset) : pyset :=
  default [] (column_agg !! field).

Definition agg_add (field : string) (c : column) (column_agg : gmap string pyset)
  : gmap string pyset :=
  <[field := pyset_add c (agg_get field column_agg)]> column_agg.

Section ExportLoops.
(** [structs.FrozenTrial] is a named tuple declared outside the sources:
    its [_fields] in declaration order, its [internal_fields], and the
    value of each field of a trial. *)
Variable _fields : list string.
Variable internal_fields : list string.
Variable getattr : FrozenTrial -> string -> field_value.
(** The text of the [TypeError] of [sorted] on a set with the history
    [s]: [sorted] names the types of the two operands of the first
    comparison that fails ('<' not supported between instances of 'str'
    and 'int', or of 'int' and 'str'), and which comparison that is
    follows from the order in which the set is iterated. *)
Variable type_error_text : pyset -> string.

(** [sorted(s)] for a set [s] of columns: its members in order when their
    keys are of one kind, a [TypeError] otherwise. *)
Definition sorted (s : pyset) : res (list column) :=
  if comparable s then Ret (merge_sort col_le s)
  else Raise (mk_exc TypeError (type_error_text s)).

Definition _asdict (trial : FrozenTrial) : list (string * field_value) :=
  map (fun f => (f, getattr trial f)) _fields.

Definition loop_state : Type := gmap column Py.value * gmap string pyset.

(** Lines 209-211, one item of [value.items()]. *)
Definition add_item (field : string) (acc : loop_state) (item : key * Py.value) : loop_state :=
  (<[(field, item.1) := item.2]> acc.1, agg_add field (field, item.1) acc.2).

(** Lines 205-214, one item of [trial_dict.items()]. *)
Definition add_field (acc : loop_state) (item : string * field_value) : loop_state :=
  let '(field, value) := item in
  if bool_decide (field ∈ internal_fields) then acc
  else
    match value with
    | Nested d => foldl (add_item field) acc (map_to_list d)
    | Scalar v => add_item field acc (non_nested_field, v)
    end.

(** Lines 201-215, one trial. *)
Definition add_trial (acc : list (gmap column Py.value) * gmap string pyset)
    (trial : FrozenTrial) : list (gmap column Py.value) * gmap string pyset :=
  let trial_dict := _asdict trial in
  let '(record, column_agg) := foldl add_field (∅, acc.2) trial_dict in
  (acc.1 ++ [record], column_agg).

(** Line 217: [sum((sorted(column_agg[k]) for k in _fields), [])]. *)
Fixpoint sum_sorted (column_agg : gmap string pyset) (ks : list string)
  : res (list column) :=
  match ks with
  | [] => Ret []
  | k :: ks' =>
      g ← sorted (agg_get k column_agg);
      rest ← sum_sorted column_agg ks';
      Ret (g ++ rest)
  end.

(** [trials_dataframe], lines 191-219, on the trials of the study. *)
Definition trials_dataframe (trials : list FrozenTrial) : res DataFrame :=
  let '(records, column_agg) := foldl add_trial ([], ∅) trials in
  columns ← sum_sorted column_agg _fields;
  index ← from_tuples columns;
  Ret (make_DataFrame records index).

(** What the specification asks of a cell: the value of a nested
    dictionary under [(field, key)], the value of a plain field under
    [(field, '')], and nothing for internal fields or names that are not
    fields of the record. *)
Definition field_cell (trial : FrozenTrial) (c : column) : option Py.value :=
  match getattr trial c.1 with
  | Nested d => d !! c.2
  | Scalar v => if bool_decide (c.2 = non_nested_field) then Some v else None
  end.

Definition expected_cell (trial : FrozenTrial) (c : column) : option Py.value :=
  if bool_decide (c.1 ∈ _fields /\ c.1 ∉ internal_fields) then field_cell trial c
  else None.

(** The keys found under one field are all names or all numbers, as the
    declared types of the record have them. *)
Definition keys_comparable (trials : list FrozenTrial) : Prop :=
  forall f,
    (forall t k, t ∈ trials -> is_Some (expected_cell t (f, k)) -> is_KStr k = true) \/
    (forall t k, t ∈ trials -> is_Some (expected_cell t (f, k)) -> is_KInt k = true).

End ExportLoops.

End Tabular.

Import Tabular.

(* ===================================================================== *)
(** * What is observed of a run                                           *)
(* ===================================================================== *)

Module Observe.

(** The identifier the next [create_new_trial_id] hands out. *)
Definition next_trial_id (s : Storage) : nat := List.length (trials s).

Definition state_of (tid : nat) (s : Storage) : option TrialState :=
  state <$> trials s !! tid.

Definition value_of (tid : nat) (s : Storage) : option float :=
  t ← trials s !! tid; value t.

Definition fail_reason_of (tid : nat) (s : Storage) : option string :=
  t ← trials s !! tid; system_attrs t !! "fail_reason".

(** The writes a storage received between two of its states. *)
Definition new_calls (s s' : Storage) : list Call :=
  drop (List.length (calls s)) (calls s').

(** The trial identifiers handed out by the calls of a history. *)
Definition allocated (cs : list Call) : list nat :=
  omap (fun c => match c with CreateNewTrialId _ tid => Some tid | _ => None end) cs.

Definition terminal (st : TrialState) : bool :=
  match st with RUNNING => false | _ => true end.

Definition study_of (tid : nat) (s : Storage) : option nat :=
  trial_study <$> trials s !! tid.

(** The trial has left its running state. *)
Definition finished (tid : nat) (s : Storage) : Prop :=
  exists st, state_of tid s = Some st /\ terminal st = true.

(** [elapsed_seconds] at the [j]-th reading of the clock after the one
    that gave the start time. *)
Definition elapsed_at `{Runtime} (reads : nat) (j : nat) : float :=
  total_seconds (clock (reads + j) - clock reads).

(** An invocation the trial runner classifies: the pruning signal, an
    exception of the catch filter, or a value whose conversion to a float
    returns or raises [ValueError] or [TypeError]. *)
Definition classified `{Runtime} (catch : list exc_class) (o : outcome) : bool :=
  match o with
  | Raises e => isinstance e TrialPruned || matches e catch
  | Returns v =>
      match py_float v with
      | Ret _ => true
      | Raise e => matches e [ValueError; TypeError]
      end
  end.

(** Every completed trial of the storage has a value. *)
Definition storage_wf (s : Storage) : Prop :=
  Forall (fun t => state t = COMPLETE -> is_Some (value t)) (trials s).

(** What the rest of [_run_trial] leaves alone once the identifier is
    allocated: no identifier is handed out, finished trials stay
    finished, trials stay in their study, completed trials keep a
    value. *)
Definition runner_frame (s s' : Storage) : Prop :=
  next_trial_id s' = next_trial_id s /\
  (exists cs, calls s' = calls s ++ cs /\ allocated cs = []) /\
  (forall tid, finished tid s -> finished tid s') /\
  (forall tid, study_of tid s' = study_of tid s) /\
  (storage_wf s -> storage_wf s').

(** A runtime to run the model on: no string parses as a float, four
    processing units, a clock that advances one second per reading. *)
Definition demo_runtime : Runtime :=
  {| float_of_str := fun _ => None;
     repr_value := fun _ => "<value>";
     repr_exc := fun e => exc_str e;
     cpu_count := 4;
     clock := fun n => Z.of_nat n * 1000000 |}.

Definition demo_study : Study := mk_Study "demo" 0.

Definition demo_storage : Storage :=
  mk_storage [mk_study_record "demo" NOT_SET ∅ ∅] [] [].

(** A record with three fields, one of them internal, to run the export
    on: the identifier, the parameters and their internal form. *)
Definition demo_fields : list string := ["trial_id"; "params"; "params_in_internal_repr"].

Definition demo_internal_fields : list string := ["params_in_internal_repr"].

Definition demo_getattr (t : FrozenTrial) (f : string) : field_value :=
  if bool_decide (f = "params") then Nested (kmap KStr (params t))
  else if bool_decide (f = "params_in_internal_repr") then Nested (kmap KStr (params t))
  else Scalar (VInt (Z.of_nat (trial_id t))).

Definition demo_type_error_text (s : pyset) : string :=
  "'<' not supported between instances of 'str' and 'int'".

Definition demo_trial : FrozenTrial :=
  mk_trial 0 0 COMPLETE (Some (float_of_Z 1)) {["x" := VInt 1]} ∅ [float_of_Z 1].

End Observe.

Import Observe.

(* ===================================================================== *)
(** * The invariant of the parallel scheduler                             *)
(* ===================================================================== *)

Module Invariant.

Definition is_waiting (w : worker) : bool := match w with Waiting => true | _ => false end.
Definition is_fetched (w : worker) : bool := match w with Fetched => true | _ => false end.
Definition is_intrial (w : worker) : bool := match w with InTrial _ => true | _ => false end.
Definition is_exited (w : worker) : bool := match w with Exited => true | _ => false end.
Definition is_died (w : worker) : bool := match w with Died _ => true | _ => false end.

Fixpoint count (p : worker -> bool) (ws : list worker) : nat :=
  match ws with
  | [] => 0
  | w :: ws' => ((if p w then 1 else 0) + count p ws')%nat
  end.

(** What holds of every state of a run with a limit of [N] trials and no
    timeout, started on the storage [s0]: the queue holds [a] tokens
    [True] followed by [b] tokens [False], and [cs] are the writes the
    storage received since the start. *)
Record pinv (N : Z) (s0 : Storage) (st : pstate) (a b : nat) (cs : list Call) : Prop := {
  inv_pool : List.length (workers st) = pool_size st;
  inv_pool_pos : (1 <= pool_size st)%nat;
  inv_que : que st = repeat true a ++ repeat false b;
  inv_phase :
    match coord st with
    | Admitting => b = 0%nat /\ count is_exited (workers st) = 0%nat
    | Stopping k =>
        (b + count is_exited (workers st) + k = pool_size st)%nat /\
        n_enqueued_trials st = N
    | Joining | Failed _ =>
        (b + count is_exited (workers st) = pool_size st)%nat /\
        n_enqueued_trials st = N
    | Returned =>
        b = 0%nat /\ count is_exited (workers st) = pool_size st /\
        n_enqueued_trials st = N
    end;
  inv_fifo : (0 < count is_exited (workers st))%nat -> a = 0%nat;
  inv_enq :
    n_enqueued_trials st =
    Z.of_nat (a + count is_fetched (workers st) + List.length (allocated cs));
  inv_seed : Z.of_nat (pool_size st) <= n_enqueued_trials st;
  inv_limit : n_enqueued_trials st <= N;
  inv_calls : calls (store st) = calls s0 ++ cs;
  inv_ids : allocated cs = seq (next_trial_id s0) (List.length (allocated cs));
  inv_next : next_trial_id (store st) = (next_trial_id s0 + List.length (allocated cs))%nat;
  inv_trials : forall tid,
    (next_trial_id s0 <= tid < next_trial_id (store st))%nat ->
    finished tid (store st) \/ InTrial tid ∈ workers st \/
    (0 < count is_died (workers st))%nat;
  inv_intrial : forall tid,
    InTrial tid ∈ workers st -> (tid < next_trial_id (store st))%nat
}.

(** What holds in addition when the storage started well formed and
    every invocation of the objective is classified: no worker dies. *)
Record plive (sid : nat) (st : pstate) : Prop := {
  live_wf : storage_wf (store st);
  live_study : forall tid, InTrial tid ∈ workers st -> study_of tid (store st) = Some sid;
  live_died : count is_died (workers st) = 0%nat;
  live_coord : forall e, coord st <> Failed e
}.

(** The tokens [t] waiting in the queue. *)
Fixpoint tokens (t : bool) (q : list bool) : nat :=
  match q with
  | [] => 0
  | x :: q' => ((if Bool.eqb x t then 1 else 0) + tokens t q')%nat
  end.

(** The turns still to be taken before [_optimize_parallel] returns. *)
Definition work_left (N : Z) (st : pstate) : nat :=
  (4 * Z.to_nat (N - n_enqueued_trials st) + 3 * tokens true (que st) +
   2 * count is_fetched (workers st) + count is_intrial (workers st) +
   tokens false (que st) +
   match coord st with
   | Admitting => 2 * pool_size st + 3
   | Stopping k => 2 * k + 2
   | Joining => 1
   | Returned | Failed _ => 0
   end)%nat.

End Invariant.

Import Invariant.

(* ===================================================================== *)
(** * [optimize], pickling, and what else is observed                     *)
(* ===================================================================== *)

Module Facade.

(** How a call of [optimize] ends, and the storage it leaves. *)
Inductive optimize_result : Type :=
| OptReturns (s : Storage)
| OptRaises (e : exc) (s : Storage).

Definition sequential_ends (r : loop_result) (o : optimize_result) : Prop :=
  match r with
  | Finished _ s => o = OptReturns s
  | Propagated e _ s => o = OptRaises e s
  | StillRunning => False
  end.

Definition parallel_ends (st : pstate) (o : optimize_result) : Prop :=
  match coord st with
  | Returned => o = OptReturns (store st)
  | Failed e => o = OptRaises e (store st)
  | _ => False
  end.

Section Optimize.
Context `{Runtime}.

(** [optimize], lines 142-179: the sequential scheduler when
    [n_jobs == 1], the parallel one otherwise.  [optimize ... o] says
    that the call can end as [o]. *)
Definition optimize (self : Study) (func : ObjectiveFuncType) (n_trials : option Z)
    (timeout : option float) (n_jobs : Z) (catch : list exc_class)
    (reads : nat) (s : Storage) (o : optimize_result) : Prop :=
  if n_jobs =? 1 then
    exists fuel,
      sequential_ends (_optimize_sequential fuel self func n_trials timeout catch reads s) o
  else
    exists st,
      reachable self func n_trials timeout catch (start n_trials n_jobs reads s) st /\
      parallel_ends st o.

End Optimize.

Section Pickle.
(** The values of the attributes of a [Study] object, and
    [logging.get_logger], which is outside the sources. *)
Variable attr : Type.
Variable get_logger : string -> attr.

Definition __name__ : string := "optuna.study".

(** [__getstate__], lines 85-89, on the [__dict__] of the object;
    [del state['logger']] raises [KeyError] when there is no such key. *)
Definition __getstate__ (dict : gmap string attr) : res (gmap string attr) :=
  let state := dict in
  match state !! "logger" with
  | Some _ => Ret (delete "logger" state)
  | None => Raise (mk_exc KeyError "'logger'")
  end.

(** [__setstate__], lines 91-94: the new [__dict__] of an object whose
    [__dict__] was [dict]. *)
Definition __setstate__ (dict state : gmap string attr) : gmap string attr :=
  <["logger" := get_logger __name__]> (state ∪ dict).

End Pickle.

(** The sessions removed by the calls of a history. *)
Fixpoint sessions_removed (cs : list Call) : nat :=
  match cs with
  | [] => 0
  | RemoveSession :: cs' => S (sessions_removed cs')
  | _ :: cs' => sessions_removed cs'
  end.

(** An invocation the trial runner does not classify: the objective
    raises an exception that is neither the pruning signal nor in the
    catch filter. *)
Definition fatal (catch : list exc_class) (o : outcome) : Prop :=
  exists e, o = Raises e /\ isinstance e TrialPruned = false /\ matches e catch = false.

(** The trial a write is made to; [None] for a write to a study record
    and for [remove_session]. *)
Definition call_trial (c : Call) : option nat :=
  match c with
  | CreateNewTrialId _ trial_id | SetTrialState trial_id _ | SetTrialValue trial_id _
  | SetTrialIntermediateValue trial_id _ | SetTrialSystemAttr trial_id _ _ => Some trial_id
  | SetStudyTask _ _ | SetStudyUserAttr _ _ _ | SetStudySystemAttr _ _ _
  | RemoveSession => None
  end.

Definition is_allocation (c : Call) : bool :=
  match c with CreateNewTrialId _ _ => true | _ => false end.

(** What the writes of the runner leave of the storage a scheduler
    started on: the records of the earlier trials and of the studies are
    as they were, the [n] new identifiers are the next free ones in
    order, and completed trials keep a value. *)
Definition keeps_records (s s' : Storage) (n : nat) : Prop :=
  (forall tid, (tid < next_trial_id s)%nat -> trials s' !! tid = trials s !! tid) /\
  studies s' = studies s /\
  next_trial_id s' = (next_trial_id s + n)%nat /\
  (exists cs, calls s' = calls s ++ cs /\ allocated cs = seq (next_trial_id s) n) /\
  (storage_wf s -> storage_wf s').

(** What holds of every state of a parallel run of [P] workers, whatever
    the limit and the timeout, started on the storage [s0]: the queue
    holds [a] tokens [True] followed by [b] tokens [False], and [cs] are
    the writes the storage received since the start. *)
Record tinv (n_trials : option Z) (P : nat) (s0 : Storage) (st : pstate) (a b : nat)
    (cs : list Call) : Prop := {
  tinv_pool : pool_size st = P;
  tinv_workers : List.length (workers st) = P;
  tinv_que : que st = repeat true a ++ repeat false b;
  tinv_phase :
    match coord st with
    | Admitting => b = 0%nat /\ count is_exited (workers st) = 0%nat
    | Stopping k => (b + count is_exited (workers st) + k = P)%nat
    | Joining | Failed _ => (b + count is_exited (workers st) = P)%nat
    | Returned => b = 0%nat /\ count is_exited (workers st) = P
    end;
  tinv_fifo : (0 < count is_exited (workers st))%nat -> a = 0%nat;
  tinv_enq :
    n_enqueued_trials st =
    Z.of_nat (a + count is_fetched (workers st) + List.length (allocated cs));
  tinv_seed : Z.of_nat P <= n_enqueued_trials st;
  tinv_limit : forall N, n_trials = Some N -> n_enqueued_trials st <= N;
  tinv_calls : calls (store st) = calls s0 ++ cs;
  tinv_ids : allocated cs = seq (next_trial_id s0) (List.length (allocated cs));
  tinv_next : next_trial_id (store st) = (next_trial_id s0 + List.length (allocated cs))%nat;
  tinv_trials : forall tid,
    (next_trial_id s0 <= tid < next_trial_id (store st))%nat ->
    finished tid (store st) \/ InTrial tid ∈ workers st \/
    (0 < count is_died (workers st))%nat;
  tinv_intrial : forall tid,
    InTrial tid ∈ workers st -> (tid < next_trial_id (store st))%nat
}.

End Facade.

Import Facade.

(* ===================================================================== *)
(** * The storage: what each write changes                                *)
(* ===================================================================== *)

Section StorageFacts.

Lemma create_fst sid s : (create_new_trial_id sid s).1 = next_trial_id s.
Proof. reflexivity. Qed.

Lemma create_trials sid s :
  trials (create_new_trial_id sid s).2 =
  trials s ++ [mk_trial (next_trial_id s) sid RUNNING None ∅ ∅ []].
Proof. reflexivity. Qed.

Lemma create_calls sid s :
  calls (create_new_trial_id sid s).2 = calls s ++ [CreateNewTrialId sid (next_trial_id s)].
Proof. reflexivity. Qed.

Lemma state_of_create sid s :
  state_of (next_trial_id s) (create_new_trial_id sid s).2 = Some RUNNING.
Proof.
  unfold state_of. rewrite create_trials.
  by rewrite list_lookup_middle.
Qed.

Lemma state_of_set_state tid st s :
  (tid < next_trial_id s)%nat -> state_of tid (set_trial_state tid st s) = Some st.
Proof.
  intros Hlt. unfold state_of, set_trial_state, upd_trial. simpl.
  rewrite list_lookup_alter_eq.
  destruct (lookup_lt_is_Some_2 (trials s) tid Hlt) as [t ->]. reflexivity.
Qed.

Lemma state_of_set_state_ne tid tid' st s :
  tid <> tid' -> state_of tid' (set_trial_state tid st s) = state_of tid' s.
Proof.
  intros Hne. unfold state_of, set_trial_state, upd_trial. simpl.
  by rewrite list_lookup_alter_ne.
Qed.

Lemma state_of_set_value tid tid' v s :
  state_of tid' (set_trial_value tid v s) = state_of tid' s.
Proof.
  unfold state_of, set_trial_value, upd_trial. simpl.
  destruct (decide (tid = tid')) as [->|Hne].
  - rewrite list_lookup_alter_eq. by destruct (trials s !! tid').
  - by rewrite list_lookup_alter_ne.
Qed.

Lemma state_of_set_attr tid tid' k v s :
  state_of tid' (set_trial_system_attr tid k v s) = state_of tid' s.
Proof.
  unfold state_of, set_trial_system_attr, upd_trial. simpl.
  destruct (decide (tid = tid')) as [->|Hne].
  - rewrite list_lookup_alter_eq. by destruct (trials s !! tid').
  - by rewrite list_lookup_alter_ne.
Qed.

Lemma next_set_state tid st s : next_trial_id (set_trial_state tid st s) = next_trial_id s.
Proof. unfold next_trial_id. simpl. by rewrite length_alter. Qed.

Lemma next_set_value tid v s : next_trial_id (set_trial_value tid v s) = next_trial_id s.
Proof. unfold next_trial_id. simpl. by rewrite length_alter. Qed.

Lemma next_set_attr tid k v s : next_trial_id (set_trial_system_attr tid k v s) = next_trial_id s.
Proof. unfold next_trial_id. simpl. by rewrite length_alter. Qed.

Lemma next_create sid s : next_trial_id (create_new_trial_id sid s).2 = S (next_trial_id s).
Proof. unfold next_trial_id. rewrite create_trials, length_app. simpl. lia. Qed.

Lemma value_of_set_value tid v s :
  (tid < next_trial_id s)%nat -> value_of tid (set_trial_value tid v s) = Some v.
Proof.
  intros Hlt. unfold value_of, set_trial_value, upd_trial. simpl.
  rewrite list_lookup_alter_eq.
  destruct (lookup_lt_is_Some_2 (trials s) tid Hlt) as [t ->]. reflexivity.
Qed.

Lemma value_of_set_state tid tid' st s :
  value_of tid' (set_trial_state tid st s) = value_of tid' s.
Proof.
  unfold value_of, set_trial_state, upd_trial. simpl.
  destruct (decide (tid = tid')) as [->|Hne].
  - rewrite list_lookup_alter_eq. by destruct (trials s !! tid').
  - by rewrite list_lookup_alter_ne.
Qed.

Lemma next_report trial v s : next_trial_id (report trial v s) = next_trial_id s.
Proof. unfold next_trial_id, report. simpl. by rewrite !length_alter. Qed.

Lemma state_of_report trial tid' v s : state_of tid' (report trial v s) = state_of tid' s.
Proof.
  unfold state_of, report, set_trial_intermediate_value, set_trial_value, upd_trial. simpl.
  destruct (decide (handle_id trial = tid')) as [<-|Hne].
  - rewrite !list_lookup_alter_eq. by destruct (trials s !! handle_id trial).
  - by rewrite !list_lookup_alter_ne.
Qed.

Lemma value_of_report trial v s :
  (handle_id trial < next_trial_id s)%nat ->
  value_of (handle_id trial) (report trial v s) = Some v.
Proof.
  intros Hlt.
  unfold value_of, report, set_trial_intermediate_value, set_trial_value, upd_trial. simpl.
  rewrite !list_lookup_alter_eq.
  destruct (lookup_lt_is_Some_2 (trials s) (handle_id trial) Hlt) as [t ->]. reflexivity.
Qed.

Lemma fail_reason_set_attr tid v s :
  (tid < next_trial_id s)%nat ->
  fail_reason_of tid (set_trial_system_attr tid "fail_reason" v s) = Some v.
Proof.
  intros Hlt. unfold fail_reason_of, set_trial_system_attr, upd_trial. simpl.
  rewrite list_lookup_alter_eq.
  destruct (lookup_lt_is_Some_2 (trials s) tid Hlt) as [t ->]. simpl.
  by rewrite lookup_insert_eq.
Qed.

Lemma fail_reason_set_state tid tid' st s :
  fail_reason_of tid' (set_trial_state tid st s) = fail_reason_of tid' s.
Proof.
  unfold fail_reason_of, set_trial_state, upd_trial. simpl.
  destruct (decide (tid = tid')) as [->|Hne].
  - rewrite list_lookup_alter_eq. by destruct (trials s !! tid').
  - by rewrite list_lookup_alter_ne.
Qed.

Lemma fail_reason_create sid s :
  fail_reason_of (next_trial_id s) (create_new_trial_id sid s).2 = None.
Proof.
  unfold fail_reason_of. rewrite create_trials.
  by rewrite list_lookup_middle.
Qed.

Lemma new_calls_app s s' cs : calls s' = calls s ++ cs -> new_calls s s' = cs.
Proof. intros Hc. unfold new_calls. rewrite Hc. by rewrite drop_app_length. Qed.

End StorageFacts.

(* ===================================================================== *)
(** * The trial runner                                                    *)
(* ===================================================================== *)

Section RunnerFacts.
Context `{Runtime}.
Variable self : Study.
Variable func : ObjectiveFuncType.
Variable catch : list exc_class.

Lemma record_fail_spec trial message s :
  (handle_id trial < next_trial_id s)%nat ->
  let s' := (record_fail trial message s).1 in
  (record_fail trial message s).2 = Ret trial /\
  state_of (handle_id trial) s' = Some FAIL /\
  fail_reason_of (handle_id trial) s' = Some message /\
  calls s' = calls s ++ [SetTrialState (handle_id trial) FAIL;
                         SetTrialSystemAttr (handle_id trial) "fail_reason" message].
Proof.
  intros Hlt. simpl. repeat split.
  - rewrite state_of_set_attr. by apply state_of_set_state.
  - apply fail_reason_set_attr. by rewrite next_set_state.
  - by rewrite <- app_assoc.
Qed.

(** The runner unfolds into the allocation followed by the rest. *)
Lemma run_trial_unfold s :
  _run_trial self func catch s =
  run_allocated self func catch (next_trial_id s) (create_new_trial_id (study_id self) s).2.
Proof. reflexivity. Qed.

End RunnerFacts.

(** C10: the pruning signal takes precedence over the catch filter.  When
    the objective raises an exception that is an instance of
    [TrialPruned], the trial runner returns the handle and records the
    trial as [PRUNED], with no failure reason and no [FAIL] write,
    whatever the catch filter is (also when it matches the exception). *)
Theorem pruned_takes_precedence `{Runtime} (self : Study) (func : ObjectiveFuncType)
    (catch : list exc_class) (s : Storage) (e : exc) :
  let tid := next_trial_id s in
  let trial := mk_Trial (study_id self) tid in
  func trial (create_new_trial_id (study_id self) s).2 = Raises e ->
  isinstance e TrialPruned = true ->
  let s' := (_run_trial self func catch s).1 in
  (_run_trial self func catch s).2 = Ret trial /\
  state_of tid s' = Some PRUNED /\
  fail_reason_of tid s' = None /\
  new_calls s s' = [CreateNewTrialId (study_id self) tid; SetTrialState tid PRUNED].
Proof.
  intros tid trial Hf Hp. rewrite run_trial_unfold. unfold run_allocated.
  fold tid. fold trial. rewrite Hf, Hp. cbn [fst snd]. repeat split.
  - apply state_of_set_state. rewrite next_create. unfold tid. lia.
  - rewrite fail_reason_set_state. apply fail_reason_create.
  - apply new_calls_app. simpl. by rewrite <- app_assoc.
Qed.

Lemma pruned_takes_precedence_witness :
  let e := mk_exc (UserError "Stop" TrialPruned) "pruned at step 3" in
  let r := @_run_trial demo_runtime demo_study (fun _ _ => Raises e) [Exception] demo_storage in
  matches e [Exception] = true /\
  r.2 = Ret (mk_Trial 0 0) /\ state_of 0 r.1 = Some PRUNED /\ fail_reason_of 0 r.1 = None /\
  new_calls demo_storage r.1 = [CreateNewTrialId 0 0; SetTrialState 0 PRUNED].
Proof.
  split; [reflexivity|].
  apply (@pruned_takes_precedence demo_runtime demo_study
           (fun _ _ => Raises (mk_exc (UserError "Stop" TrialPruned) "pruned at step 3"))
           [Exception] demo_storage
           (mk_exc (UserError "Stop" TrialPruned) "pruned at step 3")); reflexivity.
Defined.

(** C1 as amended: when the objective returns a value [v], the trial is
    recorded [COMPLETE] exactly when [float(v)] returns a float that is
    not NaN (an infinity included), and the stored value is then that
    float; it is recorded [FAIL] when [float(v)] raises [ValueError] or
    [TypeError], or returns NaN. *)
Theorem complete_iff_not_nan `{Runtime} (self : Study) (func : ObjectiveFuncType)
    (catch : list exc_class) (s : Storage) (v : Py.value) :
  let tid := next_trial_id s in
  func (mk_Trial (study_id self) tid) (create_new_trial_id (study_id self) s).2 = Returns v ->
  let s' := (_run_trial self func catch s).1 in
  (state_of tid s' = Some COMPLETE <-> exists V, py_float v = Ret V /\ isnan V = false) /\
  (forall V, py_float v = Ret V -> isnan V = false -> value_of tid s' = Some V) /\
  ((exists V, py_float v = Ret V /\ isnan V = true) \/
   (exists e, py_float v = Raise e /\ matches e [ValueError; TypeError] = true) ->
   state_of tid s' = Some FAIL).
Proof.
  intros tid Hf. rewrite run_trial_unfold. unfold run_allocated.
  fold tid. rewrite Hf.
  set (s1 := (create_new_trial_id (study_id self) s).2).
  assert (Hlt : (tid < next_trial_id s1)%nat).
  { unfold s1. rewrite next_create. unfold tid. lia. }
  assert (Hrun : state_of tid s1 = Some RUNNING) by apply state_of_create.
  destruct (py_float v) as [V|e] eqn:Hfl.
  - destruct (isnan V) eqn:Hnan.
    + destruct (record_fail_spec (mk_Trial (study_id self) tid) message_nan s1 Hlt)
        as (_ & Hst & _). cbn [handle_id] in Hst.
      cbv zeta. rewrite Hst. repeat split.
      * discriminate.
      * intros (V' & [= <-] & HV'). congruence.
      * intros V' [= <-]. congruence.
    + assert (Hst : state_of tid
                (set_trial_state tid COMPLETE
                   (report (mk_Trial (study_id self) tid) V s1)) = Some COMPLETE).
      { apply state_of_set_state. by rewrite next_report. }
      assert (Hval : value_of tid
                (set_trial_state tid COMPLETE
                   (report (mk_Trial (study_id self) tid) V s1)) = Some V).
      { rewrite value_of_set_state.
        by apply (value_of_report (mk_Trial (study_id self) tid)). }
      cbv zeta.
      destruct (_log_completed_trial _ _ _); cbn [fst]; rewrite Hst; repeat split; eauto.
      * intros V' [= <-] _. exact Hval.
      * intros [(V' & [= <-] & HV')|(e' & [=] & _)]. congruence.
      * intros V' [= <-] _. exact Hval.
      * intros [(V' & [= <-] & HV')|(e' & [=] & _)]. congruence.
  - destruct (matches e [ValueError; TypeError]) eqn:Hm.
    + destruct (record_fail_spec (mk_Trial (study_id self) tid) (message_cast v) s1 Hlt)
        as (_ & Hst & _). cbn [handle_id] in Hst.
      cbv zeta. rewrite Hst. repeat split.
      * discriminate.
      * intros (V' & [=] & _).
      * intros V' [=].
    + cbn [fst]. rewrite Hrun. repeat split.
      * discriminate.
      * intros (V' & [=] & _).
      * intros V' [=].
      * intros [(V' & [=] & _)|(e' & [= <-] & He')]. congruence.
Qed.

Lemma complete_iff_not_nan_witness :
  let r := @_run_trial demo_runtime demo_study (fun _ _ => Returns (VInt 3)) [Exception]
             demo_storage in
  state_of 0 r.1 = Some COMPLETE /\ value_of 0 r.1 = Some (float_of_Z 3).
Proof.
  pose proof (@complete_iff_not_nan demo_runtime demo_study (fun _ _ => Returns (VInt 3))
                [Exception] demo_storage (VInt 3) eq_refl) as (Hc & Hv & _).
  split.
  - apply Hc. exists (float_of_Z 3). split; reflexivity.
  - apply Hv; reflexivity.
Defined.

(** C1 as stated fails: an objective that returns the float infinity is
    recorded [COMPLETE], although its value is not finite. *)
Lemma infinite_value_is_complete :
  let r := @_run_trial demo_runtime demo_study (fun _ _ => Returns (VFloat inf)) [Exception]
             demo_storage in
  state_of 0 r.1 = Some COMPLETE /\
  ~ (exists V, @py_float demo_runtime (VFloat inf) = Ret V /\ isfinite V = true /\ isnan V = false).
Proof.
  split; [reflexivity|].
  intros (V & [= <-] & Hfin & _). discriminate.
Qed.

(** C2 as amended: for every trial recorded [FAIL], the writes of the
    trial runner are the allocation, then [set_trial_state(FAIL)], then
    [set_trial_system_attr('fail_reason', reason)]: the reason is
    recorded right after the state transition, and is the trial's
    [fail_reason] afterwards. *)
Theorem fail_reason_follows_state `{Runtime} (self : Study) (func : ObjectiveFuncType)
    (catch : list exc_class) (s : Storage) :
  let tid := next_trial_id s in
  let s' := (_run_trial self func catch s).1 in
  state_of tid s' = Some FAIL ->
  exists reason,
    new_calls s s' = [CreateNewTrialId (study_id self) tid;
                      SetTrialState tid FAIL;
                      SetTrialSystemAttr tid "fail_reason" reason] /\
    fail_reason_of tid s' = Some reason.
Proof.
  intros tid. rewrite run_trial_unfold. unfold run_allocated. fold tid.
  set (s1 := (create_new_trial_id (study_id self) s).2).
  set (trial := mk_Trial (study_id self) tid).
  assert (Hlt : (handle_id trial < next_trial_id s1)%nat).
  { unfold s1. rewrite next_create. unfold tid. simpl. lia. }
  assert (Hrun : state_of tid s1 = Some RUNNING) by apply state_of_create.
  assert (Hfail : forall message,
    exists reason,
      new_calls s (record_fail trial message s1).1 =
        [CreateNewTrialId (study_id self) tid; SetTrialState tid FAIL;
         SetTrialSystemAttr tid "fail_reason" reason] /\
      fail_reason_of tid (record_fail trial message s1).1 = Some reason).
  { intros message.
    destruct (record_fail_spec trial message s1 Hlt) as (_ & _ & Hr & Hc).
    exists message. split; [|exact Hr].
    apply new_calls_app. rewrite Hc. unfold s1. rewrite create_calls.
    by rewrite <- app_assoc. }
  cbv zeta.
  destruct (func trial s1) as [v|e].
  - destruct (py_float v) as [V|e].
    + destruct (isnan V); [intros _; apply Hfail|].
      assert (Hst : state_of tid (set_trial_state tid COMPLETE (report trial V s1))
                    = Some COMPLETE).
      { apply state_of_set_state. by rewrite next_report. }
      destruct (_log_completed_trial _ _ _); cbn [fst]; rewrite Hst; discriminate.
    + destruct (matches e _); [intros _; apply Hfail|].
      cbn [fst]. rewrite Hrun. discriminate.
  - destruct (isinstance e TrialPruned).
    + cbn [fst]. rewrite state_of_set_state; [discriminate|exact Hlt].
    + destruct (matches e catch); [intros _; apply Hfail|].
      cbn [fst]. rewrite Hrun. discriminate.
Qed.

Lemma fail_reason_follows_state_witness :
  let r := @_run_trial demo_runtime demo_study
             (fun _ _ => Raises (mk_exc KeyError "'x'")) [Exception] demo_storage in
  exists reason,
    new_calls demo_storage r.1 =
      [CreateNewTrialId 0 0; SetTrialState 0 FAIL; SetTrialSystemAttr 0 "fail_reason" reason] /\
    fail_reason_of 0 r.1 = Some reason.
Proof.
  apply (@fail_reason_follows_state demo_runtime demo_study
           (fun _ _ => Raises (mk_exc KeyError "'x'")) [Exception] demo_storage).
  reflexivity.
Defined.

(** C2 as stated fails: in the writes of a failed trial,
    [set_trial_system_attr('fail_reason', ...)] comes after
    [set_trial_state(FAIL)]. *)
Lemma fail_reason_after_state :
  let r := @_run_trial demo_runtime demo_study
             (fun _ _ => Raises (mk_exc KeyError "'x'")) [Exception] demo_storage in
  exists (i j : nat) reason,
    (i < j)%nat /\
    calls r.1 !! i = Some (SetTrialState 0 FAIL) /\
    calls r.1 !! j = Some (SetTrialSystemAttr 0 "fail_reason" reason).
Proof.
  exists 1%nat, 2%nat. eexists. split; [lia|]. split; reflexivity.
Qed.

(** C8, the failing input: the objective returns the integer [2**1024];
    [float()] raises [OverflowError], which the [except (ValueError,
    TypeError)] clause lets through: the runner raises although the
    objective returned, and the trial stays in its running state. *)
Theorem overflow_leaves_the_runner :
  let r := @_run_trial demo_runtime demo_study (fun _ _ => Returns (VInt (2 ^ 1024)))
             [Exception] demo_storage in
  r.2 = Raise (mk_exc OverflowError "int too large to convert to float") /\
  state_of 0 r.1 = Some RUNNING /\
  new_calls demo_storage r.1 = [CreateNewTrialId 0 0].
Proof. vm_compute. repeat split. Qed.

(* ===================================================================== *)
(** * Construction and accessors                                          *)
(* ===================================================================== *)

(** C5: in a study with no completed trial, [best_trial], [best_params]
    and [best_value] all raise the error 'No trials are completed yet.';
    none of them returns. *)
Theorem best_accessors_raise (self : Study) (s : Storage) :
  (forall t, t ∈ trials_of self s -> state t <> COMPLETE) ->
  let e := mk_exc ValueError "No trials are completed yet." in
  best_trial self s = Raise e /\
  best_params self s = Raise e /\
  best_value self s = Raise e.
Proof.
  intros Hnone e.
  assert (Hb : best_trial self s = Raise e).
  { unfold best_trial, get_best_trial.
    destruct (filter is_complete (get_all_trials (study_id self) s)) as [|t ts] eqn:Hfl;
      [reflexivity|].
    assert (Hin : t ∈ filter is_complete (get_all_trials (study_id self) s))
      by (rewrite Hfl; left).
    apply list_elem_of_filter in Hin as [Hc Hin].
    destruct (Hnone t Hin Hc). }
  unfold best_params, best_value. rewrite Hb. repeat split.
Qed.

Lemma best_accessors_raise_witness :
  let s := (@_run_trial demo_runtime demo_study
              (fun _ _ => Raises (mk_exc TrialPruned "")) [Exception] demo_storage).1 in
  let e := mk_exc ValueError "No trials are completed yet." in
  best_trial demo_study s = Raise e /\
  best_params demo_study s = Raise e /\
  best_value demo_study s = Raise e.
Proof.
  apply (best_accessors_raise demo_study).
  intros t Ht. vm_compute in Ht.
  apply list_elem_of_singleton in Ht as ->. discriminate.
Defined.

(** C7: construction validates the direction before anything else is
    written.  Any direction other than 'minimize' makes [__init__] raise
    and leaves the storage as it was; for a study the storage knows,
    'maximize' raises the [ValueError] about [MAXIMIZE], any other
    unrecognised string the [ValueError] asking for one of the two
    literals, and 'minimize' builds the study. *)
Theorem init_validates_direction (study_name direction : string) (s : Storage) :
  let r := __init__ study_name direction s in
  (direction <> "minimize" -> r.1 = s /\ exists e, r.2 = Raise e) /\
  (forall sid, get_study_id_from_name study_name s = Ret sid ->
     (direction = "maximize" ->
        r = (s, Raise (mk_exc ValueError
                  ("Optimization direction of study " +:+ study_name +:+
                   " is set to `MAXIMIZE`. " +:+
                   "Currently, Optuna supports `MINIMIZE` only.")))) /\
     (direction <> "minimize" -> direction <> "maximize" ->
        r = (s, Raise (mk_exc ValueError
                  "Please set either 'minimize' or 'maximize' to direction."))) /\
     (direction = "minimize" ->
        r = (set_study_task sid MINIMIZE s, Ret (mk_Study study_name sid)))).
Proof.
  intros r. subst r. unfold __init__. split.
  - intros Hne. destruct (get_study_id_from_name study_name s) as [sid|e]; [|eauto].
    rewrite bool_decide_eq_false_2 by done.
    destruct (bool_decide (direction = "maximize")); simpl; eauto.
  - intros sid ->. repeat split.
    + intros ->. reflexivity.
    + intros Hmin Hmax. by rewrite !bool_decide_eq_false_2 by done.
    + intros ->. reflexivity.
Qed.

Lemma init_validates_direction_witness :
  __init__ "demo" "maximize" demo_storage =
    (demo_storage,
     Raise (mk_exc ValueError
       "Optimization direction of study demo is set to `MAXIMIZE`. Currently, Optuna supports `MINIMIZE` only.")) /\
  __init__ "demo" "Minimize" demo_storage =
    (demo_storage,
     Raise (mk_exc ValueError "Please set either 'minimize' or 'maximize' to direction.")).
Proof.
  split.
  - apply (proj2 (init_validates_direction "demo" "maximize" demo_storage) 0%nat);
      reflexivity.
  - apply (proj2 (init_validates_direction "demo" "Minimize" demo_storage) 0%nat);
      [reflexivity|discriminate|discriminate].
Defined.

(* ===================================================================== *)
(** * The parallel scheduler: the worker count                            *)
(* ===================================================================== *)



(* ===================================================================== *)
(** * The trial runner, in general                                        *)
(* ===================================================================== *)

Section StorageInvariants.

Lemma study_of_upd f tid tid' s :
  (forall t, trial_study (f t) = trial_study t) ->
  study_of tid' (upd_trial f tid s) = study_of tid' s.
Proof.
  intros Hf. unfold study_of, upd_trial. simpl.
  destruct (decide (tid = tid')) as [->|Hne].
  - rewrite list_lookup_alter_eq. destruct (trials s !! tid'); simpl; by rewrite ?Hf.
  - by rewrite list_lookup_alter_ne.
Qed.

Lemma study_of_set_state tid tid' st s :
  study_of tid' (set_trial_state tid st s) = study_of tid' s.
Proof. by apply study_of_upd. Qed.

Lemma study_of_set_value tid tid' v s :
  study_of tid' (set_trial_value tid v s) = study_of tid' s.
Proof. by apply study_of_upd. Qed.

Lemma study_of_report trial tid' v s :
  study_of tid' (report trial v s) = study_of tid' s.
Proof.
  unfold report.
  transitivity (study_of tid' (set_trial_value (handle_id trial) v s));
    by apply study_of_upd.
Qed.

Lemma study_of_set_attr tid tid' k v s :
  study_of tid' (set_trial_system_attr tid k v s) = study_of tid' s.
Proof. by apply study_of_upd. Qed.

Lemma study_of_create_new sid s :
  study_of (next_trial_id s) (create_new_trial_id sid s).2 = Some sid.
Proof. unfold study_of. rewrite create_trials. by rewrite list_lookup_middle. Qed.

Lemma study_of_create_old sid tid s :
  (tid < next_trial_id s)%nat ->
  study_of tid (create_new_trial_id sid s).2 = study_of tid s.
Proof. intros Hlt. unfold study_of. rewrite create_trials. by rewrite lookup_app_l. Qed.

Lemma state_of_create_old sid tid s :
  (tid < next_trial_id s)%nat ->
  state_of tid (create_new_trial_id sid s).2 = state_of tid s.
Proof. intros Hlt. unfold state_of. rewrite create_trials. by rewrite lookup_app_l. Qed.

Lemma state_of_lt tid s st : state_of tid s = Some st -> (tid < next_trial_id s)%nat.
Proof.
  unfold state_of. intros Hs. destruct (trials s !! tid) eqn:Hl; [|discriminate].
  by apply lookup_lt_Some in Hl.
Qed.

Lemma finished_lt tid s : finished tid s -> (tid < next_trial_id s)%nat.
Proof. intros (st & Hs & _). by apply state_of_lt in Hs. Qed.

Lemma finished_set_state tid tid' st s :
  terminal st = true -> finished tid' s -> finished tid' (set_trial_state tid st s).
Proof.
  intros Ht Hfin. destruct (decide (tid = tid')) as [->|Hne].
  - exists st. split; [|done]. apply state_of_set_state. by apply finished_lt.
  - unfold finished. by rewrite state_of_set_state_ne.
Qed.

Lemma finished_set_value tid tid' v s :
  finished tid' s -> finished tid' (set_trial_value tid v s).
Proof. unfold finished. by rewrite state_of_set_value. Qed.

Lemma finished_report trial tid' v s :
  finished tid' s -> finished tid' (report trial v s).
Proof. unfold finished. by rewrite state_of_report. Qed.

Lemma finished_set_attr tid tid' k v s :
  finished tid' s -> finished tid' (set_trial_system_attr tid k v s).
Proof. unfold finished. by rewrite state_of_set_attr. Qed.

Lemma finished_create sid tid s :
  finished tid s -> finished tid (create_new_trial_id sid s).2.
Proof.
  intros Hfin. unfold finished. rewrite state_of_create_old; [done|by apply finished_lt].
Qed.

Lemma wf_create sid s : storage_wf s -> storage_wf (create_new_trial_id sid s).2.
Proof.
  unfold storage_wf. rewrite create_trials. intros Hwf.
  apply Forall_app. split; [done|]. constructor; [discriminate|constructor].
Qed.

Lemma wf_set_state tid st s :
  st <> COMPLETE -> storage_wf s -> storage_wf (set_trial_state tid st s).
Proof.
  intros Hst Hwf. unfold storage_wf, set_trial_state, upd_trial. simpl.
  apply Forall_alter; [done|]. intros t _ _. simpl. congruence.
Qed.

Lemma wf_set_attr tid k v s :
  storage_wf s -> storage_wf (set_trial_system_attr tid k v s).
Proof.
  intros Hwf. unfold storage_wf, set_trial_system_attr, upd_trial. simpl.
  apply Forall_alter; [done|]. intros t _ Ht. exact Ht.
Qed.

Lemma wf_set_value tid v s :
  storage_wf s -> storage_wf (set_trial_value tid v s).
Proof.
  intros Hwf. unfold storage_wf, set_trial_value, upd_trial. simpl.
  apply Forall_alter; [done|]. intros t _ _ _. simpl. eauto.
Qed.

Lemma wf_report trial v s :
  storage_wf s -> storage_wf (report trial v s).
Proof.
  intros Hwf. unfold report. set (s1 := set_trial_value (handle_id trial) v s).
  assert (Hwf1 : storage_wf s1) by (by apply wf_set_value).
  unfold storage_wf, set_trial_intermediate_value, upd_trial. simpl.
  apply Forall_alter; [done|]. intros t _ Ht. exact Ht.
Qed.

Lemma wf_complete trial v s :
  storage_wf s ->
  storage_wf (set_trial_state (handle_id trial) COMPLETE (report trial v s)).
Proof.
  intros Hwf. unfold storage_wf, set_trial_state, upd_trial.
  cbn [trials log with_trials].
  apply Forall_alter; [by apply wf_report|].
  intros t Ht _ _. cbn [value].
  unfold report, set_trial_intermediate_value, set_trial_value, upd_trial in Ht.
  cbn [trials log with_trials] in Ht.
  rewrite !list_lookup_alter_eq in Ht.
  destruct (trials s !! handle_id trial); [|discriminate]. injection Ht as <-. simpl. eauto.
Qed.

Lemma wf_remove_session s : storage_wf s -> storage_wf (remove_session s).
Proof. done. Qed.

(** [min] returns one of the trials it is given. *)
Lemma fold_min_elem (ts : list FrozenTrial) (t : FrozenTrial) :
  fold_left (fun best t' => if value_lt t' best then t' else best) ts t ∈ t :: ts.
Proof.
  revert t. induction ts as [|t' ts IH]; intros t; simpl; [left|].
  specialize (IH (if value_lt t' t then t' else t)).
  apply elem_of_cons in IH as [->|IH].
  - destruct (value_lt t' t); [right; left|left].
  - right. by right.
Qed.

Lemma log_completed_ok (self : Study) (v : float) (tid : nat) (s : Storage) :
  storage_wf s ->
  study_of tid s = Some (study_id self) ->
  state_of tid s = Some COMPLETE ->
  _log_completed_trial self v s = Ret tt.
Proof.
  intros Hwf Hstudy Hstate.
  unfold study_of in Hstudy. unfold state_of in Hstate.
  destruct (trials s !! tid) as [t|] eqn:Hl; [|discriminate].
  injection Hstudy as Hstudy. injection Hstate as Hstate.
  assert (Hin : t ∈ filter is_complete (get_all_trials (study_id self) s)).
  { apply list_elem_of_filter. split; [done|].
    apply list_elem_of_filter. split; [done|]. by eapply list_elem_of_lookup_2. }
  unfold _log_completed_trial, best_value, best_params, best_trial, get_best_trial.
  destruct (filter is_complete (get_all_trials (study_id self) s)) as [|t0 ts] eqn:Hfl.
  { by apply not_elem_of_nil in Hin. }
  pose proof (fold_min_elem ts t0) as Hbest.
  rewrite <- Hfl in Hbest.
  apply list_elem_of_filter in Hbest as [Hc Hbest].
  apply list_elem_of_filter in Hbest as [_ Hbest].
  unfold storage_wf in Hwf. rewrite Forall_forall in Hwf.
  destruct (Hwf _ Hbest Hc) as [bv Hbv].
  simpl. rewrite Hbv. reflexivity.
Qed.

End StorageInvariants.

Section RunnerFrame.
Context `{Runtime}.
Variable self : Study.
Variable func : ObjectiveFuncType.
Variable catch : list exc_class.

Lemma allocated_app cs cs' : allocated (cs ++ cs') = allocated cs ++ allocated cs'.
Proof. unfold allocated. apply omap_app. Qed.

Lemma frame_refl s : runner_frame s s.
Proof.
  repeat split; try done. exists []. by rewrite app_nil_r.
Qed.

Lemma frame_pruned tid s : runner_frame s (set_trial_state tid PRUNED s).
Proof.
  split; [apply next_set_state|]. split; [eexists [_]; split; [reflexivity|reflexivity]|].
  split; [intros tid'; by apply finished_set_state|].
  split; [intros tid'; apply study_of_set_state|].
  by apply wf_set_state.
Qed.

Lemma frame_fail trial message s : runner_frame s (record_fail trial message s).1.
Proof.
  cbn [record_fail fst].
  split; [by rewrite next_set_attr, next_set_state|].
  split. { eexists [_; _]. split; [simpl; by rewrite <- app_assoc|reflexivity]. }
  split; [intros tid' Hf; by apply finished_set_attr, finished_set_state|].
  split; [intros tid'; by rewrite study_of_set_attr, study_of_set_state|].
  intros Hwf. by apply wf_set_attr, wf_set_state.
Qed.

Lemma frame_complete trial V s :
  runner_frame s (set_trial_state (handle_id trial) COMPLETE (report trial V s)).
Proof.
  split; [by rewrite next_set_state, next_report|].
  split. { eexists [_; _; _]. split; [simpl; by rewrite <- !app_assoc|reflexivity]. }
  split; [intros tid' Hf; by apply finished_set_state, finished_report|].
  split; [intros tid'; by rewrite study_of_set_state, study_of_report|].
  apply wf_complete.
Qed.

(** Whatever the objective does, the rest of [_run_trial] keeps the
    frame; when it returns the handle, the trial is finished. *)
Lemma run_allocated_frame tid s :
  (tid < next_trial_id s)%nat ->
  runner_frame s (run_allocated self func catch tid s).1 /\
  (forall t, (run_allocated self func catch tid s).2 = Ret t ->
             t = mk_Trial (study_id self) tid /\
             finished tid (run_allocated self func catch tid s).1).
Proof.
  intros Hlt. unfold run_allocated.
  set (trial := mk_Trial (study_id self) tid).
  assert (Hfail : forall message,
    runner_frame s (record_fail trial message s).1 /\
    (forall t, (record_fail trial message s).2 = Ret t ->
               t = trial /\ finished tid (record_fail trial message s).1)).
  { intros message. split; [apply frame_fail|].
    destruct (record_fail_spec trial message s Hlt) as (Hr & Hst & _).
    intros t Ht. rewrite Hr in Ht. injection Ht as <-. split; [done|].
    exists FAIL. by split. }
  destruct (func trial s) as [v|e].
  - destruct (py_float v) as [V|e].
    + destruct (isnan V); [apply Hfail|].
      assert (Hfin : finished tid (set_trial_state tid COMPLETE (report trial V s))).
      { exists COMPLETE. split; [|done]. apply state_of_set_state.
        by rewrite next_report. }
      destruct (_log_completed_trial _ _ _); cbn [fst snd];
        (split; [apply (frame_complete trial)|]).
      * intros t [= <-]. by split.
      * intros t [=].
    + destruct (matches e _); [apply Hfail|].
      cbn [fst snd]. split; [apply frame_refl|]. intros t [=].
  - destruct (isinstance e TrialPruned).
    + cbn [fst snd]. split; [apply frame_pruned|].
      intros t [= <-]. split; [done|]. exists PRUNED. split; [|done].
      by apply state_of_set_state.
    + destruct (matches e catch); [apply Hfail|].
      cbn [fst snd]. split; [apply frame_refl|]. intros t [=].
Qed.

(** A classified invocation makes the rest of [_run_trial] return. *)
Lemma run_allocated_returns tid s :
  (tid < next_trial_id s)%nat ->
  storage_wf s ->
  study_of tid s = Some (study_id self) ->
  classified catch (func (mk_Trial (study_id self) tid) s) = true ->
  (run_allocated self func catch tid s).2 = Ret (mk_Trial (study_id self) tid).
Proof.
  intros Hlt Hwf Hstudy Hcl. unfold run_allocated.
  set (trial := mk_Trial (study_id self) tid) in *.
  unfold classified in Hcl.
  destruct (func trial s) as [v|e].
  - destruct (py_float v) as [V|e].
    + destruct (isnan V); [reflexivity|].
      rewrite (log_completed_ok self V tid); [reflexivity| | |].
      * by apply (wf_complete trial V).
      * by rewrite study_of_set_state, study_of_report.
      * apply state_of_set_state. by rewrite next_report.
    + by rewrite Hcl.
  - destruct (isinstance e TrialPruned); [reflexivity|].
    simpl in Hcl. by rewrite Hcl.
Qed.

(** The whole runner: it hands out the next identifier, and nothing else
    is allocated. *)
Lemma run_trial_frame s :
  let r := _run_trial self func catch s in
  next_trial_id r.1 = S (next_trial_id s) /\
  (exists cs, calls r.1 = calls s ++ cs /\ allocated cs = [next_trial_id s]) /\
  (forall tid, finished tid s -> finished tid r.1) /\
  (storage_wf s -> storage_wf r.1) /\
  study_of (next_trial_id s) r.1 = Some (study_id self) /\
  (forall t, r.2 = Ret t -> finished (next_trial_id s) r.1).
Proof.
  intros r. subst r. rewrite run_trial_unfold.
  set (s1 := (create_new_trial_id (study_id self) s).2).
  assert (Hlt : (next_trial_id s < next_trial_id s1)%nat).
  { unfold s1. rewrite next_create. lia. }
  destruct (run_allocated_frame (next_trial_id s) s1 Hlt)
    as ((Hn & (cs & Hcs & Hal) & Hfin & Hst & Hwf) & Hret).
  split; [rewrite Hn; apply next_create|].
  split.
  { exists (CreateNewTrialId (study_id self) (next_trial_id s) :: cs). split.
    - rewrite Hcs. unfold s1. rewrite create_calls. by rewrite <- app_assoc.
    - simpl. by rewrite Hal. }
  split; [intros tid Hf; by apply Hfin, finished_create|].
  split; [intros Hw; by apply Hwf, wf_create|].
  split; [rewrite Hst; apply study_of_create_new|].
  intros t Ht. by apply Hret in Ht as [_ Ht].
Qed.

Lemma run_trial_returns s :
  storage_wf s ->
  classified catch (func (mk_Trial (study_id self) (next_trial_id s))
                         (create_new_trial_id (study_id self) s).2) = true ->
  (_run_trial self func catch s).2 = Ret (mk_Trial (study_id self) (next_trial_id s)).
Proof.
  intros Hwf Hcl. rewrite run_trial_unfold. apply run_allocated_returns; try done.
  - rewrite next_create. lia.
  - by apply wf_create.
  - apply study_of_create_new.
Qed.

End RunnerFrame.

(** X1: when the runner returns and when it raises: on a storage whose
    completed trials have a value it returns the handle exactly for the
    classified invocations; otherwise the exception of the objective, or
    the one [float()] raised, leaves it. *)
Lemma run_trial_returns_iff `{Runtime} (self : Study) (func : ObjectiveFuncType)
    (catch : list exc_class) (s : Storage) :
  storage_wf s ->
  let trial := mk_Trial (study_id self) (next_trial_id s) in
  ((_run_trial self func catch s).2 = Ret trial <->
   classified catch (func trial (create_new_trial_id (study_id self) s).2) = true) /\
  (forall e, (_run_trial self func catch s).2 = Raise e ->
     func trial (create_new_trial_id (study_id self) s).2 = Raises e \/
     exists v, func trial (create_new_trial_id (study_id self) s).2 = Returns v /\
               py_float v = Raise e).
Proof.
  intros Hwf trial. split; [split|].
  - rewrite run_trial_unfold. unfold run_allocated, classified. fold trial.
    destruct (func trial _) as [v|e].
    + destruct (py_float v) as [V|e]; [done|].
      by destruct (matches e [ValueError; TypeError]).
    + destruct (isinstance e TrialPruned); [done|]. simpl.
      by destruct (matches e catch).
  - by apply run_trial_returns.
  - intros e. rewrite run_trial_unfold. unfold run_allocated. fold trial.
    set (s1 := (create_new_trial_id (study_id self) s).2).
    destruct (func trial s1) as [v|e'].
    + destruct (py_float v) as [V|e'] eqn:Hfl.
      * destruct (isnan V); [discriminate|].
        rewrite (log_completed_ok self V (next_trial_id s)); [discriminate| | |].
        -- apply (wf_complete (mk_Trial (study_id self) (next_trial_id s)) V).
           by apply wf_create.
        -- rewrite study_of_set_state, study_of_report.
           apply study_of_create_new.
        -- apply state_of_set_state. rewrite next_report.
           unfold s1. rewrite next_create. lia.
      * destruct (matches e' _); [discriminate|]. intros [= ->]. right. eauto.
    + destruct (isinstance e' TrialPruned); [discriminate|].
      destruct (matches e' catch); [discriminate|]. intros [= ->]. by left.
Qed.

(* ===================================================================== *)
(** * The sequential scheduler                                            *)
(* ===================================================================== *)

Section Sequential.
Context `{Runtime}.
Variable self : Study.
Variable func : ObjectiveFuncType.
Variable catch : list exc_class.
Variable N : Z.
Hypothesis all_classified : forall trial s, classified catch (func trial s) = true.

Lemma sequential_loop_S fuel n_trials timeout t0 i rd s :
  sequential_loop (S fuel) self func n_trials timeout catch t0 i rd s =
  if match n_trials with Some n => i >=? n | None => false end then Finished rd s
  else
    let i' := match n_trials with Some _ => i + 1 | None => i end in
    let to := match timeout with
              | Some timeout => (float_ge (total_seconds (clock rd - t0)) timeout, S rd)
              | None => (false, rd)
              end in
    if to.1 then Finished to.2 s
    else match _run_trial self func catch s with
         | (s, Raise e) => Propagated e to.2 s
         | (s, Ret _) => sequential_loop fuel self func n_trials timeout catch t0 i' to.2 s
         end.
Proof. cbn [sequential_loop]. by destruct timeout. Qed.

(** More fuel does not change the way a loop ends. *)
Lemma sequential_loop_fuel fuel fuel' n_trials timeout t0 i rd s r :
  sequential_loop fuel self func n_trials timeout catch t0 i rd s = r ->
  r <> StillRunning -> (fuel <= fuel')%nat ->
  sequential_loop fuel' self func n_trials timeout catch t0 i rd s = r.
Proof.
  revert fuel' i rd s. induction fuel as [|fuel IH]; intros fuel' i rd s Hr Hne Hle.
  { simpl in Hr. congruence. }
  destruct fuel' as [|fuel']; [lia|].
  rewrite sequential_loop_S in *. cbv zeta in *.
  destruct (match n_trials with Some n => i >=? n | None => false end); [done|].
  destruct (match timeout with
            | Some timeout => (float_ge (total_seconds (clock rd - t0)) timeout, S rd)
            | None => (false, rd)
            end) as [timed_out rd'].
  cbn [fst snd] in *.
  destruct timed_out; [done|].
  destruct (_run_trial self func catch s) as [s' [t|e]]; [|done].
  apply IH; [done|done|lia].
Qed.

(** Without a timeout the loop runs one trial for each unit left below
    the limit. *)
Lemma sequential_loop_limit (m : nat) : forall i t0 rd s,
  N - i = Z.of_nat m -> storage_wf s ->
  exists s' cs,
    sequential_loop (S m) self func (Some N) None catch t0 i rd s = Finished rd s' /\
    next_trial_id s' = (next_trial_id s + m)%nat /\
    calls s' = calls s ++ cs /\ allocated cs = seq (next_trial_id s) m /\
    storage_wf s' /\
    (forall tid, finished tid s -> finished tid s') /\
    (forall tid, (next_trial_id s <= tid < next_trial_id s + m)%nat -> finished tid s').
Proof.
  induction m as [|m IH]; intros i t0 rd s Hm Hwf.
  - exists s, []. rewrite sequential_loop_S. destruct (Z.geb_spec i N); [|lia].
    rewrite app_nil_r, Nat.add_0_r. repeat split; try done. intros tid Htid. lia.
  - rewrite sequential_loop_S. destruct (Z.geb_spec i N); [lia|].
    cbv zeta. cbn [fst snd].
    destruct (run_trial_frame self func catch s) as (Hn & (cs & Hcs & Hal) & Hfin & Hw & _ & Hret).
    pose proof (run_trial_returns self func catch s Hwf (all_classified _ _)) as Hr.
    destruct (_run_trial self func catch s) as [s1 r]. cbn [fst snd] in *. subst r.
    destruct (IH (i + 1) t0 rd s1) as (s' & cs' & Hloop & Hn' & Hcs' & Hal' & Hwf' & Hfin' & Hnew);
      [lia|by apply Hw|].
    exists s', (cs ++ cs'). rewrite Hloop. split; [done|].
    split; [rewrite Hn', Hn; lia|].
    split; [rewrite Hcs', Hcs; by rewrite <- app_assoc|].
    split; [rewrite allocated_app, Hal, Hal', Hn; reflexivity|].
    split; [done|].
    split; [intros tid Hf; by apply Hfin', Hfin|].
    intros tid Htid. destruct (decide (tid = next_trial_id s)) as [->|Hne].
    + apply Hfin'. by eapply Hret.
    + apply Hnew. rewrite Hn. lia.
Qed.

(** With a timeout the loop stops at the limit without reading the
    clock, or at the first reading that shows the timeout elapsed. *)
Lemma sequential_loop_timeout (timeout : float) (m : nat) : forall i t0 rd s,
  N - i = Z.of_nat m -> storage_wf s ->
  exists (k : nat) rd' s',
    sequential_loop (S m) self func (Some N) (Some timeout) catch t0 i rd s
      = Finished rd' s' /\
    next_trial_id s' = (next_trial_id s + k)%nat /\
    (forall j, (j < k)%nat ->
       float_ge (total_seconds (clock (rd + j)%nat - t0)) timeout = false) /\
    ((k = m /\ rd' = (rd + m)%nat) \/
     ((k < m)%nat /\ rd' = (rd + k + 1)%nat /\
      float_ge (total_seconds (clock (rd + k)%nat - t0)) timeout = true)).
Proof.
  induction m as [|m IH]; intros i t0 rd s Hm Hwf.
  - exists 0%nat, rd, s. rewrite sequential_loop_S. destruct (Z.geb_spec i N); [|lia].
    split; [done|]. split; [lia|]. split; [intros j Hj; lia|]. left. lia.
  - rewrite sequential_loop_S. destruct (Z.geb_spec i N); [lia|].
    cbv zeta. cbn [fst snd].
    destruct (float_ge (total_seconds (clock rd - t0)) timeout) eqn:Hto.
    + exists 0%nat, (S rd), s. rewrite !Nat.add_0_r.
      split; [done|]. split; [done|]. split; [intros j Hj; lia|].
      right. split; [lia|]. split; [lia|done].
    + destruct (run_trial_frame self func catch s) as (Hn & _ & _ & Hw & _).
      pose proof (run_trial_returns self func catch s Hwf (all_classified _ _)) as Hr.
      destruct (_run_trial self func catch s) as [s1 r]. cbn [fst snd] in *. subst r.
      destruct (IH (i + 1) t0 (S rd) s1) as (k & rd' & s' & Hloop & Hn' & Hlt & Hend);
        [lia|by apply Hw|].
      exists (S k), rd', s'. rewrite Hloop. split; [done|].
      split; [rewrite Hn', Hn; lia|].
      split.
      { intros [|j] Hj; [by rewrite Nat.add_0_r|].
        replace (rd + S j)%nat with (S rd + j)%nat by lia. apply Hlt. lia. }
      destruct Hend as [[-> ->]|(Hk & -> & Hge)].
      * left. split; [done|lia].
      * right. split; [lia|]. split; [lia|].
        by replace (rd + S k)%nat with (S rd + k)%nat by lia.
Qed.

End Sequential.

(** C4: the sequential scheduler with a limit of [N >= 0] trials, on a
    storage whose completed trials have a value and with an objective
    whose invocations are all classified.  Without a timeout it returns
    after exactly [N] trials (none when [N = 0]), with fresh consecutive
    identifiers, all finished, whatever fuel above [N] it is given.  With
    a timeout it checks the limit first and the clock second: it runs [k]
    trials, the clock having shown less than the timeout before each of
    them; either [k = N] and the clock was read [N] times after the start
    (the limit stopped the loop before another reading), or [k < N] and
    the reading number [k + 1] showed [elapsed >= timeout]. *)
Theorem sequential_runs_N_trials `{Runtime} (self : Study) (func : ObjectiveFuncType)
    (catch : list exc_class) (N : Z) (reads : nat) (s : Storage) :
  0 <= N ->
  storage_wf s ->
  (forall trial s, classified catch (func trial s) = true) ->
  (exists s',
     (forall fuel, (Z.to_nat N < fuel)%nat ->
        _optimize_sequential fuel self func (Some N) None catch reads s
          = Finished (S reads) s') /\
     next_trial_id s' = (next_trial_id s + Z.to_nat N)%nat /\
     allocated (new_calls s s') = seq (next_trial_id s) (Z.to_nat N) /\
     (forall tid, (next_trial_id s <= tid < next_trial_id s')%nat -> finished tid s')) /\
  (forall (timeout : float) fuel, (Z.to_nat N < fuel)%nat ->
     exists (k : nat) reads' s',
       _optimize_sequential fuel self func (Some N) (Some timeout) catch reads s
         = Finished reads' s' /\
       next_trial_id s' = (next_trial_id s + k)%nat /\
       (forall j, (1 <= j <= k)%nat -> float_ge (elapsed_at reads j) timeout = false) /\
       ((k = Z.to_nat N /\ reads' = (reads + 1 + k)%nat) \/
        ((k < Z.to_nat N)%nat /\ reads' = (reads + 2 + k)%nat /\
         float_ge (elapsed_at reads (k + 1)) timeout = true))).
Proof.
  intros HN Hwf Hcl. split.
  - destruct (sequential_loop_limit self func catch N Hcl (Z.to_nat N) 0 (clock reads)
                (S reads) s) as (s' & cs & Hloop & Hn & Hcs & Hal & _ & _ & Hnew);
      [lia|done|].
    exists s'. split; [|split; [done|split]].
    + intros fuel Hfuel. unfold _optimize_sequential.
      eapply sequential_loop_fuel; [exact Hloop|done|lia].
    + by rewrite (new_calls_app s s' cs).
    + intros tid Htid. apply Hnew. lia.
  - intros timeout fuel Hfuel.
    destruct (sequential_loop_timeout self func catch N Hcl timeout (Z.to_nat N) 0
                (clock reads) (S reads) s) as (k & rd' & s' & Hloop & Hn & Hlt & Hend);
      [lia|done|].
    exists k, rd', s'. split; [|split; [done|split]].
    + unfold _optimize_sequential.
      eapply sequential_loop_fuel; [exact Hloop|done|lia].
    + intros j Hj. unfold elapsed_at.
      replace (reads + j)%nat with (S reads + (j - 1))%nat by lia. apply Hlt. lia.
    + destruct Hend as [[-> ->]|(Hk & -> & Hge)].
      * left. split; [done|lia].
      * right. split; [done|]. split; [lia|]. unfold elapsed_at.
        by replace (reads + (k + 1))%nat with (S reads + k)%nat by lia.
Qed.

Lemma sequential_runs_N_trials_witness :
  exists s',
    @_optimize_sequential demo_runtime 4 demo_study (fun _ _ => Returns (VInt 3)) (Some 3)
      None [Exception] 0 demo_storage = Finished 1 s' /\
    next_trial_id s' = 3%nat /\
    allocated (new_calls demo_storage s') = [0; 1; 2]%nat.
Proof.
  destruct (@sequential_runs_N_trials demo_runtime demo_study
              (fun _ _ => Returns (VInt 3)) [Exception] 3 0 demo_storage)
    as [(s' & Hrun & Hn & Hal & _) _].
  - lia.
  - constructor.
  - intros trial s. reflexivity.
  - exists s'. split; [apply Hrun; simpl; lia|]. split; [exact Hn|exact Hal].
Defined.

(** The sequential scheduler on the demonstration clock: with a limit of
    five trials and a timeout of two seconds, one trial runs, and the
    second reading of the clock stops the loop. *)
Example sequential_timeout_demo :
  exists s',
    @_optimize_sequential demo_runtime 10 demo_study (fun _ _ => Returns (VInt 3)) (Some 5)
      (Some (float_of_Z 2)) [Exception] 0 demo_storage = Finished 3 s' /\
    next_trial_id s' = 1%nat.
Proof. eexists. split; reflexivity. Qed.

(* ===================================================================== *)
(** * The parallel scheduler                                              *)
(* ===================================================================== *)

Section Counting.

Lemma count_insert p ws i w0 w :
  ws !! i = Some w0 ->
  (count p (<[i:=w]> ws) + (if p w0 then 1 else 0) =
   count p ws + (if p w then 1 else 0))%nat.
Proof.
  revert i. induction ws as [|x ws IH]; intros [|i] Hl; simpl in *; try discriminate.
  - injection Hl as ->. lia.
  - specialize (IH i Hl). lia.
Qed.

Lemma count_repeat p w n :
  count p (repeat w n) = if p w then n else 0%nat.
Proof. induction n as [|n IH]; simpl; [by destruct (p w)|]. rewrite IH. by destruct (p w). Qed.

Lemma count_pos p ws :
  (0 < count p ws)%nat -> exists i w, ws !! i = Some w /\ p w = true.
Proof.
  induction ws as [|x ws IH]; simpl; [lia|]. intros Hpos.
  destruct (p x) eqn:Hp.
  - by exists 0%nat, x.
  - destruct IH as (i & w & Hl & Hw); [lia|]. by exists (S i), w.
Qed.

Lemma count_elem p ws w : w ∈ ws -> p w = true -> (0 < count p ws)%nat.
Proof.
  induction 1 as [|x y ws Hin IH]; simpl; intros Hp.
  - rewrite Hp. lia.
  - specialize (IH Hp). lia.
Qed.

Lemma count_partition ws :
  (count is_waiting ws + count is_fetched ws + count is_intrial ws +
   count is_exited ws + count is_died ws = List.length ws)%nat.
Proof. induction ws as [|[] ws IH]; simpl; lia. Qed.

Lemma join_all_exited ws :
  count is_exited ws = List.length ws -> join ws = Some (Ret tt).
Proof.
  induction ws as [|w ws IH]; simpl; [done|]. intros Hc.
  assert (count is_exited ws <= List.length ws)%nat.
  { clear. induction ws as [|[] ws IH]; simpl; lia. }
  destruct w; simpl in Hc; try lia. apply IH. lia.
Qed.

Lemma join_returns_exited ws : join ws = Some (Ret tt) -> count is_exited ws = List.length ws.
Proof.
  induction ws as [|w ws IH]; simpl; [done|].
  destruct w as [| | | |e]; intros Hj; try discriminate.
  - f_equal. by apply IH.
  - by destruct (isinstance e Exception).
Qed.

Lemma elem_of_insert_inv (ws : list worker) i w x :
  x ∈ <[i:=w]> ws -> x = w \/ x ∈ ws.
Proof.
  intros Hin. apply list_elem_of_lookup in Hin as [j Hj].
  destruct (decide (i = j)) as [->|Hne].
  - destruct (decide (j < List.length ws)%nat) as [Hlt|Hge].
    + rewrite list_lookup_insert_eq in Hj by done. left. congruence.
    + rewrite list_insert_ge in Hj by lia. right. by eapply list_elem_of_lookup_2.
  - rewrite list_lookup_insert_ne in Hj by done. right. by eapply list_elem_of_lookup_2.
Qed.

Lemma elem_of_insert_other (ws : list worker) i w w0 x :
  ws !! i = Some w0 -> x ∈ ws -> x <> w0 -> x ∈ <[i:=w]> ws.
Proof.
  intros Hi Hin Hne. apply list_elem_of_lookup in Hin as [j Hj].
  assert (i <> j) by (intros ->; congruence).
  apply list_elem_of_lookup. exists j. by rewrite list_lookup_insert_ne.
Qed.

Lemma elem_of_insert_new (ws : list worker) i w w0 :
  ws !! i = Some w0 -> w ∈ <[i:=w]> ws.
Proof.
  intros Hi. apply list_elem_of_lookup. exists i.
  rewrite list_lookup_insert_eq; [done|]. by eapply lookup_lt_Some.
Qed.

Lemma tokens_app t q q' : tokens t (q ++ q') = (tokens t q + tokens t q')%nat.
Proof. induction q as [|x q IH]; simpl; [done|]. rewrite IH. lia. Qed.

Lemma tokens_repeat t x n : tokens t (repeat x n) = if Bool.eqb x t then n else 0%nat.
Proof.
  induction n as [|n IH]; simpl; [by destruct (Bool.eqb x t)|].
  rewrite IH. by destruct (Bool.eqb x t).
Qed.

Lemma tokens_que t a b :
  tokens t (repeat true a ++ repeat false b) = if t then a else b.
Proof. rewrite tokens_app, !tokens_repeat. destruct t; simpl; lia. Qed.

Lemma repeat_snoc {A} (x : A) n : repeat x n ++ [x] = repeat x (S n).
Proof. induction n as [|n IH]; simpl; [done|]. by rewrite IH. Qed.

(** The head of a queue of tokens [True] followed by tokens [False]. *)
Lemma que_head a b tok q :
  repeat true a ++ repeat false b = tok :: q ->
  (tok = true /\ exists a', a = S a' /\ q = repeat true a' ++ repeat false b) \/
  (tok = false /\ a = 0%nat /\ exists b', b = S b' /\ q = repeat false b').
Proof.
  destruct a as [|a]; simpl.
  - destruct b as [|b]; simpl; [discriminate|]. intros [= <- <-]. right. eauto.
  - intros [= <- <-]. left. eauto.
Qed.

End Counting.

Section ParallelInvariant.
Context `{Runtime}.
Variable self : Study.
Variable func : ObjectiveFuncType.
Variable catch : list exc_class.
Variable N : Z.
Variable s0 : Storage.

Lemma pinv_start n_jobs reads :
  1 <= N -> 1 <= resolve_n_jobs (Some N) n_jobs ->
  pinv N s0 (start (Some N) n_jobs reads s0)
       (Z.to_nat (resolve_n_jobs (Some N) n_jobs)) 0 [].
Proof.
  intros HN Hres. unfold start.
  rewrite bool_decide_eq_false_2 by (intros [= ->]; lia).
  assert (resolve_n_jobs (Some N) n_jobs <= N) by (unfold resolve_n_jobs; lia).
  remember (resolve_n_jobs (Some N) n_jobs) as r.
  destruct (Z.ltb_spec r 1); [lia|].
  constructor; cbn [workers pool_size que coord n_enqueued_trials store allocated omap
                    List.length]; rewrite ?count_repeat; simpl; try lia; try done.
  - by rewrite repeat_length.
  - by rewrite app_nil_r.
  - by rewrite app_nil_r.
  - intros tid Hin. apply list_elem_of_In, repeat_spec in Hin. discriminate.
Qed.

Lemma pinv_coordinator st st' a b cs :
  pinv N s0 st a b cs ->
  coordinator_step (Some N) None st = Some st' ->
  exists a' b', pinv N s0 st' a' b' cs.
Proof.
  intros [Hpool Hpos Hque Hphase Hfifo Henq Hseed Hlim Hcalls Hids Hnext Htrials Hintr].
  unfold coordinator_step.
  destruct (coord st) as [|[|k]| | |e] eqn:Hc; try discriminate.
  - (* Admitting *)
    destruct Hphase as [-> Hex].
    destruct (Z.geb_spec (n_enqueued_trials st) N) as [Hge|Hlt].
    + intros [= <-]. exists a, 0%nat.
      constructor; simpl; try done. split; lia.
    + unfold put_nowait. destruct (decide _) as [Hfree|Hfull].
      * intros [= <-]. exists (S a), 0%nat.
        constructor; simpl; rewrite ?Hc; try done; try lia.
        rewrite Hque, !app_nil_r. apply (repeat_snoc true a).
      * intros [= <-]. exists a, 0%nat. by constructor; rewrite ?Hc.
  - (* Stopping 0 *)
    intros [= <-]. exists a, b. constructor; simpl; try done. destruct Hphase. split; lia.
  - (* Stopping (S k) *)
    unfold put_nowait. destruct (decide _) as [Hfree|Hfull]; [|discriminate].
    simpl. intros [= <-]. exists a, (S b). destruct Hphase as [Hsum HN].
    constructor; simpl; try done.
    + rewrite Hque, <- app_assoc. f_equal. apply repeat_snoc.
    + split; lia.
  - (* Joining *)
    destruct (join (workers st)) as [[[]|e]|] eqn:Hj; [| |discriminate];
      simpl; intros [= <-]; exists a, b; constructor; simpl; try done.
    apply join_returns_exited in Hj. lia.
Qed.

Lemma state_of_log c tid s : state_of tid (log c s) = state_of tid s.
Proof. reflexivity. Qed.

Lemma pinv_worker st st' a b cs i :
  pinv N s0 st a b cs ->
  func_child_thread self func catch i st = Some st' ->
  exists a' b' cs', pinv N s0 st' a' b' cs'.
Proof.
  intros [Hpool Hpos Hque Hphase Hfifo Henq Hseed Hlim Hcalls Hids Hnext Htrials Hintr].
  unfold func_child_thread.
  destruct (workers st !! i) as [w|] eqn:Hl; [|discriminate]. cbn [mbind option_bind].
  pose proof (fun w' => count_insert is_exited (workers st) i w w' Hl) as Cex.
  pose proof (fun w' => count_insert is_fetched (workers st) i w w' Hl) as Cfe.
  pose proof (fun w' => count_insert is_died (workers st) i w w' Hl) as Cdi.
  destruct w as [| |tid| |e]; try discriminate.
  - (* Waiting *)
    destruct (que st) as [|tok q] eqn:Hq; [discriminate|].
    symmetry in Hque.
    apply que_head in Hque as [(-> & a' & -> & ->)|(-> & -> & b' & -> & ->)].
    + intros [= <-]. exists a', b, cs.
      specialize (Cex Fetched). specialize (Cfe Fetched). specialize (Cdi Fetched).
      simpl in Cex, Cfe, Cdi.
      assert (Hex0 : count is_exited (workers st) = 0%nat).
      { destruct (count is_exited (workers st)); [done|]. discriminate Hfifo. lia. }
      constructor; simpl; try done.
      * by rewrite length_insert.
      * destruct (coord st); simpl in Hphase |- *; lia.
      * lia.
      * lia.
      * intros tid Htid. destruct (Htrials tid Htid) as [Hf|[Hin|Hd]]; [by left| |right; right; lia].
        right. left. by eapply elem_of_insert_other.
      * intros tid Hin. apply elem_of_insert_inv in Hin as [[=]|Hin]. by apply Hintr.
    + intros [= <-]. exists 0%nat, b', (cs ++ [RemoveSession]).
      specialize (Cex Exited). specialize (Cfe Exited). specialize (Cdi Exited).
      simpl in Cex, Cfe, Cdi.
      constructor; simpl; rewrite ?allocated_app, ?app_nil_r; try done.
      * by rewrite length_insert.
      * destruct (coord st); simpl in Hphase |- *; lia.
      * lia.
      * rewrite Hcalls. by rewrite <- app_assoc.
      * intros tid Htid. destruct (Htrials tid Htid) as [Hf|[Hin|Hd]]; [by left| |right; right; lia].
        right. left. by eapply elem_of_insert_other.
      * intros tid Hin. apply elem_of_insert_inv in Hin as [[=]|Hin]. by apply Hintr.
  - (* Fetched *)
    set (tid0 := next_trial_id (store st)).
    set (s1 := (create_new_trial_id (study_id self) (store st)).2).
    change (create_new_trial_id (study_id self) (store st)) with (tid0, s1).
    cbv beta iota. intros [= <-].
    exists a, b, (cs ++ [CreateNewTrialId (study_id self) tid0]).
    specialize (Cex (InTrial tid0)). specialize (Cfe (InTrial tid0)).
    specialize (Cdi (InTrial tid0)).
    cbn [is_exited is_fetched is_died] in Cex, Cfe, Cdi.
    assert (Hn1 : next_trial_id s1 = S tid0) by apply next_create.
    constructor; cbn [workers pool_size que coord n_enqueued_trials store set_worker set_store];
      rewrite ?allocated_app, ?length_app;
      change (allocated [CreateNewTrialId (study_id self) tid0]) with [tid0];
      cbn [List.length]; try done.
    + by rewrite length_insert.
    + destruct (coord st); simpl in Hphase |- *; lia.
    + intros Hp. apply Hfifo. lia.
    + lia.
    + unfold s1. rewrite create_calls, Hcalls. by rewrite <- app_assoc.
    + rewrite Nat.add_1_r, seq_S, <- Hids. unfold tid0. by rewrite Hnext.
    + rewrite Hn1. unfold tid0. rewrite Hnext. lia.
    + intros tid Htid. rewrite Hn1 in Htid.
      destruct (decide (tid = tid0)) as [->|Hne].
      * right. left. by eapply elem_of_insert_new.
      * destruct (Htrials tid) as [Hf|[Hin|Hd]]; [unfold tid0 in *; lia| | |].
        -- left. by apply finished_create.
        -- right. left. by eapply elem_of_insert_other.
        -- right. right. lia.
    + intros tid Hin. rewrite Hn1.
      apply elem_of_insert_inv in Hin as [[= ->]|Hin]; [lia|].
      apply Hintr in Hin. unfold tid0. lia.
  - (* InTrial *)
    assert (Hin : InTrial tid ∈ workers st) by (by eapply list_elem_of_lookup_2).
    destruct (run_allocated_frame self func catch tid (store st) (Hintr tid Hin))
      as ((Hn & (cs2 & Hcs2 & Hal2) & Hfin & _ & _) & Hret).
    destruct (run_allocated self func catch tid (store st)) as [s' [t|e]];
      cbn [fst snd] in *; intros [= <-]; exists a, b, (cs ++ cs2).
    + specialize (Cex Waiting). specialize (Cfe Waiting). specialize (Cdi Waiting).
      simpl in Cex, Cfe, Cdi.
      constructor; cbn [workers pool_size que coord n_enqueued_trials store set_worker set_store];
        rewrite ?allocated_app, ?Hal2, ?app_nil_r; try done.
      * by rewrite length_insert.
      * destruct (coord st); simpl in Hphase |- *; lia.
      * intros Hp. apply Hfifo. lia.
      * lia.
      * rewrite Hcs2, Hcalls. by rewrite <- app_assoc.
      * by rewrite Hn.
      * intros tid' Htid. rewrite Hn in Htid.
        destruct (Htrials tid' Htid) as [Hf|[Hin'|Hd]].
        -- left. by apply Hfin.
        -- destruct (decide (tid' = tid)) as [->|Hne].
           ++ left. by apply (Hret t).
           ++ right. left. eapply elem_of_insert_other; [done|done|congruence].
        -- right. right. lia.
      * intros tid' Hin'. rewrite Hn.
        apply elem_of_insert_inv in Hin' as [[=]|Hin']. by apply Hintr.
    + specialize (Cex (Died e)). specialize (Cfe (Died e)). specialize (Cdi (Died e)).
      simpl in Cex, Cfe, Cdi.
      constructor; cbn [workers pool_size que coord n_enqueued_trials store set_worker set_store];
        rewrite ?allocated_app, ?Hal2, ?app_nil_r; try done.
      * by rewrite length_insert.
      * destruct (coord st); simpl in Hphase |- *; lia.
      * intros Hp. apply Hfifo. lia.
      * lia.
      * rewrite Hcs2, Hcalls. by rewrite <- app_assoc.
      * by rewrite Hn.
      * intros tid' Htid. rewrite Hn in Htid.
        destruct (Htrials tid' Htid) as [Hf|[Hin'|Hd]].
        -- left. by apply Hfin.
        -- right. right. lia.
        -- right. right. lia.
      * intros tid' Hin'. rewrite Hn.
        apply elem_of_insert_inv in Hin' as [[=]|Hin']. by apply Hintr.
Qed.

End ParallelInvariant.

Section ParallelRuns.
Context `{Runtime}.
Variable self : Study.
Variable func : ObjectiveFuncType.
Variable catch : list exc_class.
Variable N : Z.
Variable s0 : Storage.

Lemma pinv_step st st' a b cs :
  pinv N s0 st a b cs ->
  steps_to self func (Some N) None catch st st' ->
  exists a' b' cs', pinv N s0 st' a' b' cs'.
Proof.
  intros Hinv [[|i] Hstep]; simpl in Hstep.
  - destruct (pinv_coordinator N s0 st st' a b cs Hinv Hstep) as (a' & b' & Hinv').
    by exists a', b', cs.
  - by eapply pinv_worker.
Qed.

Lemma pinv_reachable st st' :
  reachable self func (Some N) None catch st st' ->
  (exists a b cs, pinv N s0 st a b cs) ->
  exists a b cs, pinv N s0 st' a b cs.
Proof.
  induction 1 as [|st st1 st' Hstep _ IH]; [done|].
  intros (a & b & cs & Hinv). apply IH. by eapply pinv_step.
Qed.

Hypothesis all_classified : forall trial s, classified catch (func trial s) = true.

Lemma join_raise_died ws e : join ws = Some (Raise e) -> (0 < count is_died ws)%nat.
Proof.
  induction ws as [|w ws IH]; simpl; [discriminate|].
  destruct w; simpl; try discriminate; intros Hj; [apply IH in Hj|]; lia.
Qed.

Lemma plive_step st st' a b cs :
  pinv N s0 st a b cs -> plive (study_id self) st ->
  steps_to self func (Some N) None catch st st' ->
  plive (study_id self) st'.
Proof.
  intros Hinv [Hwf Hstudy Hdied Hcoord] [[|i] Hstep]; simpl in Hstep.
  - unfold coordinator_step in Hstep.
    destruct (coord st) as [|[|k]| | |e] eqn:Hc; try discriminate.
    + destruct (n_enqueued_trials st >=? N).
      * injection Hstep as <-. by constructor.
      * destruct (put_nowait _ _ _); injection Hstep as <-; constructor; simpl;
          rewrite ?Hc; done.
    + injection Hstep as <-. by constructor.
    + destruct (put_nowait _ _ _); [|discriminate]. injection Hstep as <-. by constructor.
    + destruct (join (workers st)) as [[[]|e]|] eqn:Hj; [| |discriminate].
      * injection Hstep as <-. by constructor.
      * apply join_raise_died in Hj. lia.
  - unfold func_child_thread in Hstep.
    destruct (workers st !! i) as [w|] eqn:Hl; [|discriminate]. cbn [mbind option_bind] in Hstep.
    pose proof (fun w' => count_insert is_died (workers st) i w w' Hl) as Cdi.
    destruct w as [| |tid| |e]; try discriminate.
    + destruct (que st) as [|[] q]; [discriminate| |]; injection Hstep as <-.
      * specialize (Cdi Fetched). simpl in Cdi.
        constructor; cbn [workers store coord set_worker set_que set_store]; try done; [|lia].
        intros tid Hin. apply elem_of_insert_inv in Hin as [[=]|Hin]. by apply Hstudy.
      * specialize (Cdi Exited). simpl in Cdi.
        constructor; cbn [workers store coord set_worker set_que set_store]; try done; [|lia].
        intros tid Hin. apply elem_of_insert_inv in Hin as [[=]|Hin]. by apply Hstudy.
    + set (tid0 := next_trial_id (store st)) in *.
      set (s1 := (create_new_trial_id (study_id self) (store st)).2) in *.
      change (create_new_trial_id (study_id self) (store st)) with (tid0, s1) in Hstep.
      cbv beta iota in Hstep. injection Hstep as <-.
      specialize (Cdi (InTrial tid0)). cbn [is_died] in Cdi.
      constructor; cbn [workers store coord set_worker set_que set_store]; try done.
      * by apply wf_create.
      * intros tid Hin. apply elem_of_insert_inv in Hin as [[= ->]|Hin].
        -- apply study_of_create_new.
        -- unfold s1. rewrite study_of_create_old; [by apply Hstudy|].
           by apply (inv_intrial _ _ _ _ _ _ Hinv).
      * lia.
    + assert (Hin : InTrial tid ∈ workers st) by (by eapply list_elem_of_lookup_2).
      pose proof (inv_intrial _ _ _ _ _ _ Hinv tid Hin) as Hlt.
      destruct (run_allocated_frame self func catch tid (store st) Hlt)
        as ((_ & _ & _ & Hst & Hw) & _).
      pose proof (run_allocated_returns self func catch tid (store st) Hlt Hwf
                    (Hstudy tid Hin) (all_classified _ _)) as Hret.
      destruct (run_allocated self func catch tid (store st)) as [s' r].
      cbn [fst snd] in *. subst r. injection Hstep as <-.
      specialize (Cdi Waiting). simpl in Cdi.
      constructor; cbn [workers store coord set_worker set_que set_store]; try done.
      * by apply Hw.
      * intros tid' Hin'. apply elem_of_insert_inv in Hin' as [[=]|Hin'].
        rewrite Hst. by apply Hstudy.
      * lia.
Qed.

Lemma plive_reachable st st' :
  reachable self func (Some N) None catch st st' ->
  (exists a b cs, pinv N s0 st a b cs) -> plive (study_id self) st ->
  plive (study_id self) st'.
Proof.
  induction 1 as [|st st1 st' Hstep _ IH]; [done|].
  intros (a & b & cs & Hinv) Hlive. apply IH.
  - by eapply pinv_step.
  - by eapply plive_step.
Qed.

Lemma que_empty a b : repeat true a ++ repeat false b = [] -> a = 0%nat /\ b = 0%nat.
Proof. destruct a, b; simpl; try discriminate. done. Qed.

(** Unless the scheduler has returned, some thread can take a turn that
    leaves less work. *)
Lemma progress st a b cs :
  pinv N s0 st a b cs -> plive (study_id self) st -> coord st <> Returned ->
  exists act st',
    step self func (Some N) None catch act st = Some st' /\
    (work_left N st' < work_left N st)%nat.
Proof.
  intros Hinv Hlive Hnr.
  pose proof Hinv as [Hpool Hpos Hque Hphase Hfifo Henq Hseed Hlim _ _ _ _ Hintr].
  pose proof Hlive as [Hwf Hstudy Hdied Hcoord].
  destruct (decide (0 < count is_intrial (workers st))%nat) as [Hit|Hit].
  { apply count_pos in Hit as (i & [| |tid| |e] & Hl & Hw); try discriminate.
    exists (Worker i). simpl. unfold func_child_thread. rewrite Hl. cbn [mbind option_bind].
    assert (Hin : InTrial tid ∈ workers st) by (by eapply list_elem_of_lookup_2).
    pose proof (run_allocated_returns self func catch tid (store st) (Hintr tid Hin) Hwf
                  (Hstudy tid Hin) (all_classified _ _)) as Hret.
    destruct (run_allocated self func catch tid (store st)) as [s' r].
    cbn [snd] in Hret. subst r. eexists. split; [reflexivity|].
    pose proof (count_insert is_fetched (workers st) i _ Waiting Hl) as Cfe.
    pose proof (count_insert is_intrial (workers st) i _ Waiting Hl) as Cit.
    simpl in Cfe, Cit. unfold work_left. simpl. lia. }
  destruct (decide (0 < count is_fetched (workers st))%nat) as [Hfe|Hfe].
  { apply count_pos in Hfe as (i & [| |tid| |e] & Hl & Hw); try discriminate.
    exists (Worker i). simpl. unfold func_child_thread. rewrite Hl. cbn [mbind option_bind].
    set (tid0 := next_trial_id (store st)).
    set (s1 := (create_new_trial_id (study_id self) (store st)).2).
    change (create_new_trial_id (study_id self) (store st)) with (tid0, s1).
    cbv beta iota. eexists. split; [reflexivity|].
    pose proof (count_insert is_fetched (workers st) i _ (InTrial tid0) Hl) as Cfe.
    pose proof (count_insert is_intrial (workers st) i _ (InTrial tid0) Hl) as Cit.
    cbn [is_fetched is_intrial] in Cfe, Cit. unfold work_left.
    cbn [workers que coord n_enqueued_trials pool_size set_worker set_store]. lia. }
  destruct (que st) as [|tok q] eqn:Hq.
  - (* the queue is empty: the coordinator moves *)
    symmetry in Hque. apply que_empty in Hque as [-> ->].
    exists Coordinator. simpl. unfold coordinator_step.
    destruct (coord st) as [|[|k]| | |e] eqn:Hc.
    + destruct (Z.geb_spec (n_enqueued_trials st) N) as [Hge|Hlt].
      * eexists. split; [reflexivity|]. unfold work_left. simpl. rewrite Hq, Hc. simpl. lia.
      * unfold put_nowait. rewrite Hq. simpl.
        destruct (decide (0 < pool_size st)%nat) as [_|Hn]; [|lia].
        eexists. split; [reflexivity|]. unfold work_left. simpl. rewrite Hq, Hc. simpl. lia.
    + eexists. split; [reflexivity|]. unfold work_left. simpl. rewrite Hc. simpl. lia.
    + unfold put_nowait. rewrite Hq. simpl.
      destruct (decide (0 < pool_size st)%nat) as [_|Hn]; [|lia]. simpl.
      eexists. split; [reflexivity|]. unfold work_left. simpl. rewrite Hq, Hc. simpl. lia.
    + destruct Hphase as [Hsum _]. simpl in Hsum.
      rewrite (join_all_exited (workers st)) by lia. simpl.
      eexists. split; [reflexivity|]. unfold work_left. simpl. rewrite Hc. simpl. lia.
    + done.
    + by destruct (Hcoord e).
  - (* a token waits: a waiting worker takes it *)
    assert (Hw : (0 < count is_waiting (workers st))%nat).
    { pose proof (count_partition (workers st)) as Hpart.
      destruct (decide (0 < count is_waiting (workers st))%nat) as [|Hnw]; [done|].
      exfalso.
      assert (Hex : count is_exited (workers st) = pool_size st) by lia.
      assert (a = 0%nat) as -> by (apply Hfifo; lia).
      assert (b = 0%nat) as ->.
      { destruct (coord st) as [|k| | |e]; simpl in Hphase; lia. }
      discriminate Hque. }
    apply count_pos in Hw as (i & [| |tid| |e] & Hl & Hw); try discriminate.
    exists (Worker i). simpl. unfold func_child_thread. rewrite Hl, Hq. cbn [mbind option_bind].
    pose proof (count_insert is_fetched (workers st) i Waiting) as Cfe.
    pose proof (count_insert is_intrial (workers st) i Waiting) as Cit.
    destruct tok; (eexists; split; [reflexivity|]).
    + specialize (Cfe Fetched Hl). specialize (Cit Fetched Hl). simpl in Cfe, Cit.
      unfold work_left. simpl. rewrite Hq. simpl. lia.
    + specialize (Cfe Exited Hl). specialize (Cit Exited Hl). simpl in Cfe, Cit.
      unfold work_left. simpl. rewrite Hq. simpl. lia.
Qed.

(** Every state of the run can be continued until
    [_optimize_parallel] returns. *)
Lemma can_return (n : nat) : forall st,
  (work_left N st < n)%nat ->
  (exists a b cs, pinv N s0 st a b cs) -> plive (study_id self) st ->
  exists st', reachable self func (Some N) None catch st st' /\ coord st' = Returned.
Proof.
  induction n as [|n IH]; intros st Hn (a & b & cs & Hinv) Hlive; [lia|].
  destruct (coord st) eqn:Hc;
    try (destruct (progress st a b cs Hinv Hlive) as (act & st1 & Hstep & Hless);
         [congruence|];
         assert (Hto : steps_to self func (Some N) None catch st st1) by (by exists act);
         destruct (IH st1) as (st' & Hreach & Hret);
           [lia|by eapply pinv_step|by eapply plive_step|];
         exists st'; split; [by eapply rtc_l|done]).
  exists st. split; [apply rtc_refl|done].
Qed.

End ParallelRuns.

Section ParallelTheorem.
Context `{Runtime}.
Variable self : Study.
Variable func : ObjectiveFuncType.
Variable catch : list exc_class.

(** With a limit of zero nothing ever moves. *)
Lemma reachable_no_work n_jobs reads s0 st :
  reachable self func (Some 0) None catch (start (Some 0) n_jobs reads s0) st ->
  st = start (Some 0) n_jobs reads s0.
Proof.
  intros Hr. apply rtc_inv in Hr as [Heq|(st1 & [[|i] Hstep] & _)]; [done| |];
    discriminate Hstep.
Qed.

Lemma new_calls_same s : new_calls s s = [].
Proof. unfold new_calls. apply drop_all. Qed.

Lemma resolve_pos N n_jobs :
  1 <= N -> (1 <= n_jobs \/ (n_jobs = -1 /\ 1 <= cpu_count)) ->
  1 <= resolve_n_jobs (Some N) n_jobs.
Proof.
  intros HN Hj. unfold resolve_n_jobs.
  destruct (Z.eqb_spec n_jobs (-1)); lia.
Qed.

Lemma plive_start N n_jobs reads s0 :
  1 <= N -> 1 <= resolve_n_jobs (Some N) n_jobs -> storage_wf s0 ->
  plive (study_id self) (start (Some N) n_jobs reads s0).
Proof.
  intros HN Hres Hwf. unfold start.
  rewrite bool_decide_eq_false_2 by (intros [= ->]; lia).
  remember (resolve_n_jobs (Some N) n_jobs) as r.
  destruct (Z.ltb_spec r 1); [lia|].
  constructor; cbn [workers store coord]; try done.
  - intros tid Hin. apply list_elem_of_In, repeat_spec in Hin. discriminate.
  - by rewrite count_repeat.
Qed.

End ParallelTheorem.

(** C3: a parallel run with a limit of [N >= 0] trials, no timeout and a
    worker count that is positive or the sentinel [-1] on a host with at
    least one processing unit.  In every state a schedule can reach, the
    identifiers allocated since the start are consecutive fresh ones,
    none twice, and no more than [N]; the counter of enqueued tokens lies
    between the seed count and [N], and every token enqueued is in the
    queue, in a worker's hand or has become one allocated trial.  When
    [_optimize_parallel] returns, exactly [N] trials were allocated and
    all of them are finished.  On a storage whose completed trials have a
    value and with an objective whose invocations are all classified,
    every reachable state can be continued to the return, so that
    [_optimize_parallel] does return. *)
Theorem parallel_runs_N_trials `{Runtime} (self : Study) (func : ObjectiveFuncType)
    (catch : list exc_class) (N n_jobs : Z) (reads : nat) (s0 : Storage) :
  0 <= N ->
  (1 <= n_jobs \/ (n_jobs = -1 /\ 1 <= cpu_count)) ->
  let st0 := start (Some N) n_jobs reads s0 in
  (forall st, reachable self func (Some N) None catch st0 st ->
     let ids := allocated (new_calls s0 (store st)) in
     NoDup ids /\
     ids = seq (next_trial_id s0) (List.length ids) /\
     Z.of_nat (List.length ids) <= N /\
     Z.of_nat (pool_size st) <= n_enqueued_trials st <= N /\
     n_enqueued_trials st =
       Z.of_nat (tokens true (que st) + count is_fetched (workers st) + List.length ids)) /\
  (forall st, _optimize_parallel self func (Some N) None catch n_jobs reads s0 st ->
     let ids := allocated (new_calls s0 (store st)) in
     Z.of_nat (List.length ids) = N /\
     forall tid, tid ∈ ids -> finished tid (store st)) /\
  (storage_wf s0 ->
   (forall trial s, classified catch (func trial s) = true) ->
   (forall st, reachable self func (Some N) None catch st0 st ->
      exists st', reachable self func (Some N) None catch st st' /\ coord st' = Returned) /\
   exists st, _optimize_parallel self func (Some N) None catch n_jobs reads s0 st).
Proof.
  intros HN Hjobs st0.
  assert (Hsafe : forall st, reachable self func (Some N) None catch st0 st ->
     let ids := allocated (new_calls s0 (store st)) in
     NoDup ids /\
     ids = seq (next_trial_id s0) (List.length ids) /\
     Z.of_nat (List.length ids) <= N /\
     Z.of_nat (pool_size st) <= n_enqueued_trials st <= N /\
     n_enqueued_trials st =
       Z.of_nat (tokens true (que st) + count is_fetched (workers st) + List.length ids) /\
     (coord st = Returned ->
        Z.of_nat (List.length ids) = N /\
        forall tid, tid ∈ ids -> finished tid (store st))).
  { destruct (decide (N = 0)) as [->|HN0].
    { intros st Hr. apply reachable_no_work in Hr as ->.
      cbn [store start]. rewrite new_calls_same. simpl.
      split; [constructor|]. repeat split; try lia. intros tid Htid.
      by apply not_elem_of_nil in Htid. }
    assert (HN1 : 1 <= N) by lia.
    pose proof (resolve_pos N n_jobs HN1 Hjobs) as Hres.
    pose proof (pinv_start N s0 n_jobs reads HN1 Hres) as Hinv0.
    intros st Hr.
    destruct (pinv_reachable self func catch N s0 st0 st Hr) as (a & b & cs & Hinv);
      [by eauto|].
    destruct Hinv as [Hpool Hpos Hque Hphase Hfifo Henq Hseed Hlim Hcalls Hids Hnext
                      Htrials Hintr].
    rewrite (new_calls_app s0 (store st) cs Hcalls).
    rewrite Hque, tokens_que.
    split; [rewrite Hids; apply NoDup_seq|].
    split; [done|]. split; [lia|]. split; [lia|]. split; [done|].
    intros Hret. rewrite Hret in Hphase. destruct Hphase as (-> & Hex & HenqN).
    pose proof (count_partition (workers st)) as Hpart.
    assert (a = 0%nat) as -> by (apply Hfifo; lia).
    split; [lia|].
    intros tid Htid. rewrite Hids in Htid. apply elem_of_seq in Htid.
    destruct (Htrials tid) as [Hf|[Hin|Hd]]; [lia|done| |lia].
    apply (count_elem is_intrial) in Hin; [lia|done]. }
  assert (Hlive : storage_wf s0 ->
     (forall trial s, classified catch (func trial s) = true) ->
     forall st, reachable self func (Some N) None catch st0 st ->
       exists st', reachable self func (Some N) None catch st st' /\ coord st' = Returned).
  { intros Hwf Hcl st Hr. destruct (decide (N = 0)) as [->|HN0].
    { exists st. split; [apply rtc_refl|]. by apply reachable_no_work in Hr as ->. }
    assert (HN1 : 1 <= N) by lia.
    pose proof (resolve_pos N n_jobs HN1 Hjobs) as Hres.
    pose proof (pinv_start N s0 n_jobs reads HN1 Hres) as Hinv0.
    apply (can_return self func catch N s0 Hcl (S (work_left N st))); [lia| |].
    + eapply pinv_reachable; [exact Hr|by eauto].
    + eapply plive_reachable; [done|exact Hr|by eauto|].
      by apply plive_start. }
  split; [|split].
  - intros st Hr. destruct (Hsafe st Hr) as (? & ? & ? & ? & ? & _). auto.
  - intros st [Hr Hret]. destruct (Hsafe st Hr) as (_ & _ & _ & _ & _ & Hdone). auto.
  - intros Hwf Hcl. split; [by apply Hlive|].
    destruct (Hlive Hwf Hcl st0) as (st & Hr & Hret); [apply rtc_refl|].
    exists st. by split.
Qed.

Lemma parallel_runs_N_trials_witness :
  let ids st := allocated (new_calls demo_storage (store st)) in
  (forall st,
     @_optimize_parallel demo_runtime demo_study (fun _ _ => Returns (VInt 1)) (Some 3) None
       [Exception] 2 0 demo_storage st ->
     Z.of_nat (List.length (ids st)) = 3 /\ NoDup (ids st)) /\
  exists st,
    @_optimize_parallel demo_runtime demo_study (fun _ _ => Returns (VInt 1)) (Some 3) None
      [Exception] 2 0 demo_storage st.
Proof.
  destruct (@parallel_runs_N_trials demo_runtime demo_study (fun _ _ => Returns (VInt 1))
              [Exception] 3 2 0 demo_storage) as (Hsafe & Hret & Hlive).
  - lia.
  - left. lia.
  - split.
    + intros st Hrun. split; [by apply Hret|].
      destruct Hrun as [Hr _]. by destruct (Hsafe st Hr) as (Hnd & _).
    + apply Hlive.
      * constructor.
      * intros trial s. reflexivity.
Defined.

(** One schedule of two workers and three trials, played to the end. *)
Example parallel_schedule_demo :
  let st := @play demo_runtime demo_study (fun _ _ => Returns (VInt 1)) (Some 3) None
              [Exception]
              [Worker 0; Worker 1; Coordinator; Worker 0; Worker 1; Worker 0; Worker 1;
               Coordinator; Worker 1; Worker 1; Worker 1; Coordinator; Coordinator;
               Coordinator; Worker 0; Worker 1; Coordinator]
              (@start demo_runtime (Some 3) 2 0 demo_storage) in
  coord st = Returned /\
  allocated (new_calls demo_storage (store st)) = [0; 1; 2]%nat /\
  state_of 0 (store st) = Some COMPLETE /\
  state_of 1 (store st) = Some COMPLETE /\
  state_of 2 (store st) = Some COMPLETE.
Proof. vm_compute. repeat split. Qed.

(* ===================================================================== *)
(** * The tabular export                                                  *)
(* ===================================================================== *)

Section ColumnOrder.

Lemma str_lt_trans a b c : str_lt a b -> str_lt b c -> str_lt a c.
Proof. apply (@StrictOrder_Transitive _ _ OrdersEx.String_as_OT.lt_strorder). Qed.

Lemma str_lt_irrefl a : ~ str_lt a a.
Proof. apply (@StrictOrder_Irreflexive _ _ OrdersEx.String_as_OT.lt_strorder). Qed.

Lemma str_trichotomy a b : str_lt a b \/ a = b \/ str_lt b a.
Proof.
  destruct (OrdersEx.String_as_OT.compare_spec a b) as [Heq|Hlt|Hgt]; auto.
Qed.

#[global] Instance key_le_trans : Transitive key_le.
Proof.
  intros [x|x] [y|y] [z|z]; simpl; try tauto; try lia.
  intros [->|Hxy] [->|Hyz]; auto. right. by eapply str_lt_trans.
Qed.

#[global] Instance key_le_total : Total key_le.
Proof.
  intros [x|x] [y|y]; simpl; try tauto; try lia.
  destruct (str_trichotomy x y) as [?|[?|?]]; auto.
Qed.

Lemma key_le_antisym a b : key_le a b -> key_le b a -> a = b.
Proof.
  destruct a as [x|x], b as [y|y]; simpl; try tauto.
  - intros [->|Hxy] [Heq|Hyx]; try done; try congruence.
    destruct (str_lt_irrefl x). by eapply str_lt_trans.
  - intros Hxy Hyx. f_equal. lia.
Qed.

#[global] Instance col_le_trans : Transitive col_le.
Proof.
  intros [f1 k1] [f2 k2] [f3 k3]. unfold col_le. simpl.
  intros [H12|[-> H12]] [H23|[-> H23]]; auto.
  - left. by eapply str_lt_trans.
  - right. split; [done|]. by etrans.
Qed.

#[global] Instance col_le_total : Total col_le.
Proof.
  intros [f1 k1] [f2 k2]. unfold col_le. simpl.
  destruct (str_trichotomy f1 f2) as [?|[->|?]]; auto.
  destruct (total key_le k1 k2); auto.
Qed.

Lemma col_le_antisym a b : col_le a b -> col_le b a -> a = b.
Proof.
  destruct a as [f1 k1], b as [f2 k2]. unfold col_le. simpl.
  intros [H12|[E12 H12]] [H21|[E21 H21]]; subst.
  - exfalso. eapply str_lt_irrefl, str_lt_trans; eauto.
  - exfalso. eapply str_lt_irrefl; eauto.
  - exfalso. eapply str_lt_irrefl; eauto.
  - f_equal. by apply key_le_antisym.
Qed.

#[global] Instance col_le_antisymm : AntiSymm (=) col_le.
Proof. intros a b. apply col_le_antisym. Qed.

End ColumnOrder.

Section ExportFacts.
Variable _fields : list string.
Variable internal_fields : list string.
Variable getattr : FrozenTrial -> string -> field_value.

Lemma elem_of_pyset_add (x c : column) (s : pyset) :
  x ∈ pyset_add c s <-> x ∈ s \/ x = c.
Proof.
  unfold pyset_add. case_bool_decide as Hc.
  - split; [by left|]. by intros [?| ->].
  - by rewrite elem_of_app, list_elem_of_singleton.
Qed.

Lemma NoDup_pyset_add (c : column) (s : pyset) : NoDup s -> NoDup (pyset_add c s).
Proof.
  intros Hnd. unfold pyset_add. case_bool_decide as Hc; [done|].
  apply NoDup_app. split; [done|]. split; [|apply NoDup_singleton].
  intros x Hx Hx'. by apply list_elem_of_singleton in Hx' as ->.
Qed.

Lemma agg_get_add f c agg f' :
  agg_get f' (agg_add f c agg) =
  if decide (f = f') then pyset_add c (agg_get f agg) else agg_get f' agg.
Proof.
  unfold agg_get at 1. unfold agg_add. destruct (decide (f = f')) as [->|Hne].
  - by rewrite lookup_insert_eq.
  - by rewrite lookup_insert_ne.
Qed.

(** The sets of the aggregator hold each member once. *)
Lemma agg_add_nodup f c agg :
  (forall k, NoDup (agg_get k agg)) -> forall k, NoDup (agg_get k (agg_add f c agg)).
Proof.
  intros Hnd k. rewrite agg_get_add. destruct (decide (f = k)); [|done].
  by apply NoDup_pyset_add.
Qed.

Lemma fold_items_nodup f (l : list (key * Py.value)) : forall record agg,
  (forall k, NoDup (agg_get k agg)) ->
  forall k, NoDup (agg_get k (foldl (add_item f) (record, agg) l).2).
Proof.
  induction l as [|[k0 v] l IH]; intros record agg Hnd; cbn [foldl]; [done|].
  apply IH. by apply agg_add_nodup.
Qed.

Lemma add_field_nodup item record agg :
  (forall k, NoDup (agg_get k agg)) ->
  forall k, NoDup (agg_get k (add_field internal_fields (record, agg) item).2).
Proof.
  intros Hnd. destruct item as [f [v|d]]; unfold add_field; case_bool_decide; try done.
  - unfold add_item. cbn [fst snd]. by apply agg_add_nodup.
  - by apply fold_items_nodup.
Qed.

Lemma fold_fields_nodup (items : list (string * field_value)) : forall record agg,
  (forall k, NoDup (agg_get k agg)) ->
  forall k, NoDup (agg_get k (foldl (add_field internal_fields) (record, agg) items).2).
Proof.
  induction items as [|item items IH]; intros record agg Hnd; cbn [foldl]; [done|].
  pose proof (add_field_nodup item record agg Hnd) as Hnd1.
  destruct (add_field internal_fields (record, agg) item) as [record1 agg1].
  by apply IH.
Qed.

(** The inner loop, lines 209-211. *)
Lemma fold_items f (l : list (key * Py.value)) : forall record agg,
  NoDup l.*1 ->
  let r := foldl (add_item f) (record, agg) l in
  (forall c, r.1 !! c =
             match (if decide (c.1 = f) then (list_to_map l : gmap key Py.value) !! c.2
                    else None) with
             | Some v => Some v
             | None => record !! c
             end) /\
  (forall f' c, c ∈ agg_get f' r.2 <->
                c ∈ agg_get f' agg \/ (f' = f /\ c.1 = f /\ c.2 ∈ l.*1)).
Proof.
  induction l as [|[k v] l IH]; intros record agg Hnd; cbn [foldl fmap list_fmap].
  - split.
    + intros c. simpl. by destruct (decide (c.1 = f)).
    + intros f' c. simpl. split; [by left|]. intros [?|(_ & _ & Hin)]; [done|].
      by apply elem_of_nil in Hin.
  - apply NoDup_cons in Hnd as [Hk Hnd].
    destruct (IH (<[(f, k) := v]> record) (agg_add f (f, k) agg) Hnd) as [Hrec Hagg].
    split.
    + intros [f' k']. rewrite Hrec. cbn [fst snd list_to_map foldr].
      destruct (decide (f' = f)) as [->|Hne].
      * destruct (decide (k' = k)) as [->|Hnk].
        -- rewrite (not_elem_of_list_to_map_1 _ _ Hk). simpl.
           by rewrite !lookup_insert_eq.
        -- rewrite (lookup_insert_ne (list_to_map l)) by done.
           destruct (list_to_map l !! k'); [done|].
           rewrite lookup_insert_ne; [done|congruence].
      * rewrite lookup_insert_ne; [done|congruence].
    + intros f' c. rewrite Hagg, agg_get_add.
      destruct (decide (f = f')) as [->|Hne].
      * rewrite elem_of_pyset_add, elem_of_cons. simpl.
        split.
        -- intros [[?| ->]|(? & ? & ?)]; auto.
        -- intros [?|(? & ? & [Heq|?])]; auto.
           left. right. destruct c as [cf ck]. simpl in *. by subst.
      * rewrite elem_of_cons. split.
        -- intros [?|(? & ? & ?)]; auto.
        -- intros [?|(? & ? & ?)]; auto. congruence.
Qed.

(** One field of one trial, lines 205-214. *)
Lemma add_field_spec t f record agg :
  let r := add_field internal_fields (record, agg) (f, getattr t f) in
  (forall c, r.1 !! c =
             match (if decide (c.1 = f /\ f ∉ internal_fields) then field_cell getattr t c
                    else None) with
             | Some v => Some v
             | None => record !! c
             end) /\
  (forall f' c, c ∈ agg_get f' r.2 <->
                c ∈ agg_get f' agg \/
                (f' = f /\ (f ∉ internal_fields) /\ c.1 = f /\ is_Some (field_cell getattr t c))).
Proof.
  unfold add_field. destruct (decide (f ∈ internal_fields)) as [Hint|Hint].
  - rewrite bool_decide_eq_true_2 by done. split.
    + intros c. destruct (decide _) as [[_ ?]|_]; done.
    + intros f' c. split; [by left|]. intros [?|(_ & ? & _)]; done.
  - rewrite bool_decide_eq_false_2 by done.
    destruct (getattr t f) as [v|d] eqn:Hg.
    + unfold add_item. cbn [fst snd]. split.
      * intros [f' k']. unfold field_cell. cbn [fst snd].
        destruct (decide (f' = f /\ f ∉ internal_fields)) as [[-> _]|Hn].
        -- rewrite Hg. destruct (decide (k' = non_nested_field)) as [->|Hk].
           ++ case_bool_decide; [|done]. by rewrite lookup_insert_eq.
           ++ case_bool_decide; [done|].
              rewrite lookup_insert_ne; [done|congruence].
        -- rewrite lookup_insert_ne; [done|]. intros [= E1 E2]. apply Hn. by split.
      * intros f' [cf ck]. rewrite agg_get_add. unfold field_cell. cbn [fst snd].
        destruct (decide (f = f')) as [->|Hne].
        -- rewrite elem_of_pyset_add. split.
           ++ intros [?|[= -> ->]]; [by left|]. right. rewrite Hg.
              case_bool_decide; [eauto|done].
           ++ intros [?|(_ & _ & -> & Hs)]; [by left|]. right.
              rewrite Hg in Hs. case_bool_decide as Hk; [by subst|]. by destruct Hs.
        -- split; [by left|]. intros [?|(? & _)]; [done|congruence].
    + destruct (fold_items f (map_to_list d) record agg) as [Hrec Hagg].
      { apply NoDup_fst_map_to_list. }
      split.
      * intros c. rewrite Hrec. unfold field_cell. rewrite list_to_map_to_list.
        destruct (decide (c.1 = f)) as [Hc|Hc].
        -- rewrite decide_True by done. by rewrite Hc, Hg.
        -- rewrite decide_False by tauto. done.
      * intros f' c. rewrite Hagg. unfold field_cell.
        split; (intros [?|Hr]; [by left|right]).
        -- destruct Hr as (-> & Hc & Hin). repeat split; try done.
           rewrite Hc, Hg. apply list_elem_of_fmap in Hin as ([k v] & -> & Hin).
           apply elem_of_map_to_list in Hin. simpl. eauto.
        -- destruct Hr as (-> & _ & Hc & Hs). repeat split; try done.
           rewrite Hc, Hg in Hs. destruct Hs as [v Hv].
           apply list_elem_of_fmap. exists (c.2, v). split; [done|].
           by apply elem_of_map_to_list.
Qed.

(** All the fields of one trial, lines 205-214 for the whole of
    [trial_dict]. *)
Lemma fold_fields t (fs : list string) : forall record agg,
  let r := foldl (add_field internal_fields) (record, agg)
                 (map (fun f => (f, getattr t f)) fs) in
  (forall c, r.1 !! c =
             match (if decide (c.1 ∈ fs /\ c.1 ∉ internal_fields) then field_cell getattr t c
                    else None) with
             | Some v => Some v
             | None => record !! c
             end) /\
  (forall f' c, c ∈ agg_get f' r.2 <->
                c ∈ agg_get f' agg \/
                (f' ∈ fs /\ (f' ∉ internal_fields) /\ c.1 = f' /\
                 is_Some (field_cell getattr t c))).
Proof.
  induction fs as [|f fs IH]; intros record agg; cbn [foldl map].
  - split.
    + intros c. destruct (decide _) as [[Hin _]|_]; [|done]. by apply elem_of_nil in Hin.
    + intros f' c. split; [by left|]. intros [?|(Hin & _)]; [done|].
      by apply elem_of_nil in Hin.
  - destruct (add_field_spec t f record agg) as [Hrec1 Hagg1].
    destruct (add_field internal_fields (record, agg) (f, getattr t f)) as [record1 agg1].
    cbn [fst snd] in Hrec1, Hagg1.
    destruct (IH record1 agg1) as [Hrec Hagg]. split.
    + intros c. rewrite Hrec, Hrec1.
      destruct (decide (c.1 ∈ fs /\ c.1 ∉ internal_fields)) as [[Hin Hni]|Hn].
      * rewrite (decide_True (P := c.1 ∈ f :: fs /\ _)) by (split; [by right|done]).
        destruct (field_cell getattr t c); [done|]. by destruct (decide _).
      * destruct (decide (c.1 = f /\ f ∉ internal_fields)) as [[Hc Hni]|Hn'].
        -- rewrite decide_True; [done|]. split; [rewrite Hc; left|by rewrite Hc].
        -- rewrite decide_False; [done|]. intros [Hin Hni].
           apply elem_of_cons in Hin as [Hc|Hin]; [|tauto].
           apply Hn'. split; [done|by rewrite <- Hc].
    + intros f' c. rewrite Hagg, Hagg1. rewrite elem_of_cons. split.
      * intros [[?|(-> & ? & ? & ?)]|(? & ? & ? & ?)]; auto 10.
      * intros [?|([ ->|?] & ? & ? & ?)]; auto 10.
Qed.

End ExportFacts.

Section ExportTable.
Variable _fields : list string.
Variable internal_fields : list string.
Variable getattr : FrozenTrial -> string -> field_value.
Variable type_error_text : pyset -> string.

Lemma expected_cell_Some t c :
  is_Some (expected_cell _fields internal_fields getattr t c) <->
  c.1 ∈ _fields /\ (c.1 ∉ internal_fields) /\ is_Some (field_cell getattr t c).
Proof.
  unfold expected_cell. case_bool_decide as Hd.
  - tauto.
  - split; [by intros [? ?]|]. intros (? & ? & _). tauto.
Qed.

Lemma add_trial_unfold records agg t :
  add_trial _fields internal_fields getattr (records, agg) t =
  (records ++ [(foldl (add_field internal_fields) (∅, agg)
                      (map (fun f => (f, getattr t f)) _fields)).1],
   (foldl (add_field internal_fields) (∅, agg)
          (map (fun f => (f, getattr t f)) _fields)).2).
Proof.
  unfold add_trial, _asdict. cbn [fst snd].
  by destruct (foldl (add_field internal_fields) (∅, agg) _).
Qed.

(** The outer loop, lines 201-215. *)
Lemma fold_trials (trials : list FrozenTrial) : forall records agg,
  let r := foldl (add_trial _fields internal_fields getattr) (records, agg) trials in
  (exists news,
     r.1 = records ++ news /\
     Forall2 (fun t (rec : gmap column Py.value) =>
                forall c, rec !! c = expected_cell _fields internal_fields getattr t c)
             trials news) /\
  (forall f' c, c ∈ agg_get f' r.2 <->
                c ∈ agg_get f' agg \/
                (c.1 = f' /\ exists t, t ∈ trials /\
                   is_Some (expected_cell _fields internal_fields getattr t c))).
Proof.
  induction trials as [|t trials IH]; intros records agg; cbn [foldl].
  - split.
    + exists []. by rewrite app_nil_r.
    + intros f' c. split; [by left|]. intros [?|(_ & t & Hin & _)]; [done|].
      by apply elem_of_nil in Hin.
  - rewrite add_trial_unfold.
    destruct (fold_fields internal_fields getattr t _fields ∅ agg) as [Hrec Hagg].
    destruct (foldl (add_field internal_fields) (∅, agg)
                    (map (fun f => (f, getattr t f)) _fields)) as [record agg1].
    cbn [fst snd] in Hrec, Hagg |- *.
    destruct (IH (records ++ [record]) agg1) as [(news & Hnews & Hall) Hagg'].
    split.
    + exists (record :: news). split; [by rewrite Hnews, <- app_assoc|].
      constructor; [|done]. intros c. rewrite Hrec. unfold expected_cell.
      rewrite lookup_empty. case_bool_decide; [rewrite decide_True by done|
                                               rewrite decide_False by done]; [|done].
      by destruct (field_cell getattr t c).
    + intros f' c. rewrite Hagg', Hagg. split.
      * intros [[?|(Hf & Hni & Hc & Hs)]|(Hc & t' & Hin & Hs)]; [by left| |].
        -- right. split; [done|]. exists t. split; [left|].
           apply expected_cell_Some. by rewrite Hc.
        -- right. split; [done|]. exists t'. split; [by right|done].
      * intros [?|(Hc & t' & Hin & Hs)]; [by left; left|].
        apply elem_of_cons in Hin as [->|Hin].
        -- left. right. apply expected_cell_Some in Hs as (? & ? & ?).
           by rewrite <- Hc.
        -- right. eauto.
Qed.

Lemma fold_trials_nodup (trials : list FrozenTrial) : forall records agg,
  (forall k, NoDup (agg_get k agg)) ->
  forall k,
    NoDup (agg_get k (foldl (add_trial _fields internal_fields getattr)
                            (records, agg) trials).2).
Proof.
  induction trials as [|t trials IH]; intros records agg Hnd; cbn [foldl]; [done|].
  rewrite add_trial_unfold. apply IH. by apply fold_fields_nodup.
Qed.

Lemma agg_get_empty k : agg_get k ∅ = [].
Proof. unfold agg_get. by rewrite lookup_empty. Qed.

Lemma sum_sorted_spec agg (ks : list string) :
  (forall k, k ∈ ks -> comparable (agg_get k agg) = true) ->
  sum_sorted type_error_text agg ks =
  Ret (concat (map (fun k => merge_sort col_le (agg_get k agg)) ks)).
Proof.
  induction ks as [|k ks IH]; intros Hcmp; [reflexivity|].
  cbn [sum_sorted map concat]. unfold sorted at 1.
  rewrite (Hcmp k) by left. rewrite IH; [reflexivity|].
  intros k' Hk'. apply Hcmp. by right.
Qed.

Lemma elem_of_concat (c : column) (ls : list (list column)) :
  c ∈ concat ls <-> exists l, c ∈ l /\ l ∈ ls.
Proof.
  induction ls as [|l ls IH]; cbn [concat].
  - split; [intros Hc; by apply elem_of_nil in Hc|].
    intros (l & _ & Hl). by apply elem_of_nil in Hl.
  - rewrite elem_of_app, IH. split.
    + intros [Hc|(l' & Hc & Hl')]; [exists l; split; [done|left]|].
      exists l'. split; [done|by right].
    + intros (l' & Hc & Hl'). apply elem_of_cons in Hl' as [->|Hl']; [by left|].
      right. eauto.
Qed.

Lemma NoDup_groups (fs : list string) (groups : list (list column)) :
  NoDup fs ->
  Forall2 (fun f g => (forall c : column, c ∈ g -> c.1 = f) /\ NoDup g) fs groups ->
  NoDup (concat groups).
Proof.
  intros Hnd Hall. induction Hall as [|f g fs groups [Hf Hg] Hall IH]; [constructor|].
  apply NoDup_cons in Hnd as [Hnotin Hnd]. cbn [concat].
  apply NoDup_app. split; [done|]. split; [|by apply IH].
  intros c Hc Hc'. apply Hf in Hc. apply Hnotin.
  clear IH Hnd Hnotin Hf Hg. induction Hall as [|f' g' fs groups [Hf' _] Hall IH].
  - by apply elem_of_nil in Hc'.
  - cbn [concat] in Hc'. apply elem_of_app in Hc' as [Hc'|Hc'].
    + rewrite <- Hc, (Hf' c Hc'). left.
    + right. by apply IH.
Qed.

End ExportTable.

(** C9, the failing input: a study without trials.  The loops leave no
    column, [pd.MultiIndex.from_tuples] rejects the empty list of
    columns, and the export raises [TypeError] where a table without rows
    is due. *)
Theorem dataframe_of_no_trial_raises (_fields internal_fields : list string)
    (getattr : FrozenTrial -> string -> field_value) (type_error_text : pyset -> string) :
  trials_dataframe _fields internal_fields getattr type_error_text [] =
  Raise (mk_exc TypeError "Cannot infer number of levels from empty list").
Proof.
  unfold trials_dataframe. cbn [foldl].
  rewrite sum_sorted_spec.
  - cbn [mbind res_bind].
    assert (concat (map (fun k => merge_sort col_le (agg_get k ∅)) _fields) = []) as ->;
      [|reflexivity].
    induction _fields as [|f fs IH]; [reflexivity|].
    cbn [map concat]. by rewrite IH, agg_get_empty.
  - intros k _. by rewrite agg_get_empty.
Qed.

(** X18: the tabular export of a study in which some trial has a value
    under some field that is not internal, on a record whose field names
    are distinct and whose keys under one field are of one kind.  It
    returns a table with one row per trial; the cell of a trial under a
    column is the value of the nested dictionary under [(field, key)],
    the value of a plain field under [(field, '')], and missing
    otherwise; the columns are exactly the keys some trial has a value
    for, none of them of an internal field; they come in groups, one for
    each field in the order of [_fields], each group holding only columns
    of its field, sorted; and no column comes twice. *)
Theorem trials_dataframe_table (_fields internal_fields : list string)
    (getattr : FrozenTrial -> string -> field_value) (type_error_text : pyset -> string)
    (trials : list FrozenTrial) :
  NoDup _fields ->
  keys_comparable _fields internal_fields getattr trials ->
  (exists t c, t ∈ trials /\ is_Some (expected_cell _fields internal_fields getattr t c)) ->
  exists df,
    trials_dataframe _fields internal_fields getattr type_error_text trials = Ret df /\
    List.length (df_rows df) = List.length trials /\
    (forall i t, trials !! i = Some t ->
       df_rows df !! i =
       Some (map (expected_cell _fields internal_fields getattr t) (df_columns df))) /\
    (forall c, c ∈ df_columns df <->
       exists t, t ∈ trials /\ is_Some (expected_cell _fields internal_fields getattr t c)) /\
    (forall c, c ∈ df_columns df -> c.1 ∈ _fields /\ c.1 ∉ internal_fields) /\
    (exists groups,
       df_columns df = concat groups /\
       Forall2 (fun f g => (forall c : column, c ∈ g -> c.1 = f) /\ StronglySorted col_le g)
               _fields groups) /\
    NoDup (df_columns df).
Proof.
  intros Hnd Hcmp (t0 & c0 & Ht0 & Hc0). unfold trials_dataframe.
  destruct (fold_trials _fields internal_fields getattr trials [] ∅)
    as [(news & Hnews & Hall) Hagg].
  pose proof (fold_trials_nodup _fields internal_fields getattr trials [] ∅
                (fun k => eq_ind_r (fun l => NoDup l) (NoDup_nil_2 (A:=column))
                            (agg_get_empty k))) as Hnodup.
  destruct (foldl (add_trial _fields internal_fields getattr) ([], ∅) trials)
    as [records agg].
  cbn [fst snd] in Hnews, Hagg, Hnodup. rewrite app_nil_l in Hnews. subst news.
  assert (Hcol : forall f' c, c ∈ agg_get f' agg <->
            c.1 = f' /\ exists t, t ∈ trials /\
              is_Some (expected_cell _fields internal_fields getattr t c)).
  { intros f' c. rewrite Hagg, agg_get_empty.
    split; [intros [Hin|?]; [by apply elem_of_nil in Hin|done]|by right]. }
  assert (Hgroup : forall f' c,
            c ∈ merge_sort col_le (agg_get f' agg) <-> c ∈ agg_get f' agg).
  { intros f' c. by rewrite merge_sort_Permutation. }
  rewrite sum_sorted_spec.
  2:{ intros k _. unfold comparable. apply orb_true_iff.
      destruct (Hcmp k) as [Hs|Hi]; [left|right]; apply forallb_forall; intros [f kk] Hin;
        apply list_elem_of_In, Hcol in Hin as [Hf (t & Ht & Hsome)];
        simpl in Hf; subst f; simpl; eauto. }
  cbn [mbind res_bind].
  set (groups := map (fun k => merge_sort col_le (agg_get k agg)) _fields).
  assert (Hmem : forall c, c ∈ concat groups <->
            exists t, t ∈ trials /\
              is_Some (expected_cell _fields internal_fields getattr t c)).
  { intros c. rewrite elem_of_concat. split.
    - intros (g & Hc & Hg). apply list_elem_of_fmap in Hg as (k & -> & Hk).
      apply Hgroup, Hcol in Hc. tauto.
    - intros (t & Ht & Hs). exists (merge_sort col_le (agg_get c.1 agg)).
      split; [apply Hgroup, Hcol; eauto|].
      apply list_elem_of_fmap. exists c.1. split; [done|].
      by apply expected_cell_Some in Hs as (? & _). }
  assert (Hgroups : Forall2 (fun f g => (forall c : column, c ∈ g -> c.1 = f) /\
                                        StronglySorted col_le g /\ NoDup g)
                            _fields groups).
  { unfold groups. apply Forall2_fmap_r, Forall_Forall2_diag, Forall_forall.
    intros f _. split; [|split].
    - intros c Hc. by apply Hgroup, Hcol in Hc as [? _].
    - apply StronglySorted_merge_sort; apply _.
    - rewrite merge_sort_Permutation. apply Hnodup. }
  assert (Hindex : from_tuples (concat groups) = Ret (concat groups)).
  { assert (c0 ∈ concat groups) as Hin by (apply Hmem; eauto).
    destruct (concat groups); [by apply elem_of_nil in Hin|reflexivity]. }
  rewrite Hindex.
  eexists. split; [reflexivity|]. unfold make_DataFrame. cbn [df_rows df_columns].
  split; [|split; [|split; [|split; [|split]]]].
  - rewrite length_map. symmetry. by eapply Forall2_length.
  - intros i t Ht. rewrite list_lookup_fmap.
    destruct (Forall2_lookup_l _ _ _ _ _ Hall Ht) as (rec & -> & Hrec). simpl.
    f_equal. apply map_ext. intros c. apply Hrec.
  - exact Hmem.
  - intros c Hc. apply Hmem in Hc as (t & _ & Hs).
    by apply expected_cell_Some in Hs as (? & ? & _).
  - exists groups. split; [done|].
    eapply Forall2_impl; [exact Hgroups|]. simpl. tauto.
  - apply (NoDup_groups _fields); [done|].
    eapply Forall2_impl; [exact Hgroups|]. simpl. tauto.
Qed.

Lemma trials_dataframe_table_witness :
  trials_dataframe demo_fields demo_internal_fields demo_getattr demo_type_error_text
      [demo_trial] =
    Ret (mk_DataFrame [("trial_id", KStr ""); ("params", KStr "x")]
                      [[Some (VInt 0); Some (VInt 1)]]) /\
  exists df,
    trials_dataframe demo_fields demo_internal_fields demo_getattr demo_type_error_text
      [demo_trial] = Ret df /\
    List.length (df_rows df) = 1%nat /\ NoDup (df_columns df).
Proof.
  split; [reflexivity|].
  destruct (trials_dataframe_table demo_fields demo_internal_fields demo_getattr
              demo_type_error_text [demo_trial])
    as (df & Hdf & Hlen & _ & _ & _ & _ & Hnd).
  - apply (bool_decide_unpack (NoDup demo_fields)). vm_compute. exact I.
  - intros f. left. intros t k Ht Hs. apply list_elem_of_singleton in Ht as ->.
    apply expected_cell_Some in Hs as (_ & _ & [v Hv]).
    unfold field_cell, demo_getattr in Hv. cbn [fst snd] in Hv.
    destruct (bool_decide (f = "params")).
    { apply lookup_kmap_Some in Hv as (j & -> & _); [done|apply _]. }
    destruct (bool_decide (f = "params_in_internal_repr")).
    { apply lookup_kmap_Some in Hv as (j & -> & _); [done|apply _]. }
    destruct (bool_decide (k = non_nested_field)) eqn:Hk; [|discriminate].
    apply bool_decide_eq_true in Hk as ->. reflexivity.
  - exists demo_trial, ("trial_id", KStr ""). split; [left|]. by eexists.
  - exists df. split; [exact Hdf|]. split; [exact Hlen|exact Hnd].
Defined.

(* ===================================================================== *)
(** * More on the trial runner                                            *)
(* ===================================================================== *)

Lemma run_trial_returns_iff_witness :
  let r := @_run_trial demo_runtime demo_study (fun _ _ => Returns (VStr "abc")) []
             demo_storage in
  r.2 = Ret (mk_Trial 0 0).
Proof.
  apply (proj1 (@run_trial_returns_iff demo_runtime demo_study
                  (fun _ _ => Returns (VStr "abc")) [] demo_storage (Forall_nil_2 _))).
  reflexivity.
Defined.

Section RunnerKeeps.
Context `{Runtime}.
Variable self : Study.
Variable func : ObjectiveFuncType.
Variable catch : list exc_class.

Lemma upd_trial_keeps f tid tid' s :
  tid' <> tid -> trials (upd_trial f tid s) !! tid' = trials s !! tid'.
Proof. intros Hne. unfold upd_trial. simpl. by rewrite list_lookup_alter_ne. Qed.

Lemma run_allocated_keeps tid s :
  let s' := (run_allocated self func catch tid s).1 in
  (forall tid', tid' <> tid -> trials s' !! tid' = trials s !! tid') /\
  studies s' = studies s.
Proof.
  unfold run_allocated.
  assert (Hfail : forall message,
    (forall tid', tid' <> tid ->
       trials (record_fail (mk_Trial (study_id self) tid) message s).1 !! tid'
       = trials s !! tid') /\
    studies (record_fail (mk_Trial (study_id self) tid) message s).1 = studies s).
  { intros message. split; [|reflexivity]. intros tid' Hne. cbn [record_fail fst handle_id].
    unfold set_trial_system_attr, set_trial_state. cbn [trials log with_trials upd_trial].
    by rewrite !list_lookup_alter_ne. }
  destruct (func _ s) as [v|e].
  - destruct (py_float v) as [V|e].
    + destruct (isnan V); [apply Hfail|].
      assert (Hc : (forall tid', tid' <> tid ->
                trials (set_trial_state tid COMPLETE
                          (report (mk_Trial (study_id self) tid) V s)) !! tid'
                = trials s !! tid') /\
              studies (set_trial_state tid COMPLETE
                          (report (mk_Trial (study_id self) tid) V s)) = studies s).
      { split; [|reflexivity]. intros tid' Hne.
        unfold report, set_trial_state, set_trial_intermediate_value, set_trial_value.
        cbn [trials log with_trials upd_trial handle_id].
        by rewrite !list_lookup_alter_ne. }
      by destruct (_log_completed_trial _ _ _).
    + destruct (matches e _); [apply Hfail|]. by split.
  - destruct (isinstance e TrialPruned).
    + split; [|reflexivity]. intros tid' Hne. cbn [fst].
      unfold set_trial_state. cbn [trials log with_trials upd_trial].
      by rewrite list_lookup_alter_ne.
    + destruct (matches e catch); [apply Hfail|]. by split.
Qed.

Lemma run_allocated_own_writes tid s :
  exists cs, calls (run_allocated self func catch tid s).1 = calls s ++ cs /\
             Forall (fun c => call_trial c = Some tid /\ is_allocation c = false) cs.
Proof.
  unfold run_allocated.
  assert (Hfail : forall message,
    exists cs, calls (record_fail (mk_Trial (study_id self) tid) message s).1 = calls s ++ cs /\
               Forall (fun c => call_trial c = Some tid /\ is_allocation c = false) cs).
  { intros message. eexists [_; _]. split; [simpl; by rewrite <- app_assoc|].
    by repeat constructor. }
  destruct (func _ s) as [v|e].
  - destruct (py_float v) as [V|e].
    + destruct (isnan V); [apply Hfail|].
      assert (exists cs, calls (set_trial_state tid COMPLETE
                                  (report (mk_Trial (study_id self) tid) V s))
                         = calls s ++ cs /\
                Forall (fun c => call_trial c = Some tid /\ is_allocation c = false) cs).
      { eexists [_; _; _]. split; [simpl; by rewrite <- !app_assoc|].
        by repeat constructor. }
      by destruct (_log_completed_trial _ _ _).
    + destruct (matches e _); [apply Hfail|]. exists []. by rewrite app_nil_r.
  - destruct (isinstance e TrialPruned).
    + eexists [_]. split; [reflexivity|]. by repeat constructor.
    + destruct (matches e catch); [apply Hfail|]. exists []. by rewrite app_nil_r.
Qed.

End RunnerKeeps.

(** X2: the writes [_run_trial] itself makes.  The first is the
    allocation of the next free identifier, for the runner's own study;
    every later one is a write to that very trial (its state, its value,
    its intermediate report or its [fail_reason]): the runner allocates
    no second identifier and makes no write to another trial, to a study
    record or to the session. *)
Theorem run_trial_writes_own_trial `{Runtime} (self : Study) (func : ObjectiveFuncType)
    (catch : list exc_class) (s : Storage) :
  let tid := next_trial_id s in
  exists cs,
    new_calls s (_run_trial self func catch s).1 =
      CreateNewTrialId (study_id self) tid :: cs /\
    Forall (fun c => call_trial c = Some tid /\ is_allocation c = false) cs.
Proof.
  intros tid. subst tid. rewrite run_trial_unfold.
  destruct (run_allocated_own_writes self func catch (next_trial_id s)
              (create_new_trial_id (study_id self) s).2) as (cs & Hcs & Hall).
  exists cs. split; [|done].
  apply new_calls_app. rewrite Hcs, create_calls. by rewrite <- app_assoc.
Qed.

Lemma run_trial_fatal `{Runtime} (self : Study) (func : ObjectiveFuncType)
    (catch : list exc_class) (s : Storage) (e : exc) :
  func (mk_Trial (study_id self) (next_trial_id s))
       (create_new_trial_id (study_id self) s).2 = Raises e ->
  isinstance e TrialPruned = false ->
  matches e catch = false ->
  _run_trial self func catch s = ((create_new_trial_id (study_id self) s).2, Raise e).
Proof.
  intros Hf Hp Hm. rewrite run_trial_unfold. unfold run_allocated.
  by rewrite Hf, Hp, Hm.
Qed.

(** X3: an objective that raises an exception which is neither the
    pruning signal nor in the catch filter makes [_run_trial] raise that
    same exception, and the runner records no outcome for the trial: it
    is still in its running state and has no [fail_reason]. *)
Theorem fatal_leaves_trial_running `{Runtime} (self : Study) (func : ObjectiveFuncType)
    (catch : list exc_class) (s : Storage) (e : exc) :
  let tid := next_trial_id s in
  func (mk_Trial (study_id self) tid) (create_new_trial_id (study_id self) s).2 = Raises e ->
  isinstance e TrialPruned = false ->
  matches e catch = false ->
  let r := _run_trial self func catch s in
  r.2 = Raise e /\
  state_of tid r.1 = Some RUNNING /\
  fail_reason_of tid r.1 = None.
Proof.
  intros tid Hf Hp Hm r. subst r. rewrite (run_trial_fatal self func catch s e Hf Hp Hm).
  cbn [fst snd].
  split; [done|]. split; [apply state_of_create|apply fail_reason_create].
Qed.

Lemma fatal_leaves_trial_running_witness :
  let r := @_run_trial demo_runtime demo_study
             (fun _ _ => Raises (mk_exc KeyboardInterrupt "")) [Exception] demo_storage in
  r.2 = Raise (mk_exc KeyboardInterrupt "") /\
  state_of 0 r.1 = Some RUNNING /\
  fail_reason_of 0 r.1 = None.
Proof.
  apply (@fatal_leaves_trial_running demo_runtime demo_study
           (fun _ _ => Raises (mk_exc KeyboardInterrupt "")) [Exception] demo_storage
           (mk_exc KeyboardInterrupt "")); reflexivity.
Defined.

(** X4: the failure reason a failed trial gets.  For an exception of the
    catch filter it is the text ending in [repr(e)]; for a value
    [float()] rejects with [ValueError] or [TypeError] the text ending in
    [repr(result)]; for NaN the text about [nan]. *)
Theorem fail_reason_texts `{Runtime} (self : Study) (func : ObjectiveFuncType)
    (catch : list exc_class) (s : Storage) :
  let tid := next_trial_id s in
  let o := func (mk_Trial (study_id self) tid) (create_new_trial_id (study_id self) s).2 in
  let s' := (_run_trial self func catch s).1 in
  (forall e, o = Raises e -> isinstance e TrialPruned = false -> matches e catch = true ->
     fail_reason_of tid s' =
       Some ("Setting trial status as TrialState.FAIL because of the following error: "
             +:+ repr_exc e)) /\
  (forall v e, o = Returns v -> py_float v = Raise e ->
     matches e [ValueError; TypeError] = true ->
     fail_reason_of tid s' =
       Some ("Setting trial status as TrialState.FAIL because the returned value from the objective function cannot be casted to float. Returned value is: "
             +:+ repr_value v)) /\
  (forall v V, o = Returns v -> py_float v = Ret V -> isnan V = true ->
     fail_reason_of tid s' =
       Some "Setting trial status as TrialState.FAIL because the objective function returned nan.").
Proof.
  intros tid o s'. subst o s'. rewrite run_trial_unfold. unfold run_allocated. fold tid.
  set (s1 := (create_new_trial_id (study_id self) s).2).
  set (trial := mk_Trial (study_id self) tid).
  assert (Hlt : (handle_id trial < next_trial_id s1)%nat).
  { unfold s1. rewrite next_create. unfold tid. simpl. lia. }
  assert (Hfail : forall message,
            fail_reason_of tid (record_fail trial message s1).1 = Some message).
  { intros message. by destruct (record_fail_spec trial message s1 Hlt) as (_ & _ & Hr & _). }
  split; [|split].
  - intros e -> Hp Hm. rewrite Hp, Hm. apply Hfail.
  - intros v e -> -> ->. apply Hfail.
  - intros v V -> -> ->. apply Hfail.
Qed.

Lemma fail_reason_texts_witness :
  fail_reason_of 0
    (@_run_trial demo_runtime demo_study (fun _ _ => Returns VNone) [Exception]
       demo_storage).1 =
  Some "Setting trial status as TrialState.FAIL because the returned value from the objective function cannot be casted to float. Returned value is: <value>".
Proof.
  destruct (@fail_reason_texts demo_runtime demo_study (fun _ _ => Returns VNone)
              [Exception] demo_storage) as (_ & Hcast & _).
  apply (Hcast VNone (mk_exc TypeError "float() argument must be a string or a number"));
    reflexivity.
Defined.

(** X5: a trial is never [COMPLETE] without its value.  For a value that
    converts to a float [V] other than NaN, the transition to [COMPLETE]
    is the runner's last write, and it is made on a storage in which the
    trial is still running and already holds [V] as its value. *)
Theorem complete_writes_value_first `{Runtime} (self : Study) (func : ObjectiveFuncType)
    (catch : list exc_class) (s : Storage) (v : Py.value) (V : float) :
  let tid := next_trial_id s in
  func (mk_Trial (study_id self) tid) (create_new_trial_id (study_id self) s).2 = Returns v ->
  py_float v = Ret V -> isnan V = false ->
  exists s2,
    (_run_trial self func catch s).1 = set_trial_state tid COMPLETE s2 /\
    state_of tid s2 = Some RUNNING /\
    value_of tid s2 = Some V.
Proof.
  intros tid Hf Hfl Hnan. rewrite run_trial_unfold. unfold run_allocated. fold tid.
  rewrite Hf, Hfl, Hnan.
  set (trial := mk_Trial (study_id self) tid).
  set (s1 := (create_new_trial_id (study_id self) s).2).
  exists (report trial V s1). split; [by destruct (_log_completed_trial _ _ _)|].
  split.
  - rewrite state_of_report. apply state_of_create.
  - apply (value_of_report trial). unfold s1. rewrite next_create. simpl. unfold tid. lia.
Qed.

Lemma complete_writes_value_first_witness :
  exists s2,
    (@_run_trial demo_runtime demo_study (fun _ _ => Returns (VBool true)) [Exception]
       demo_storage).1 = set_trial_state 0 COMPLETE s2 /\
    state_of 0 s2 = Some RUNNING /\
    value_of 0 s2 = Some (float_of_Z 1).
Proof.
  apply (@complete_writes_value_first demo_runtime demo_study
           (fun _ _ => Returns (VBool true)) [Exception] demo_storage (VBool true)
           (float_of_Z 1)); reflexivity.
Defined.

(* ===================================================================== *)
(** * More on the sequential scheduler                                    *)
(* ===================================================================== *)

Section SequentialSafety.
Context `{Runtime}.
Variable self : Study.
Variable func : ObjectiveFuncType.
Variable catch : list exc_class.

Lemma keeps_refl s : keeps_records s s 0.
Proof.
  split; [done|]. split; [done|]. split; [lia|]. split; [|done].
  exists []. by rewrite app_nil_r.
Qed.

Lemma finished_same tid s s' :
  trials s' !! tid = trials s !! tid -> finished tid s -> finished tid s'.
Proof. unfold finished, state_of. by intros ->. Qed.

(** One more trial in front of a stretch that keeps the records. *)
Lemma keeps_after_trial s s' n :
  keeps_records (_run_trial self func catch s).1 s' n ->
  keeps_records s s' (S n).
Proof.
  intros (Hk & Hs & Hn & (cs' & Hcs' & Hal') & Hwf).
  destruct (run_trial_frame self func catch s) as (Hn1 & (cs & Hcs & Hal) & _ & Hw & _).
  destruct (run_allocated_keeps self func catch (next_trial_id s)
              (create_new_trial_id (study_id self) s).2) as [Hk1 Hs1].
  rewrite <- run_trial_unfold in Hk1, Hs1.
  split; [|split; [|split; [|split]]].
  - intros tid Hlt. rewrite Hk by lia. rewrite Hk1 by lia.
    rewrite create_trials. by rewrite lookup_app_l.
  - by rewrite Hs, Hs1.
  - rewrite Hn, Hn1. lia.
  - exists (cs ++ cs'). split; [rewrite Hcs', Hcs; by rewrite <- app_assoc|].
    rewrite allocated_app, Hal, Hal', Hn1. reflexivity.
  - intros Hwf0. by apply Hwf, Hw.
Qed.

Lemma sequential_loop_safety n_trials timeout t0 (fuel : nat) : forall i rd s,
  match sequential_loop fuel self func n_trials timeout catch t0 i rd s with
  | StillRunning => True
  | Finished _ s' =>
      exists n, keeps_records s s' n /\
        (forall tid, (next_trial_id s <= tid < next_trial_id s + n)%nat -> finished tid s') /\
        (forall N, n_trials = Some N -> Z.of_nat n <= Z.max 0 (N - i))
  | Propagated _ _ s' =>
      exists n, keeps_records s s' (S n) /\
        (forall tid, (next_trial_id s <= tid < next_trial_id s + n)%nat -> finished tid s') /\
        (forall N, n_trials = Some N -> Z.of_nat (S n) <= Z.max 0 (N - i))
  end.
Proof.
  induction fuel as [|fuel IH]; intros i rd s; [done|].
  rewrite sequential_loop_S. cbv zeta.
  destruct (match n_trials with Some n => i >=? n | None => false end) eqn:Hlim.
  { exists 0%nat. split; [apply keeps_refl|]. split; [intros tid Htid; lia|]. intros N HN. lia. }
  assert (Hbound : forall N, n_trials = Some N -> i < N).
  { intros N ->. destruct (Z.geb_spec i N); [discriminate|done]. }
  destruct (match timeout with
            | Some timeout => (float_ge (total_seconds (clock rd - t0)) timeout, S rd)
            | None => (false, rd)
            end) as [timed_out rd'].
  cbn [fst snd]. destruct timed_out.
  { exists 0%nat. split; [apply keeps_refl|]. split; [intros tid Htid; lia|]. intros N HN. lia. }
  destruct (run_trial_frame self func catch s) as (Hn1 & _ & _ & _ & _ & Hret).
  pose proof (keeps_after_trial s) as Hstep.
  destruct (_run_trial self func catch s) as [s1 [t|e]]; cbn [fst snd] in *.
  - specialize (IH (match n_trials with Some _ => i + 1 | None => i end) rd' s1).
    destruct (sequential_loop fuel _ _ _ _ _ _ _ _ s1) as [rd2 s'|e rd2 s'|]; [| |done].
    + destruct IH as (n & Hk & Hfin & Hb). exists (S n).
      split; [by apply Hstep|]. split.
      * intros tid Htid. destruct (decide (tid = next_trial_id s)) as [->|Hne].
        -- eapply finished_same; [|by eapply Hret].
           destruct Hk as (Hk & _). apply Hk. lia.
        -- apply Hfin. lia.
      * intros N HN. specialize (Hb N HN). specialize (Hbound N HN). subst n_trials. lia.
    + destruct IH as (n & Hk & Hfin & Hb). exists (S n).
      split; [by apply Hstep|]. split.
      * intros tid Htid. destruct (decide (tid = next_trial_id s)) as [->|Hne].
        -- eapply finished_same; [|by eapply Hret].
           destruct Hk as (Hk & _). apply Hk. lia.
        -- apply Hfin. lia.
      * intros N HN. specialize (Hb N HN). specialize (Hbound N HN). subst n_trials. lia.
  - exists 0%nat. split; [apply Hstep, keeps_refl|]. split; [intros tid Htid; lia|].
    intros N HN. specialize (Hbound N HN). lia.
Qed.

End SequentialSafety.

(** X6: what the sequential scheduler has done when it ends, whatever
    the objective, the limit and the timeout.  The trials it ran have the
    next free identifiers in order and are no more than a limit that was
    set.  When it returns, all of them are finished; when an exception
    comes out of it, all but the last one are. *)
Theorem sequential_safety `{Runtime} (self : Study) (func : ObjectiveFuncType)
    (catch : list exc_class) (n_trials : option Z) (timeout : option float)
    (fuel reads : nat) (s : Storage) :
  match _optimize_sequential fuel self func n_trials timeout catch reads s with
  | StillRunning => True
  | Finished _ s' =>
      exists n,
        allocated (new_calls s s') = seq (next_trial_id s) n /\
        (forall tid, (next_trial_id s <= tid < next_trial_id s + n)%nat -> finished tid s') /\
        (forall N, n_trials = Some N -> Z.of_nat n <= Z.max 0 N)
  | Propagated _ _ s' =>
      exists n,
        allocated (new_calls s s') = seq (next_trial_id s) (S n) /\
        (forall tid, (next_trial_id s <= tid < next_trial_id s + n)%nat -> finished tid s') /\
        (forall N, n_trials = Some N -> Z.of_nat (S n) <= Z.max 0 N)
  end.
Proof.
  unfold _optimize_sequential.
  pose proof (sequential_loop_safety self func catch n_trials timeout (clock reads) fuel 0
                (S reads) s) as Hs.
  destruct (sequential_loop _ _ _ _ _ _ _ _ _ s) as [rd s'|e rd s'|]; [| |done].
  - destruct Hs as (n & (_ & _ & _ & (cs & Hcs & Hal) & _) & ? & Hb). exists n.
    split; [by rewrite (new_calls_app s s' cs Hcs)|]. split; [done|].
    intros N HN. specialize (Hb N HN). lia.
  - destruct Hs as (n & (_ & _ & _ & (cs & Hcs & Hal) & _) & ? & Hb). exists n.
    split; [by rewrite (new_calls_app s s' cs Hcs)|]. split; [done|].
    intros N HN. specialize (Hb N HN). lia.
Qed.

Section SequentialMore.
Context `{Runtime}.
Variable self : Study.
Variable func : ObjectiveFuncType.
Variable catch : list exc_class.
Hypothesis all_classified : forall trial s, classified catch (func trial s) = true.

(** With a timeout and no limit the loop runs until the clock shows the
    timeout elapsed. *)
Lemma sequential_loop_deadline (timeout : float) (k : nat) : forall i t0 rd s,
  storage_wf s ->
  (forall j, (j < k)%nat ->
     float_ge (total_seconds (clock (rd + j)%nat - t0)) timeout = false) ->
  float_ge (total_seconds (clock (rd + k)%nat - t0)) timeout = true ->
  exists s',
    sequential_loop (S k) self func None (Some timeout) catch t0 i rd s
      = Finished (rd + k + 1)%nat s' /\
    next_trial_id s' = (next_trial_id s + k)%nat /\
    (forall tid, finished tid s -> finished tid s') /\
    (forall tid, (next_trial_id s <= tid < next_trial_id s + k)%nat -> finished tid s').
Proof.
  induction k as [|k IH]; intros i t0 rd s Hwf Hbelow Hstop.
  - exists s. rewrite sequential_loop_S. cbv zeta. cbn [fst snd].
    rewrite Nat.add_0_r in Hstop. rewrite Hstop.
    split; [f_equal; lia|]. split; [lia|]. split; [done|]. intros tid Htid. lia.
  - rewrite sequential_loop_S. cbv zeta. cbn [fst snd].
    pose proof (Hbelow 0%nat ltac:(lia)) as H0. rewrite Nat.add_0_r in H0. rewrite H0.
    destruct (run_trial_frame self func catch s) as (Hn & _ & Hfin & Hw & _ & Hret).
    pose proof (run_trial_returns self func catch s Hwf (all_classified _ _)) as Hr.
    destruct (_run_trial self func catch s) as [s1 r]. cbn [fst snd] in *. subst r.
    destruct (IH i t0 (S rd) s1) as (s' & Hloop & Hn' & Hfin' & Hnew).
    + by apply Hw.
    + intros j Hj. replace (S rd + j)%nat with (rd + S j)%nat by lia. apply Hbelow. lia.
    + by replace (S rd + k)%nat with (rd + S k)%nat by lia.
    + exists s'. rewrite Hloop. split; [f_equal; lia|]. split; [lia|].
      split; [intros tid Hf; by apply Hfin', Hfin|].
      intros tid Htid. destruct (decide (tid = next_trial_id s)) as [->|Hne].
      * apply Hfin'. by eapply Hret.
      * apply Hnew. lia.
Qed.

(** With neither a limit nor a timeout the loop never ends. *)
Lemma sequential_loop_forever (fuel : nat) : forall i t0 rd s,
  storage_wf s ->
  sequential_loop fuel self func None None catch t0 i rd s = StillRunning.
Proof.
  induction fuel as [|fuel IH]; intros i t0 rd s Hwf; [done|].
  rewrite sequential_loop_S. cbv zeta. cbn [fst snd].
  destruct (run_trial_frame self func catch s) as (_ & _ & _ & Hw & _).
  pose proof (run_trial_returns self func catch s Hwf (all_classified _ _)) as Hr.
  destruct (_run_trial self func catch s) as [s1 r]. cbn [fst snd] in *. subst r.
  apply IH. by apply Hw.
Qed.

End SequentialMore.

(** X7: the sequential scheduler with a timeout and no limit, on a storage
    whose completed trials have a value and with an objective whose
    invocations are all classified.  If the first [k] readings of the
    clock after the start show less than the timeout and the next one
    shows [elapsed >= timeout], the scheduler returns after exactly [k]
    trials, all finished: a trial is never cut short, the timeout is only
    looked at between trials. *)
Theorem sequential_stops_at_deadline `{Runtime} (self : Study) (func : ObjectiveFuncType)
    (catch : list exc_class) (timeout : float) (k reads : nat) (s : Storage) :
  storage_wf s ->
  (forall trial s, classified catch (func trial s) = true) ->
  (forall j, (1 <= j <= k)%nat -> float_ge (elapsed_at reads j) timeout = false) ->
  float_ge (elapsed_at reads (k + 1)) timeout = true ->
  exists s',
    (forall fuel, (k < fuel)%nat ->
       _optimize_sequential fuel self func None (Some timeout) catch reads s
         = Finished (reads + k + 2)%nat s') /\
    next_trial_id s' = (next_trial_id s + k)%nat /\
    (forall tid, (next_trial_id s <= tid < next_trial_id s')%nat -> finished tid s').
Proof.
  intros Hwf Hcl Hbelow Hstop.
  destruct (sequential_loop_deadline self func catch Hcl timeout k 0 (clock reads)
              (S reads) s Hwf) as (s' & Hloop & Hn & _ & Hnew).
  - intros j Hj. replace (S reads + j)%nat with (reads + (j + 1))%nat by lia.
    apply (Hbelow (j + 1)%nat). lia.
  - by replace (S reads + k)%nat with (reads + (k + 1))%nat by lia.
  - exists s'. split; [|split; [done|]].
    + intros fuel Hfuel. unfold _optimize_sequential.
      replace (reads + k + 2)%nat with (S reads + k + 1)%nat by lia.
      eapply sequential_loop_fuel; [exact Hloop|done|lia].
    + intros tid Htid. apply Hnew. lia.
Qed.

Lemma sequential_stops_at_deadline_witness :
  exists s',
    @_optimize_sequential demo_runtime 5 demo_study (fun _ _ => Returns (VInt 3)) None
      (Some (float_of_Z 3)) [Exception] 0 demo_storage = Finished 4 s' /\
    next_trial_id s' = 2%nat.
Proof.
  destruct (@sequential_stops_at_deadline demo_runtime demo_study
              (fun _ _ => Returns (VInt 3)) [Exception] (float_of_Z 3) 2 0 demo_storage)
    as (s' & Hrun & Hn & _).
  - constructor.
  - intros trial s. reflexivity.
  - intros j Hj. assert (j = 1 \/ j = 2)%nat as [->| ->] by lia; reflexivity.
  - reflexivity.
  - exists s'. split; [apply Hrun; lia|exact Hn].
Defined.

(** X8: with neither a limit nor a timeout the sequential scheduler does
    not return: on a storage whose completed trials have a value and with
    an objective whose invocations are all classified it is still running
    whatever fuel it is given. *)
Theorem sequential_without_limits_runs_on `{Runtime} (self : Study)
    (func : ObjectiveFuncType) (catch : list exc_class) (reads : nat) (s : Storage) :
  storage_wf s ->
  (forall trial s, classified catch (func trial s) = true) ->
  forall fuel,
    _optimize_sequential fuel self func None None catch reads s = StillRunning.
Proof.
  intros Hwf Hcl fuel. unfold _optimize_sequential.
  by apply sequential_loop_forever.
Qed.

Lemma sequential_without_limits_runs_on_witness :
  @_optimize_sequential demo_runtime 50 demo_study (fun _ _ => Returns (VInt 3)) None None
    [Exception] 0 demo_storage = StillRunning.
Proof.
  apply (@sequential_without_limits_runs_on demo_runtime demo_study
           (fun _ _ => Returns (VInt 3)) [Exception] 0 demo_storage).
  - constructor.
  - intros trial s. reflexivity.
Defined.

(** X9: a fatal first invocation aborts the sequential scheduler: with a
    limit of at least one trial (or none) and no timeout, if the first
    invocation of the objective raises an exception that is neither the
    pruning signal nor in the catch filter, that exception comes out of
    [_optimize_sequential] after this one trial, which is left in its
    running state. *)
Theorem sequential_aborts_on_fatal `{Runtime} (self : Study) (func : ObjectiveFuncType)
    (catch : list exc_class) (n_trials : option Z) (reads : nat) (s : Storage) (e : exc) :
  (forall N, n_trials = Some N -> 1 <= N) ->
  func (mk_Trial (study_id self) (next_trial_id s))
       (create_new_trial_id (study_id self) s).2 = Raises e ->
  isinstance e TrialPruned = false ->
  matches e catch = false ->
  forall fuel,
    _optimize_sequential (S fuel) self func n_trials None catch reads s
      = Propagated e (S reads) (create_new_trial_id (study_id self) s).2 /\
    state_of (next_trial_id s) (create_new_trial_id (study_id self) s).2 = Some RUNNING.
Proof.
  intros HN Hf Hp Hm fuel. split; [|apply state_of_create].
  unfold _optimize_sequential. rewrite sequential_loop_S. cbv zeta. cbn [fst snd].
  assert (match n_trials with Some n => 0 >=? n | None => false end = false) as ->.
  { destruct n_trials as [N|]; [|done]. specialize (HN N eq_refl).
    destruct (Z.geb_spec 0 N); [lia|done]. }
  by rewrite (run_trial_fatal self func catch s e Hf Hp Hm).
Qed.

Lemma sequential_aborts_on_fatal_witness :
  exists s',
    @_optimize_sequential demo_runtime 10 demo_study
      (fun _ _ => Raises (mk_exc SystemExit "")) (Some 5) None [Exception] 0 demo_storage
      = Propagated (mk_exc SystemExit "") 1 s' /\
    next_trial_id s' = 1%nat.
Proof.
  destruct (@sequential_aborts_on_fatal demo_runtime demo_study
              (fun _ _ => Raises (mk_exc SystemExit "")) [Exception] (Some 5) 0
              demo_storage (mk_exc SystemExit "")) with (fuel := 9%nat) as [Hrun _].
  - intros N [= <-]. lia.
  - reflexivity.
  - reflexivity.
  - reflexivity.
  - eexists. split; [exact Hrun|reflexivity].
Defined.

(* ===================================================================== *)
(** * [optimize] and more on the parallel scheduler                       *)
(* ===================================================================== *)

Section OptimizeFacts.
Context `{Runtime}.
Variable self : Study.
Variable func : ObjectiveFuncType.
Variable catch : list exc_class.

(** A pool without workers whose coordinator is done never moves. *)
Lemma reachable_stuck n_trials timeout st st' :
  workers st = [] -> (coord st = Returned \/ exists e, coord st = Failed e) ->
  reachable self func n_trials timeout catch st st' -> st' = st.
Proof.
  intros Hw Hc Hr. apply rtc_inv in Hr as [Heq|(st1 & [[|i] Hstep] & _)]; [done| |].
  - simpl in Hstep. unfold coordinator_step in Hstep.
    destruct Hc as [Hc|[e Hc]]; rewrite Hc in Hstep; discriminate.
  - simpl in Hstep. unfold func_child_thread in Hstep. rewrite Hw in Hstep. discriminate.
Qed.

Lemma start_no_work n_jobs reads s :
  start (Some 0) n_jobs reads s = mk_pstate 0 (clock reads) [] 0 Returned [] (S reads) s.
Proof. reflexivity. Qed.

Lemma start_pool_fails n_trials n_jobs reads s :
  n_trials <> Some 0 -> resolve_n_jobs n_trials n_jobs < 1 ->
  start n_trials n_jobs reads s =
  mk_pstate 0 (clock reads) [] 0
    (Failed (mk_exc ValueError "Number of processes must be at least 1")) [] (S reads) s.
Proof.
  intros Hn Hres. unfold start. rewrite bool_decide_eq_false_2 by done.
  destruct (Z.ltb_spec (resolve_n_jobs n_trials n_jobs) 1); [done|lia].
Qed.

Lemma sequential_no_trials N timeout fuel reads s :
  N <= 0 ->
  _optimize_sequential (S fuel) self func (Some N) timeout catch reads s
    = Finished (S reads) s.
Proof.
  intros HN. unfold _optimize_sequential. rewrite sequential_loop_S.
  destruct (Z.geb_spec 0 N); [done|lia].
Qed.

End OptimizeFacts.

(** X10: [optimize] with a limit of zero trials returns without a write to
    the storage, whatever the worker count (an invalid one included) and
    the timeout; in sequential mode ([n_jobs == 1]) the same holds of a
    negative limit.  It has no other outcome. *)
Theorem optimize_no_trials `{Runtime} (self : Study) (func : ObjectiveFuncType)
    (catch : list exc_class) (N : Z) (timeout : option float) (n_jobs : Z)
    (reads : nat) (s : Storage) (o : optimize_result) :
  N = 0 \/ (N <= 0 /\ n_jobs = 1) ->
  optimize self func (Some N) timeout n_jobs catch reads s o <-> o = OptReturns s.
Proof.
  intros HN. unfold optimize. destruct (Z.eqb_spec n_jobs 1) as [Hj|Hj].
  - assert (N <= 0) by lia. split.
    + intros [[|fuel] Hend]; [done|].
      by rewrite sequential_no_trials in Hend by done.
    + intros ->. exists 1%nat. by rewrite sequential_no_trials by done.
  - destruct HN as [->|[_ ?]]; [|done]. rewrite start_no_work. split.
    + intros (st & Hr & Hend). apply reachable_stuck in Hr as ->; [|done|by left].
      exact Hend.
    + intros ->. eexists. split; [apply rtc_refl|]. reflexivity.
Qed.

Lemma optimize_no_trials_witness :
  @optimize demo_runtime demo_study (fun _ _ => Returns (VInt 1)) (Some 0) None 0
    [Exception] 0 demo_storage (OptReturns demo_storage).
Proof.
  apply (@optimize_no_trials demo_runtime demo_study (fun _ _ => Returns (VInt 1))
           [Exception] 0 None 0 0 demo_storage (OptReturns demo_storage)).
  - left. reflexivity.
  - reflexivity.
Defined.

(** X11: in parallel mode, when the resolved worker count is below one
    (zero workers, a negative count other than [-1], or a negative limit)
    and the limit is not zero, [optimize] raises the [ValueError] of
    [ThreadPool] and nothing else happens: no trial is allocated and the
    storage is as it was. *)
Theorem optimize_pool_failure `{Runtime} (self : Study) (func : ObjectiveFuncType)
    (catch : list exc_class) (n_trials : option Z) (timeout : option float) (n_jobs : Z)
    (reads : nat) (s : Storage) (o : optimize_result) :
  n_jobs <> 1 -> n_trials <> Some 0 -> resolve_n_jobs n_trials n_jobs < 1 ->
  optimize self func n_trials timeout n_jobs catch reads s o <->
  o = OptRaises (mk_exc ValueError "Number of processes must be at least 1") s.
Proof.
  intros Hj Hn Hres. unfold optimize. destruct (Z.eqb_spec n_jobs 1) as [?|_]; [done|].
  rewrite start_pool_fails by done. split.
  - intros (st & Hr & Hend). apply reachable_stuck in Hr as ->; [|done|right; eauto].
    exact Hend.
  - intros ->. eexists. split; [apply rtc_refl|]. reflexivity.
Qed.

Lemma optimize_pool_failure_witness :
  @optimize demo_runtime demo_study (fun _ _ => Returns (VInt 1)) (Some (-1)) None 4
    [Exception] 0 demo_storage
    (OptRaises (mk_exc ValueError "Number of processes must be at least 1") demo_storage) /\
  @optimize demo_runtime demo_study (fun _ _ => Returns (VInt 1)) None None 0
    [Exception] 0 demo_storage
    (OptRaises (mk_exc ValueError "Number of processes must be at least 1") demo_storage).
Proof.
  split.
  - apply (@optimize_pool_failure demo_runtime demo_study (fun _ _ => Returns (VInt 1))
             [Exception] (Some (-1)) None 4 0 demo_storage); [lia|discriminate|reflexivity|].
    reflexivity.
  - apply (@optimize_pool_failure demo_runtime demo_study (fun _ _ => Returns (VInt 1))
             [Exception] None None 0 0 demo_storage); [lia|discriminate|reflexivity|].
    reflexivity.
Defined.

Section ParallelMore.
Context `{Runtime}.
Variable self : Study.
Variable func : ObjectiveFuncType.
Variable catch : list exc_class.

(** What the invariant gives once [_optimize_parallel] has returned. *)
Lemma pinv_returned N s0 st a b cs :
  pinv N s0 st a b cs -> coord st = Returned ->
  Z.of_nat (List.length (allocated cs)) = N /\
  forall tid, (next_trial_id s0 <= tid < next_trial_id (store st))%nat ->
              finished tid (store st).
Proof.
  intros [Hpool Hpos Hque Hphase Hfifo Henq Hseed Hlim Hcalls Hids Hnext Htrials Hintr] Hret.
  rewrite Hret in Hphase. destruct Hphase as (-> & Hex & HenqN).
  pose proof (count_partition (workers st)) as Hpart.
  assert (a = 0%nat) as -> by (apply Hfifo; lia).
  split; [lia|]. intros tid Htid.
  destruct (Htrials tid Htid) as [Hf|[Hin|Hd]]; [done| |lia].
  apply (count_elem is_intrial) in Hin; [lia|done].
Qed.

Lemma sequential_result_unique n_trials timeout fuel fuel' reads s r r' :
  _optimize_sequential fuel self func n_trials timeout catch reads s = r ->
  _optimize_sequential fuel' self func n_trials timeout catch reads s = r' ->
  r <> StillRunning -> r' <> StillRunning -> r = r'.
Proof.
  unfold _optimize_sequential. intros Hr Hr' Hn Hn'.
  pose proof (sequential_loop_fuel self func catch fuel (Nat.max fuel fuel') _ _ _ _ _ _ _
                Hr Hn ltac:(lia)) as H1.
  pose proof (sequential_loop_fuel self func catch fuel' (Nat.max fuel fuel') _ _ _ _ _ _ _
                Hr' Hn' ltac:(lia)) as H2.
  congruence.
Qed.

End ParallelMore.

(** X12: [optimize] with a limit of [N >= 0] trials and no timeout runs
    exactly [N] trials in either mode.  For a worker count that is
    positive, or [-1] on a host with at least one processing unit, on a
    storage whose completed trials have a value and with an objective
    whose invocations are all classified, [optimize] can end, and however
    it ends it returns (it never raises) with the next [N] identifiers
    allocated in order and all [N] trials finished. *)
Theorem optimize_runs_N_trials `{Runtime} (self : Study) (func : ObjectiveFuncType)
    (catch : list exc_class) (N n_jobs : Z) (reads : nat) (s : Storage) :
  0 <= N ->
  (1 <= n_jobs \/ (n_jobs = -1 /\ 1 <= cpu_count)) ->
  storage_wf s ->
  (forall trial s, classified catch (func trial s) = true) ->
  (exists o, optimize self func (Some N) None n_jobs catch reads s o) /\
  (forall o, optimize self func (Some N) None n_jobs catch reads s o ->
     exists s',
       o = OptReturns s' /\
       next_trial_id s' = (next_trial_id s + Z.to_nat N)%nat /\
       allocated (new_calls s s') = seq (next_trial_id s) (Z.to_nat N) /\
       forall tid, (next_trial_id s <= tid < next_trial_id s')%nat -> finished tid s').
Proof.
  intros HN Hjobs Hwf Hcl. unfold optimize. destruct (Z.eqb_spec n_jobs 1) as [Hj|Hj].
  - (* sequential *)
    destruct (sequential_loop_limit self func catch N Hcl (Z.to_nat N) 0 (clock reads)
                (S reads) s) as (s' & cs & Hloop & Hn & Hcs & Hal & _ & _ & Hnew);
      [lia|done|].
    split.
    + exists (OptReturns s'), (S (Z.to_nat N)). unfold _optimize_sequential.
      by rewrite Hloop.
    + intros o [fuel Hend].
      destruct (_optimize_sequential fuel self func (Some N) None catch reads s)
        as [rd1 s1|e rd1 s1|] eqn:Hr; [| |done].
      * assert (Finished rd1 s1 = Finished (S reads) s') as [= _ ->].
        { eapply (sequential_result_unique self func catch); [exact Hr|exact Hloop|done|done]. }
        simpl in Hend. subst o. exists s'. split; [done|]. split; [done|].
        split; [by rewrite (new_calls_app s s' cs)|]. intros tid Htid. apply Hnew. lia.
      * exfalso.
        assert (Propagated e rd1 s1 = Finished (S reads) s') as [=].
        eapply (sequential_result_unique self func catch); [exact Hr|exact Hloop|done|done].
  - (* parallel *)
    destruct (decide (N = 0)) as [->|HN0].
    { rewrite start_no_work. split.
      - eexists (OptReturns s), _. split; [apply rtc_refl|]. reflexivity.
      - intros o (st & Hr & Hend). apply reachable_stuck in Hr as ->; [|done|by left].
        unfold parallel_ends in Hend. simpl in Hend. subst o. exists s. split; [done|]. split; [simpl; lia|].
        split; [by rewrite new_calls_same|]. intros tid Htid. lia. }
    assert (HN1 : 1 <= N) by lia.
    pose proof (resolve_pos N n_jobs HN1 Hjobs) as Hres.
    pose proof (pinv_start N s n_jobs reads HN1 Hres) as Hinv0.
    pose proof (plive_start self N n_jobs reads s HN1 Hres Hwf) as Hlive0.
    split.
    + destruct (can_return self func catch N s Hcl
                  (S (work_left N (start (Some N) n_jobs reads s)))
                  (start (Some N) n_jobs reads s)) as (st & Hr & Hret); [lia|by eauto|done|].
      exists (OptReturns (store st)), st. split; [done|].
      unfold parallel_ends. by rewrite Hret.
    + intros o (st & Hr & Hend).
      destruct (pinv_reachable self func catch N s _ st Hr) as (a & b & cs & Hinv);
        [by eauto|].
      pose proof (plive_reachable self func catch N s Hcl _ st Hr
                    ltac:(eauto) Hlive0) as Hlive.
      unfold parallel_ends in Hend.
      destruct (coord st) eqn:Hc; try done.
      * destruct (pinv_returned N s st a b cs Hinv Hc) as [Hlen Hfin].
        exists (store st). split; [done|].
        pose proof (inv_next _ _ _ _ _ _ Hinv) as Hnext.
        pose proof (inv_ids _ _ _ _ _ _ Hinv) as Hids.
        pose proof (inv_calls _ _ _ _ _ _ Hinv) as Hcalls.
        assert (List.length (allocated cs) = Z.to_nat N) as Hl by lia.
        split; [by rewrite Hnext, Hl|].
        split; [rewrite (new_calls_app s (store st) cs Hcalls); by rewrite Hids, Hl|].
        exact Hfin.
      * by destruct (live_coord _ _ Hlive e).
Qed.

Lemma optimize_runs_N_trials_witness :
  (exists o, @optimize demo_runtime demo_study (fun _ _ => Returns (VInt 1)) (Some 3) None
               (-1) [Exception] 0 demo_storage o) /\
  (forall o, @optimize demo_runtime demo_study (fun _ _ => Returns (VInt 1)) (Some 3) None
               (-1) [Exception] 0 demo_storage o ->
     exists s', o = OptReturns s' /\ next_trial_id s' = 3%nat).
Proof.
  destruct (@optimize_runs_N_trials demo_runtime demo_study (fun _ _ => Returns (VInt 1))
              [Exception] 3 (-1) 0 demo_storage) as [Hex Hall].
  - lia.
  - right. split; [reflexivity|]. simpl. lia.
  - constructor.
  - intros trial s. reflexivity.
  - split; [exact Hex|]. intros o Ho.
    destruct (Hall o Ho) as (s' & -> & Hn & _). exists s'. split; [done|exact Hn].
Defined.

Section Schedules.
Context `{Runtime}.
Variable self : Study.
Variable func : ObjectiveFuncType.
Variable catch : list exc_class.
Variable n_trials : option Z.
Variable timeout : option float.

Lemma play_reachable sched st :
  reachable self func n_trials timeout catch st
    (play self func n_trials timeout catch sched st).
Proof.
  revert st. induction sched as [|a sched IH]; intros st; cbn [play]; [apply rtc_refl|].
  destruct (step self func n_trials timeout catch a st) as [st'|] eqn:Hs; [|apply IH].
  eapply rtc_l; [|apply IH]. by exists a.
Qed.

End Schedules.

Section ParallelFatal.
Context `{Runtime}.
Variable self : Study.
Variable func : ObjectiveFuncType.
Variable catch : list exc_class.
Variable N : Z.
Variable s0 : Storage.
Hypothesis all_fatal : forall trial s, fatal catch (func trial s).

Lemma run_allocated_fatal tid s :
  exists e, run_allocated self func catch tid s = (s, Raise e).
Proof.
  destruct (all_fatal (mk_Trial (study_id self) tid) s) as (e & Hf & Hp & Hm).
  exists e. unfold run_allocated. by rewrite Hf, Hp, Hm.
Qed.

Lemma coordinator_keeps_store n_trials timeout st st' :
  coordinator_step n_trials timeout st = Some st' -> store st' = store st.
Proof.
  unfold coordinator_step. destruct (coord st) as [|[|k]| | |e]; try discriminate.
  - destruct timeout as [t|].
    + destruct (float_gt _ _); [by intros [= <-]|].
      destruct (match n_trials with Some n => _ | None => false end); [by intros [= <-]|].
      cbn [pool_size que set_reads]. destruct (put_nowait _ _ _); by intros [= <-].
    + destruct (match n_trials with Some n => _ | None => false end); [by intros [= <-]|].
      destruct (put_nowait _ _ _); by intros [= <-].
  - by intros [= <-].
  - destruct (put_nowait _ _ _); [|discriminate]. by intros [= <-].
  - destruct (join (workers st)) as [[[]|e]|]; [| |discriminate]; by intros [= <-].
Qed.

(** With an objective that is always fatal no trial of the run ever
    gets finished. *)
Lemma unfinished_step st st' a b cs :
  pinv N s0 st a b cs ->
  (forall tid, (next_trial_id s0 <= tid)%nat -> ~ finished tid (store st)) ->
  steps_to self func (Some N) None catch st st' ->
  forall tid, (next_trial_id s0 <= tid)%nat -> ~ finished tid (store st').
Proof.
  intros Hinv Hun [[|i] Hstep] tid Htid; simpl in Hstep.
  - apply coordinator_keeps_store in Hstep. rewrite Hstep. by apply Hun.
  - unfold func_child_thread in Hstep.
    destruct (workers st !! i) as [w|] eqn:Hl; [|discriminate].
    cbn [mbind option_bind] in Hstep.
    destruct w as [| |tid'| |e]; try discriminate.
    + destruct (que st) as [|[] q]; [discriminate| |]; injection Hstep as <-;
        cbn [store set_worker set_store set_que]; by apply Hun.
    + set (tid0 := next_trial_id (store st)) in *.
      set (s1 := (create_new_trial_id (study_id self) (store st)).2) in *.
      change (create_new_trial_id (study_id self) (store st)) with (tid0, s1) in Hstep.
      cbv beta iota in Hstep. injection Hstep as <-.
      cbn [store set_worker set_store]. intros (st1 & Hs & Ht).
      destruct (decide (tid < tid0)%nat) as [Hlt|Hge].
      * unfold s1 in Hs. rewrite state_of_create_old in Hs by done.
        apply (Hun tid Htid). by exists st1.
      * destruct (decide (tid = tid0)) as [->|Hne].
        -- unfold s1, tid0 in Hs. rewrite state_of_create in Hs.
           injection Hs as <-. discriminate.
        -- apply state_of_lt in Hs. unfold s1 in Hs. rewrite next_create in Hs.
           fold tid0 in Hs. lia.
    + destruct (run_allocated_fatal tid' (store st)) as [e He]. rewrite He in Hstep.
      injection Hstep as <-. cbn [store set_worker set_store]. by apply Hun.
Qed.

Lemma unfinished_reachable st st' :
  reachable self func (Some N) None catch st st' ->
  (exists a b cs, pinv N s0 st a b cs) ->
  (forall tid, (next_trial_id s0 <= tid)%nat -> ~ finished tid (store st)) ->
  forall tid, (next_trial_id s0 <= tid)%nat -> ~ finished tid (store st').
Proof.
  induction 1 as [|st st1 st' Hstep _ IH]; [done|].
  intros (a & b & cs & Hinv) Hun. apply IH.
  - by eapply pinv_step.
  - by eapply unfinished_step.
Qed.

End ParallelFatal.

(** X13: the parallel scheduler does not return when every invocation of
    the objective is fatal.  With a limit of [N >= 1] trials, no timeout
    and a worker count that is positive (or [-1] on a host with a
    processing unit), no schedule leads to a state in which
    [_optimize_parallel] has returned: a run ends with the exception
    raised again by the drain, or waits for ever; and no trial of the run
    ever leaves its running state. *)
Theorem parallel_never_returns_when_fatal `{Runtime} (self : Study)
    (func : ObjectiveFuncType) (catch : list exc_class) (N n_jobs : Z) (reads : nat)
    (s0 : Storage) :
  1 <= N ->
  (1 <= n_jobs \/ (n_jobs = -1 /\ 1 <= cpu_count)) ->
  (forall trial s, fatal catch (func trial s)) ->
  forall st,
    reachable self func (Some N) None catch (start (Some N) n_jobs reads s0) st ->
    coord st <> Returned /\
    forall tid, (next_trial_id s0 <= tid)%nat -> ~ finished tid (store st).
Proof.
  intros HN Hjobs Hfatal st Hr.
  pose proof (resolve_pos N n_jobs HN Hjobs) as Hres.
  pose proof (pinv_start N s0 n_jobs reads HN Hres) as Hinv0.
  assert (Hun : forall tid, (next_trial_id s0 <= tid)%nat -> ~ finished tid (store st)).
  { eapply (unfinished_reachable self func catch N s0 Hfatal); [exact Hr|by eauto|].
    intros tid Htid Hf. apply finished_lt in Hf.
    assert (store (start (Some N) n_jobs reads s0) = s0) as Hs.
    { unfold start. rewrite bool_decide_eq_false_2 by (intros [= ->]; lia).
      by destruct (_ <? 1). }
    rewrite Hs in Hf. lia. }
  split; [|done]. intros Hret.
  destruct (pinv_reachable self func catch N s0 _ st Hr) as (a & b & cs & Hinv);
    [by eauto|].
  destruct (pinv_returned N s0 st a b cs Hinv Hret) as [Hlen Hfin].
  pose proof (inv_next _ _ _ _ _ _ Hinv) as Hnext.
  apply (Hun (next_trial_id s0)); [lia|]. apply Hfin. lia.
Qed.

Lemma parallel_never_returns_when_fatal_witness :
  let func : ObjectiveFuncType := fun _ _ => Raises (mk_exc KeyboardInterrupt "") in
  let st := @play demo_runtime demo_study func (Some 3) None [Exception]
              [Worker 0; Worker 0; Worker 0; Worker 1; Coordinator; Coordinator;
               Coordinator; Coordinator; Worker 1; Worker 1; Coordinator; Coordinator;
               Coordinator; Coordinator]
              (@start demo_runtime (Some 3) 2 0 demo_storage) in
  coord st <> Returned /\ ~ finished 0 (store st).
Proof.
  intros func st.
  destruct (@parallel_never_returns_when_fatal demo_runtime demo_study func [Exception]
              3 2 0 demo_storage) with (st := st) as [Hret Hun].
  - lia.
  - left. lia.
  - intros trial s. exists (mk_exc KeyboardInterrupt ""). repeat split.
  - apply play_reachable.
  - split; [exact Hret|]. apply Hun. vm_compute. lia.
Defined.

Section Sessions.
Context `{Runtime}.
Variable self : Study.
Variable func : ObjectiveFuncType.
Variable catch : list exc_class.
Variable n_trials : option Z.
Variable timeout : option float.
Variable s0 : Storage.

Lemma sessions_app cs cs' :
  sessions_removed (cs ++ cs') = (sessions_removed cs + sessions_removed cs')%nat.
Proof. induction cs as [|[] cs IH]; simpl; lia. Qed.

Lemma run_allocated_sessions tid s :
  exists cs, calls (run_allocated self func catch tid s).1 = calls s ++ cs /\
             sessions_removed cs = 0%nat.
Proof.
  unfold run_allocated.
  assert (Hfail : forall message,
    exists cs, calls (record_fail (mk_Trial (study_id self) tid) message s).1 = calls s ++ cs /\
               sessions_removed cs = 0%nat).
  { intros message. eexists [_; _]. split; [simpl; by rewrite <- app_assoc|reflexivity]. }
  destruct (func _ s) as [v|e].
  - destruct (py_float v) as [V|e].
    + destruct (isnan V); [apply Hfail|].
      assert (exists cs, calls (set_trial_state tid COMPLETE
                                  (report (mk_Trial (study_id self) tid) V s))
                         = calls s ++ cs /\ sessions_removed cs = 0%nat).
      { eexists [_; _; _]. split; [simpl; by rewrite <- !app_assoc|reflexivity]. }
      by destruct (_log_completed_trial _ _ _).
    + destruct (matches e _); [apply Hfail|]. exists []. by rewrite app_nil_r.
  - destruct (isinstance e TrialPruned).
    + eexists [_]. split; reflexivity.
    + destruct (matches e catch); [apply Hfail|]. exists []. by rewrite app_nil_r.
Qed.

Lemma all_exited_lookup ws i w :
  count is_exited ws = List.length ws -> ws !! i = Some w -> w = Exited.
Proof.
  revert i. induction ws as [|x ws IH]; intros i Hc Hl; [done|].
  assert (count is_exited ws <= List.length ws)%nat.
  { clear. induction ws as [|[] ws IH]; simpl; lia. }
  simpl in Hc. destruct i as [|i]; simpl in Hl.
  - injection Hl as ->. destruct w; simpl in Hc; try lia. done.
  - apply (IH i); [|done]. destruct x; simpl in Hc; lia.
Qed.

Lemma sessions_step st st' :
  (exists cs, calls (store st) = calls s0 ++ cs /\
              sessions_removed cs = count is_exited (workers st)) /\
  (coord st = Returned -> count is_exited (workers st) = List.length (workers st)) ->
  steps_to self func n_trials timeout catch st st' ->
  (exists cs, calls (store st') = calls s0 ++ cs /\
              sessions_removed cs = count is_exited (workers st')) /\
  (coord st' = Returned -> count is_exited (workers st') = List.length (workers st')).
Proof.
  intros [(cs & Hcs & Hrem) Hret] [[|i] Hstep]; simpl in Hstep.
  - pose proof (coordinator_keeps_store _ _ _ _ Hstep) as Hs.
    assert (Hw : workers st' = workers st /\
                 (coord st' = Returned ->
                  count is_exited (workers st) = List.length (workers st))).
    { unfold coordinator_step in Hstep.
      destruct (coord st) as [|[|k]| | |e] eqn:Hc; try discriminate.
      - destruct timeout as [t|].
        + destruct (float_gt _ _); [injection Hstep as <-; by split|].
          destruct (match n_trials with Some n => _ | None => false end);
            [injection Hstep as <-; by split|].
          cbn [pool_size que set_reads] in Hstep.
          destruct (put_nowait _ _ _); injection Hstep as <-; split; try done;
            simpl; by rewrite Hc.
        + destruct (match n_trials with Some n => _ | None => false end);
            [injection Hstep as <-; by split|].
          destruct (put_nowait _ _ _); injection Hstep as <-; split; try done;
            simpl; by rewrite Hc.
      - injection Hstep as <-. by split.
      - destruct (put_nowait _ _ _); [|discriminate]. injection Hstep as <-. by split.
      - destruct (join (workers st)) as [[[]|e]|] eqn:Hj; [| |discriminate];
          injection Hstep as <-; split; try done.
        intros _. by apply join_returns_exited. }
    destruct Hw as [Hw Hr]. rewrite Hs, Hw. split; [by exists cs|done].
  - unfold func_child_thread in Hstep.
    destruct (workers st !! i) as [w|] eqn:Hl; [|discriminate].
    cbn [mbind option_bind] in Hstep.
    pose proof (fun w' => count_insert is_exited (workers st) i w w' Hl) as Cex.
    assert (Hnr : coord st <> Returned \/ w = Exited).
    { destruct (coord st) eqn:Hc; try (by left). right.
      eapply all_exited_lookup; [by apply Hret|done]. }
    destruct w as [| |tid| |e]; try discriminate;
      (destruct Hnr as [Hnr|[=]]).
    + destruct (que st) as [|[] q]; [discriminate| |]; injection Hstep as <-;
        cbn [store workers coord set_worker set_store set_que].
      * specialize (Cex Fetched). simpl in Cex. split; [|done].
        exists cs. split; [done|lia].
      * specialize (Cex Exited). simpl in Cex. split; [|done].
        exists (cs ++ [RemoveSession]). split; [simpl; rewrite Hcs; by rewrite <- app_assoc|].
        rewrite sessions_app. simpl. lia.
    + set (tid0 := next_trial_id (store st)) in *.
      set (s1 := (create_new_trial_id (study_id self) (store st)).2) in *.
      change (create_new_trial_id (study_id self) (store st)) with (tid0, s1) in Hstep.
      cbv beta iota in Hstep. injection Hstep as <-.
      cbn [store workers coord set_worker set_store].
      specialize (Cex (InTrial tid0)). cbn [is_exited] in Cex. split; [|done].
      exists (cs ++ [CreateNewTrialId (study_id self) tid0]). split.
      * unfold s1. rewrite create_calls, Hcs. by rewrite <- app_assoc.
      * rewrite sessions_app. simpl. lia.
    + destruct (run_allocated_sessions tid (store st)) as (cs2 & Hcs2 & Hrem2).
      destruct (run_allocated self func catch tid (store st)) as [s' [t|e]];
        cbn [fst] in Hcs2; injection Hstep as <-;
        cbn [store workers coord set_worker set_store]; (split; [|done]);
        exists (cs ++ cs2); (split; [rewrite Hcs2, Hcs; by rewrite <- app_assoc|]);
        rewrite sessions_app, Hrem2.
      * specialize (Cex Waiting). simpl in Cex. lia.
      * specialize (Cex (Died e)). simpl in Cex. lia.
Qed.

Lemma sessions_reachable st st' :
  reachable self func n_trials timeout catch st st' ->
  (exists cs, calls (store st) = calls s0 ++ cs /\
              sessions_removed cs = count is_exited (workers st)) /\
  (coord st = Returned -> count is_exited (workers st) = List.length (workers st)) ->
  (exists cs, calls (store st') = calls s0 ++ cs /\
              sessions_removed cs = count is_exited (workers st')) /\
  (coord st' = Returned -> count is_exited (workers st') = List.length (workers st')).
Proof.
  induction 1 as [|st st1 st' Hstep _ IH]; [done|].
  intros Hinv. apply IH. by eapply sessions_step.
Qed.

End Sessions.

(** X14: a worker releases its storage session exactly when it leaves its
    loop on a stop token.  Whatever the limit, the timeout and the
    objective, in every state a schedule can reach the number of
    [remove_session] calls made since the start is the number of workers
    that have exited; when [_optimize_parallel] has returned it is the
    number of workers. *)
Theorem sessions_removed_once `{Runtime} (self : Study) (func : ObjectiveFuncType)
    (catch : list exc_class) (n_trials : option Z) (timeout : option float) (n_jobs : Z)
    (reads : nat) (s0 : Storage) (st : pstate) :
  reachable self func n_trials timeout catch (start n_trials n_jobs reads s0) st ->
  sessions_removed (new_calls s0 (store st)) = count is_exited (workers st) /\
  (coord st = Returned ->
   sessions_removed (new_calls s0 (store st)) = List.length (workers st)).
Proof.
  intros Hr.
  assert (Hinv : (exists cs, calls (store st) = calls s0 ++ cs /\
                             sessions_removed cs = count is_exited (workers st)) /\
                 (coord st = Returned ->
                  count is_exited (workers st) = List.length (workers st))).
  { eapply (sessions_reachable self func catch n_trials timeout s0); [exact Hr|].
    unfold start. destruct (bool_decide (n_trials = Some 0)).
    { split; [exists []; by rewrite app_nil_r|done]. }
    destruct (_ <? 1).
    { split; [exists []; by rewrite app_nil_r|done]. }
    split; [|done]. exists []. split; [by rewrite app_nil_r|].
    simpl. by rewrite count_repeat. }
  destruct Hinv as [(cs & Hcs & Hrem) Hret].
  rewrite (new_calls_app s0 (store st) cs Hcs). split; [done|].
  intros Hc. rewrite Hrem. by apply Hret.
Qed.


Lemma sessions_removed_once_witness :
  let st := @play demo_runtime demo_study (fun _ _ => Returns (VInt 1)) (Some 3) None
              [Exception]
              [Worker 0; Worker 1; Coordinator; Worker 0; Worker 1; Worker 0; Worker 1;
               Coordinator; Worker 1; Worker 1; Worker 1; Coordinator; Coordinator;
               Coordinator; Worker 0; Worker 1; Coordinator]
              (@start demo_runtime (Some 3) 2 0 demo_storage) in
  coord st = Returned /\
  sessions_removed (new_calls demo_storage (store st)) = 2%nat.
Proof.
  intros st. split; [reflexivity|].
  apply (@sessions_removed_once demo_runtime demo_study (fun _ _ => Returns (VInt 1))
           [Exception] (Some 3) None 2 0 demo_storage st); [|reflexivity].
  apply play_reachable.
Defined.

(** X15: pickling round trip.  For an object that has its logger,
    [__getstate__] returns the attributes without the logger, and
    [__setstate__] of that state on a fresh object gives back every
    attribute, with the logger obtained anew from [get_logger]. *)
Theorem pickle_round_trip (attr : Type) (get_logger : string -> attr)
    (dict : gmap string attr) :
  is_Some (dict !! "logger") ->
  exists state,
    __getstate__ attr dict = Ret state /\
    state !! "logger" = None /\
    (forall k, k <> "logger" -> state !! k = dict !! k) /\
    __setstate__ attr get_logger ∅ state = <["logger" := get_logger __name__]> dict.
Proof.
  intros [l Hl]. exists (delete "logger" dict). unfold __getstate__, __setstate__.
  rewrite Hl. split; [done|]. split; [apply lookup_delete_eq|]. split.
  - intros k Hk. by apply lookup_delete_ne.
  - rewrite (right_id ∅ (∪)). apply insert_delete_eq.
Qed.

Lemma pickle_round_trip_witness :
  let dict : gmap string string :=
    {["logger" := "<Logger optuna.study>"; "study_name" := "demo"]} in
  exists state,
    __getstate__ string dict = Ret state /\
    __setstate__ string (fun name => "<Logger " +:+ name +:+ ">") ∅ state = dict.
Proof.
  intros dict.
  destruct (pickle_round_trip string (fun name => "<Logger " +:+ name +:+ ">") dict)
    as (state & Hget & _ & _ & Hset).
  - exists "<Logger optuna.study>". reflexivity.
  - exists state. split; [exact Hget|]. rewrite Hset. reflexivity.
Defined.

Section ExportOrder.
Variable _fields : list string.
Variable internal_fields : list string.
Variable getattr : FrozenTrial -> string -> field_value.
Variable type_error_text : pyset -> string.

Lemma forallb_same_members {A} (p : A -> bool) (l l' : list A) :
  (forall x, x ∈ l <-> x ∈ l') -> forallb p l = forallb p l'.
Proof.
  intros Hmem. apply eq_true_iff_eq. rewrite !forallb_forall.
  split; intros Hall x Hx; apply Hall, list_elem_of_In, Hmem, list_elem_of_In, Hx.
Qed.

(** [sorted] on two sets with the same members: the same list, or a
    [TypeError] from both. *)
Lemma sorted_same_members (s s' : pyset) :
  NoDup s -> NoDup s' -> (forall c, c ∈ s <-> c ∈ s') ->
  match sorted type_error_text s, sorted type_error_text s' with
  | Ret l, Ret l' => l = l'
  | Raise e, Raise e' => exc_cls e = exc_cls e'
  | _, _ => False
  end.
Proof.
  intros Hnd Hnd' Hmem. unfold sorted.
  assert (comparable s = comparable s') as ->.
  { unfold comparable. f_equal; by apply forallb_same_members. }
  destruct (comparable s'); [|reflexivity].
  apply (StronglySorted_unique col_le).
  - apply StronglySorted_merge_sort; apply _.
  - apply StronglySorted_merge_sort; apply _.
  - rewrite !merge_sort_Permutation. by apply NoDup_Permutation.
Qed.

Lemma sum_sorted_same_members agg agg' (ks : list string) :
  (forall k, NoDup (agg_get k agg)) -> (forall k, NoDup (agg_get k agg')) ->
  (forall k c, c ∈ agg_get k agg <-> c ∈ agg_get k agg') ->
  match sum_sorted type_error_text agg ks, sum_sorted type_error_text agg' ks with
  | Ret l, Ret l' => l = l'
  | Raise e, Raise e' => exc_cls e = exc_cls e'
  | _, _ => False
  end.
Proof.
  intros Hnd Hnd' Hmem. induction ks as [|k ks IH]; [reflexivity|].
  cbn [sum_sorted].
  pose proof (sorted_same_members (agg_get k agg) (agg_get k agg') (Hnd k) (Hnd' k)
                (Hmem k)) as Hk.
  destruct (sorted type_error_text (agg_get k agg)) as [g|e],
           (sorted type_error_text (agg_get k agg')) as [g'|e']; try done.
  subst g'. cbn [mbind res_bind].
  destruct (sum_sorted type_error_text agg ks) as [l|e],
           (sum_sorted type_error_text agg' ks) as [l'|e']; try done.
  by subst l'.
Qed.

Lemma columns_same_members trials trials' :
  (forall t, t ∈ trials <-> t ∈ trials') ->
  match sum_sorted type_error_text
          (foldl (add_trial _fields internal_fields getattr) ([], ∅) trials).2 _fields,
        sum_sorted type_error_text
          (foldl (add_trial _fields internal_fields getattr) ([], ∅) trials').2 _fields with
  | Ret l, Ret l' => l = l'
  | Raise e, Raise e' => exc_cls e = exc_cls e'
  | _, _ => False
  end.
Proof.
  intros Hmem.
  assert (Hempty : forall k, NoDup (agg_get k ∅)).
  { intros k. rewrite agg_get_empty. constructor. }
  apply sum_sorted_same_members.
  - by apply fold_trials_nodup.
  - by apply fold_trials_nodup.
  - intros k c.
    destruct (fold_trials _fields internal_fields getattr trials [] ∅) as [_ Hagg].
    destruct (fold_trials _fields internal_fields getattr trials' [] ∅) as [_ Hagg'].
    cbn zeta in Hagg, Hagg'. rewrite Hagg, Hagg'.
    split; (intros [?|(Hc & t & Ht & Hs)]; [by left|]); right; (split; [done|]);
      exists t; (split; [by apply Hmem|done]).
Qed.

End ExportOrder.

(** X16: the columns of the export do not depend on the order of the
    trials, nor on how often a trial occurs.  Two lists of trials with
    the same members either both give a table, with the same columns in
    the same order, or both raise an exception of the same class (the
    text of the [TypeError] of [sorted] may differ with the order). *)
Theorem dataframe_columns_order_free (_fields internal_fields : list string)
    (getattr : FrozenTrial -> string -> field_value) (type_error_text : pyset -> string)
    (trials trials' : list FrozenTrial) :
  (forall t, t ∈ trials <-> t ∈ trials') ->
  match trials_dataframe _fields internal_fields getattr type_error_text trials,
        trials_dataframe _fields internal_fields getattr type_error_text trials' with
  | Ret df, Ret df' => df_columns df = df_columns df'
  | Raise e, Raise e' => exc_cls e = exc_cls e'
  | _, _ => False
  end.
Proof.
  intros Hmem. unfold trials_dataframe.
  pose proof (columns_same_members _fields internal_fields getattr type_error_text
                trials trials' Hmem) as Hc.
  destruct (foldl (add_trial _fields internal_fields getattr) ([], ∅) trials)
    as [records agg].
  destruct (foldl (add_trial _fields internal_fields getattr) ([], ∅) trials')
    as [records' agg'].
  cbn [snd] in Hc.
  destruct (sum_sorted type_error_text agg _fields) as [columns|e],
           (sum_sorted type_error_text agg' _fields) as [columns'|e']; try done.
  subst columns'. cbn [mbind res_bind].
  by destruct (from_tuples columns).
Qed.

Lemma dataframe_columns_order_free_witness :
  let t1 := mk_trial 1 0 COMPLETE (Some (float_of_Z 2)) {["a" := VInt 2]} ∅
              [float_of_Z 2] in
  match trials_dataframe demo_fields demo_internal_fields demo_getattr
          demo_type_error_text [demo_trial; t1],
        trials_dataframe demo_fields demo_internal_fields demo_getattr
          demo_type_error_text [t1; demo_trial; t1] with
  | Ret df, Ret df' => df_columns df = df_columns df'
  | Raise e, Raise e' => exc_cls e = exc_cls e'
  | _, _ => False
  end.
Proof.
  intros t1.
  apply (dataframe_columns_order_free demo_fields demo_internal_fields demo_getattr
           demo_type_error_text [demo_trial; t1] [t1; demo_trial; t1]).
  intros t. rewrite !elem_of_cons. pose proof (elem_of_nil t). tauto.
Defined.

(* ===================================================================== *)
(** * The parallel scheduler under a timeout                              *)
(* ===================================================================== *)

Section ParallelTimeout.
Context `{Runtime}.
Variable self : Study.
Variable func : ObjectiveFuncType.
Variable catch : list exc_class.
Variable n_trials : option Z.
Variable timeout : option float.
Variable P : nat.
Variable s0 : Storage.

Lemma tinv_start n_jobs reads :
  1 <= resolve_n_jobs n_trials n_jobs ->
  P = Z.to_nat (resolve_n_jobs n_trials n_jobs) ->
  tinv n_trials P s0 (start n_trials n_jobs reads s0) P 0 [].
Proof.
  intros Hres ->. unfold start.
  assert (Hlim : forall N, n_trials = Some N -> resolve_n_jobs n_trials n_jobs <= N).
  { intros N ->. unfold resolve_n_jobs. lia. }
  rewrite bool_decide_eq_false_2.
  2:{ intros Hz. specialize (Hlim 0 Hz). lia. }
  remember (resolve_n_jobs n_trials n_jobs) as r.
  destruct (Z.ltb_spec r 1); [lia|].
  constructor; cbn [workers pool_size que coord n_enqueued_trials store allocated omap
                    List.length]; rewrite ?count_repeat; simpl; try lia; try done.
  - by rewrite repeat_length.
  - by rewrite app_nil_r.
  - by rewrite app_nil_r.
  - intros tid Hin. apply list_elem_of_In, repeat_spec in Hin. discriminate.
Qed.

Lemma tinv_stop st a cs :
  tinv n_trials P s0 st a 0 cs -> coord st = Admitting ->
  forall r, tinv n_trials P s0 (set_coord (Stopping (pool_size st)) (set_reads r st)) a 0 cs.
Proof.
  intros [Hpool Hw Hque Hphase Hfifo Henq Hseed Hlim Hcalls Hids Hnext Htrials Hintr] Hc r.
  rewrite Hc in Hphase. destruct Hphase as [_ Hex].
  constructor; simpl; try done. lia.
Qed.

Lemma tinv_reads st a b cs r :
  tinv n_trials P s0 st a b cs -> tinv n_trials P s0 (set_reads r st) a b cs.
Proof. intros []. by constructor. Qed.

Lemma set_reads_same st : set_reads (reads st) st = st.
Proof. by destruct st. Qed.

Lemma tinv_coordinator st st' a b cs :
  tinv n_trials P s0 st a b cs ->
  coordinator_step n_trials timeout st = Some st' ->
  exists a' b', tinv n_trials P s0 st' a' b' cs.
Proof.
  intros Hinv. unfold coordinator_step.
  destruct (coord st) as [|[|k]| | |e] eqn:Hc; try discriminate.
  - (* Admitting *)
    assert (Hb : b = 0%nat).
    { pose proof (tinv_phase _ _ _ _ _ _ _ Hinv) as Hp. rewrite Hc in Hp. tauto. }
    subst b.
    assert (Hgo : forall r,
      (if match n_trials with
          | Some n_trials => n_enqueued_trials (set_reads r st) >=? n_trials
          | None => false
          end
       then Some (set_coord (Stopping (pool_size (set_reads r st))) (set_reads r st))
       else match put_nowait (pool_size (set_reads r st)) true (que (set_reads r st)) with
            | Some q => Some (set_n_enqueued_trials (n_enqueued_trials (set_reads r st) + 1)
                                (set_que q (set_reads r st)))
            | None => Some (set_reads r st)
            end) = Some st' ->
      exists a' b', tinv n_trials P s0 st' a' b' cs).
    { intros r. cbn [pool_size que n_enqueued_trials set_reads].
      destruct (match n_trials with Some n => _ | None => false end) eqn:Hlimit.
      - intros [= <-]. exists a, 0%nat. by apply tinv_stop.
      - apply (tinv_reads st a 0 cs r) in Hinv.
        destruct Hinv as [Hpool Hw Hque Hphase Hfifo Henq Hseed Hlim Hcalls Hids Hnext
                          Htrials Hintr].
        cbn [pool_size que n_enqueued_trials coord workers store set_reads] in *.
        rewrite Hc in Hphase. unfold put_nowait. destruct (decide _) as [Hfree|Hfull].
        + intros [= <-]. exists (S a), 0%nat.
          constructor; simpl; rewrite ?Hc; try done; try lia.
          * rewrite Hque, !app_nil_r. apply (repeat_snoc true a).
          * intros N HN. specialize (Hlim N HN). rewrite HN in Hlimit.
            destruct (Z.geb_spec (n_enqueued_trials st) N); [discriminate|lia].
        + intros [= <-]. exists a, 0%nat. constructor; simpl; rewrite ?Hc; done. }
    destruct timeout as [t|].
    + destruct (float_gt _ t).
      * intros [= <-]. exists a, 0%nat. by apply tinv_stop.
      * apply Hgo.
    + specialize (Hgo (reads st)). by rewrite set_reads_same in Hgo.
  - (* Stopping 0 *)
    destruct Hinv as [Hpool Hw Hque Hphase Hfifo Henq Hseed Hlim Hcalls Hids Hnext
                      Htrials Hintr].
    rewrite Hc in Hphase.
    intros [= <-]. exists a, b. constructor; simpl; try done. lia.
  - (* Stopping (S k) *)
    destruct Hinv as [Hpool Hw Hque Hphase Hfifo Henq Hseed Hlim Hcalls Hids Hnext
                      Htrials Hintr].
    rewrite Hc in Hphase.
    unfold put_nowait. destruct (decide _) as [Hfree|Hfull]; [|discriminate].
    simpl. intros [= <-]. exists a, (S b).
    constructor; simpl; try done.
    + rewrite Hque, <- app_assoc. f_equal. apply repeat_snoc.
    + lia.
  - (* Joining *)
    destruct Hinv as [Hpool Hw Hque Hphase Hfifo Henq Hseed Hlim Hcalls Hids Hnext
                      Htrials Hintr].
    rewrite Hc in Hphase.
    destruct (join (workers st)) as [[[]|e]|] eqn:Hj; [| |discriminate];
      simpl; intros [= <-]; exists a, b; constructor; simpl; try done.
    apply join_returns_exited in Hj. lia.
Qed.

Lemma tinv_worker st st' a b cs i :
  tinv n_trials P s0 st a b cs ->
  func_child_thread self func catch i st = Some st' ->
  exists a' b' cs', tinv n_trials P s0 st' a' b' cs'.
Proof.
  intros [Hpool Hw Hque Hphase Hfifo Henq Hseed Hlim Hcalls Hids Hnext Htrials Hintr].
  unfold func_child_thread.
  destruct (workers st !! i) as [w|] eqn:Hl; [|discriminate]. cbn [mbind option_bind].
  pose proof (fun w' => count_insert is_exited (workers st) i w w' Hl) as Cex.
  pose proof (fun w' => count_insert is_fetched (workers st) i w w' Hl) as Cfe.
  pose proof (fun w' => count_insert is_died (workers st) i w w' Hl) as Cdi.
  destruct w as [| |tid| |e]; try discriminate.
  - (* Waiting *)
    destruct (que st) as [|tok q] eqn:Hq; [discriminate|].
    symmetry in Hque.
    apply que_head in Hque as [(-> & a' & -> & ->)|(-> & -> & b' & -> & ->)].
    + intros [= <-]. exists a', b, cs.
      specialize (Cex Fetched). specialize (Cfe Fetched). specialize (Cdi Fetched).
      simpl in Cex, Cfe, Cdi.
      assert (Hex0 : count is_exited (workers st) = 0%nat).
      { destruct (count is_exited (workers st)); [done|]. discriminate Hfifo. lia. }
      constructor; simpl; try done.
      * by rewrite length_insert.
      * destruct (coord st); simpl in Hphase |- *; lia.
      * lia.
      * lia.
      * intros tid Htid. destruct (Htrials tid Htid) as [Hf|[Hin|Hd]]; [by left| |right; right; lia].
        right. left. by eapply elem_of_insert_other.
      * intros tid Hin. apply elem_of_insert_inv in Hin as [[=]|Hin]. by apply Hintr.
    + intros [= <-]. exists 0%nat, b', (cs ++ [RemoveSession]).
      specialize (Cex Exited). specialize (Cfe Exited). specialize (Cdi Exited).
      simpl in Cex, Cfe, Cdi.
      constructor; simpl; rewrite ?allocated_app, ?app_nil_r; try done.
      * by rewrite length_insert.
      * destruct (coord st); simpl in Hphase |- *; lia.
      * lia.
      * rewrite Hcalls. by rewrite <- app_assoc.
      * intros tid Htid. destruct (Htrials tid Htid) as [Hf|[Hin|Hd]]; [by left| |right; right; lia].
        right. left. by eapply elem_of_insert_other.
      * intros tid Hin. apply elem_of_insert_inv in Hin as [[=]|Hin]. by apply Hintr.
  - (* Fetched *)
    set (tid0 := next_trial_id (store st)).
    set (s1 := (create_new_trial_id (study_id self) (store st)).2).
    change (create_new_trial_id (study_id self) (store st)) with (tid0, s1).
    cbv beta iota. intros [= <-].
    exists a, b, (cs ++ [CreateNewTrialId (study_id self) tid0]).
    specialize (Cex (InTrial tid0)). specialize (Cfe (InTrial tid0)).
    specialize (Cdi (InTrial tid0)).
    cbn [is_exited is_fetched is_died] in Cex, Cfe, Cdi.
    assert (Hn1 : next_trial_id s1 = S tid0) by apply next_create.
    constructor; cbn [workers pool_size que coord n_enqueued_trials store set_worker set_store];
      rewrite ?allocated_app, ?length_app;
      change (allocated [CreateNewTrialId (study_id self) tid0]) with [tid0];
      cbn [List.length]; try done.
    + by rewrite length_insert.
    + destruct (coord st); simpl in Hphase |- *; lia.
    + intros Hp. apply Hfifo. lia.
    + lia.
    + unfold s1. rewrite create_calls, Hcalls. by rewrite <- app_assoc.
    + rewrite Nat.add_1_r, seq_S, <- Hids. unfold tid0. by rewrite Hnext.
    + rewrite Hn1. unfold tid0. rewrite Hnext. lia.
    + intros tid Htid. rewrite Hn1 in Htid.
      destruct (decide (tid = tid0)) as [->|Hne].
      * right. left. by eapply elem_of_insert_new.
      * destruct (Htrials tid) as [Hf|[Hin|Hd]]; [unfold tid0 in *; lia| | |].
        -- left. by apply finished_create.
        -- right. left. by eapply elem_of_insert_other.
        -- right. right. lia.
    + intros tid Hin. rewrite Hn1.
      apply elem_of_insert_inv in Hin as [[= ->]|Hin]; [lia|].
      apply Hintr in Hin. unfold tid0. lia.
  - (* InTrial *)
    assert (Hin : InTrial tid ∈ workers st) by (by eapply list_elem_of_lookup_2).
    destruct (run_allocated_frame self func catch tid (store st) (Hintr tid Hin))
      as ((Hn & (cs2 & Hcs2 & Hal2) & Hfin & _ & _) & Hret).
    destruct (run_allocated self func catch tid (store st)) as [s' [t|e]];
      cbn [fst snd] in *; intros [= <-]; exists a, b, (cs ++ cs2).
    + specialize (Cex Waiting). specialize (Cfe Waiting). specialize (Cdi Waiting).
      simpl in Cex, Cfe, Cdi.
      constructor; cbn [workers pool_size que coord n_enqueued_trials store set_worker set_store];
        rewrite ?allocated_app, ?Hal2, ?app_nil_r; try done.
      * by rewrite length_insert.
      * destruct (coord st); simpl in Hphase |- *; lia.
      * intros Hp. apply Hfifo. lia.
      * lia.
      * rewrite Hcs2, Hcalls. by rewrite <- app_assoc.
      * by rewrite Hn.
      * intros tid' Htid. rewrite Hn in Htid.
        destruct (Htrials tid' Htid) as [Hf|[Hin'|Hd]].
        -- left. by apply Hfin.
        -- destruct (decide (tid' = tid)) as [->|Hne].
           ++ left. by apply (Hret t).
           ++ right. left. eapply elem_of_insert_other; [done|done|congruence].
        -- right. right. lia.
      * intros tid' Hin'. rewrite Hn.
        apply elem_of_insert_inv in Hin' as [[=]|Hin']. by apply Hintr.
    + specialize (Cex (Died e)). specialize (Cfe (Died e)). specialize (Cdi (Died e)).
      simpl in Cex, Cfe, Cdi.
      constructor; cbn [workers pool_size que coord n_enqueued_trials store set_worker set_store];
        rewrite ?allocated_app, ?Hal2, ?app_nil_r; try done.
      * by rewrite length_insert.
      * destruct (coord st); simpl in Hphase |- *; lia.
      * intros Hp. apply Hfifo. lia.
      * lia.
      * rewrite Hcs2, Hcalls. by rewrite <- app_assoc.
      * by rewrite Hn.
      * intros tid' Htid. rewrite Hn in Htid.
        destruct (Htrials tid' Htid) as [Hf|[Hin'|Hd]].
        -- left. by apply Hfin.
        -- right. right. lia.
        -- right. right. lia.
      * intros tid' Hin'. rewrite Hn.
        apply elem_of_insert_inv in Hin' as [[=]|Hin']. by apply Hintr.
Qed.

Lemma tinv_reachable st st' :
  reachable self func n_trials timeout catch st st' ->
  (exists a b cs, tinv n_trials P s0 st a b cs) ->
  exists a b cs, tinv n_trials P s0 st' a b cs.
Proof.
  induction 1 as [|st st1 st' [[|i] Hstep] _ IH]; [done| |]; simpl in Hstep;
    intros (a & b & cs & Hinv); apply IH.
  - destruct (tinv_coordinator st st1 a b cs Hinv Hstep) as (a' & b' & Hinv').
    by exists a', b', cs.
  - by eapply tinv_worker.
Qed.

End ParallelTimeout.

(** X17: what the parallel scheduler has done when it returns, whatever
    the limit, the timeout, the objective and the schedule, for a
    resolved worker count of at least one.  The trials it ran are the
    [n_enqueued_trials] tokens it admitted: their identifiers are the
    next free ones in order, every one of them is finished, there is at
    least one trial per worker (the first round is enqueued before the
    timeout is looked at), and no more than the limit when one is set. *)
Theorem parallel_returns_what_it_enqueued `{Runtime} (self : Study)
    (func : ObjectiveFuncType) (catch : list exc_class) (n_trials : option Z)
    (timeout : option float) (n_jobs : Z) (reads : nat) (s0 : Storage) (st : pstate) :
  1 <= resolve_n_jobs n_trials n_jobs ->
  _optimize_parallel self func n_trials timeout catch n_jobs reads s0 st ->
  let ids := allocated (new_calls s0 (store st)) in
  ids = seq (next_trial_id s0) (List.length ids) /\
  Z.of_nat (List.length ids) = n_enqueued_trials st /\
  resolve_n_jobs n_trials n_jobs <= Z.of_nat (List.length ids) /\
  (forall N, n_trials = Some N -> Z.of_nat (List.length ids) <= N) /\
  (forall tid, tid ∈ ids -> finished tid (store st)).
Proof.
  intros Hres [Hr Hret] ids.
  destruct (tinv_reachable self func catch n_trials timeout
              (Z.to_nat (resolve_n_jobs n_trials n_jobs)) s0 _ st Hr)
    as (a & b & cs & Hinv).
  { eexists _, _, _. by apply tinv_start. }
  destruct Hinv as [Hpool Hw Hque Hphase Hfifo Henq Hseed Hlim Hcalls Hids Hnext
                    Htrials Hintr].
  rewrite Hret in Hphase.
  assert (Ha : a = 0%nat) by (apply Hfifo; lia).
  pose proof (count_partition (workers st)) as Hpart.
  assert (Hfe : count is_fetched (workers st) = 0%nat) by lia.
  assert (Hdi : count is_died (workers st) = 0%nat) by lia.
  assert (Hit : count is_intrial (workers st) = 0%nat) by lia.
  subst ids. rewrite (new_calls_app s0 (store st) cs Hcalls).
  split; [done|]. split; [lia|]. split; [lia|]. split.
  - intros N HN. specialize (Hlim N HN). lia.
  - intros tid Hin. rewrite Hids in Hin. apply elem_of_seq in Hin.
    destruct (Htrials tid) as [Hf|[Hi|Hd]]; [lia|done| |lia].
    apply (count_elem is_intrial) in Hi; [lia|done].
Qed.

Lemma parallel_returns_what_it_enqueued_witness :
  let st := @play demo_runtime demo_study (fun _ _ => Returns (VInt 1)) None
              (Some (float_of_Z 0)) [Exception]
              [Coordinator; Worker 0; Worker 0; Worker 0; Worker 1; Worker 1; Worker 1;
               Coordinator; Coordinator; Coordinator; Worker 0; Worker 1; Coordinator]
              (@start demo_runtime None 2 0 demo_storage) in
  coord st = Returned /\
  allocated (new_calls demo_storage (store st)) = [0; 1]%nat.
Proof.
  intros st. split; [reflexivity|].
  destruct (@parallel_returns_what_it_enqueued demo_runtime demo_study
              (fun _ _ => Returns (VInt 1)) [Exception] None (Some (float_of_Z 0)) 2 0
              demo_storage st) as (Hids & Hlen & _).
  - vm_compute. discriminate.
  - split; [apply play_reachable|reflexivity].
  - rewrite Hids.
    assert (List.length (allocated (new_calls demo_storage (store st))) = 2%nat) as ->
      by (apply Nat2Z.inj; rewrite Hlen; reflexivity).
    reflexivity.
Defined.
